(** * Sticker maker: the generation workflow of [index.tsx]

    A shallow embedding of the React component [App] of [src/index.tsx]:
    its state, its event handlers, the prompt templates, the parsing of the
    custom-variants text and the metadata export, followed by the properties
    proved about them.

    Conventions.
    - A JavaScript string is the list of its UTF-16 code units ([jsstring]).
      String literals of the source are written [lit "..."]: the literal is
      stored as UTF-8 bytes and [lit] decodes it to code units.
    - [useState] cells are the fields of the record [AppState].  A handler
      reads the values captured by the render it was created in and writes
      through the setters; it is modelled as a function of the captured
      state [s] in a state monad over the live state and the outside world.
    - In [step] and [run] a handler runs to completion: no other event is
      interleaved with the [await]s of a handler.  The part on handlers in
      flight cuts a handler at its [await]s on the file reader and on the
      service, and lets actions and completions come in any order ([move],
      [interleave]).
    - The generative-image service, the file reader and the clock are inputs. *)

From Stdlib Require Import String Ascii.
From Stdlib Require Import List NArith Bool Arith Lia Permutation.
From Stdlib Require DecimalN.
From Stdlib Require Import ZArith.
Import ListNotations.
Open Scope N_scope.
Open Scope list_scope.

(* ===================================================================== *)
(** ** JavaScript strings *)
(* ===================================================================== *)

Module Js.

(** A string is a sequence of UTF-16 code units. *)
Definition jsstring := list N.

Fixpoint bytes_of_string (s : string) : list N :=
  match s with
  | EmptyString => []
  | String a r => N_of_ascii a :: bytes_of_string r
  end.

(** The continuation bits of a UTF-8 byte. *)
Definition cont (b : N) : N := N.land b 63.

(** UTF-8 bytes to UTF-16 code units (a code point above U+FFFF becomes a
    surrogate pair); a truncated sequence ends the decoding. *)
Fixpoint utf16_of_utf8 (bs : list N) : jsstring :=
  match bs with
  | [] => []
  | b0 :: r =>
    if b0 <? 128 then b0 :: utf16_of_utf8 r
    else if b0 <? 224 then
      match r with
      | b1 :: r1 => (N.shiftl (N.land b0 31) 6 + cont b1) :: utf16_of_utf8 r1
      | _ => []
      end
    else if b0 <? 240 then
      match r with
      | b1 :: b2 :: r2 =>
        (N.shiftl (N.land b0 15) 12 + N.shiftl (cont b1) 6 + cont b2)
          :: utf16_of_utf8 r2
      | _ => []
      end
    else
      match r with
      | b1 :: b2 :: b3 :: r3 =>
        let cp := N.shiftl (N.land b0 7) 18 + N.shiftl (cont b1) 12
                  + N.shiftl (cont b2) 6 + cont b3 in
        let v := cp - 65536 in
        (55296 + N.shiftr v 10) :: (56320 + N.land v 1023) :: utf16_of_utf8 r3
      | _ => []
      end
  end.

(** A string literal of the source. *)
Definition lit (s : string) : jsstring := utf16_of_utf8 (bytes_of_string s).

(** [a === b] on strings. *)
Fixpoint eqb (a b : jsstring) : bool :=
  match a, b with
  | [], [] => true
  | x :: a', y :: b' => (x =? y) && eqb a' b'
  | _, _ => false
  end.

(** Truthiness of a string: every string but the empty one. *)
Definition truthy (s : jsstring) : bool :=
  match s with [] => false | _ :: _ => true end.

(** [Number.prototype.toString] on a non-negative integer. *)
Definition digit_unit (d : N) : N := 48 + d.

Fixpoint units_of_uint (u : Decimal.uint) : jsstring :=
  match u with
  | Decimal.Nil => []
  | Decimal.D0 r => digit_unit 0 :: units_of_uint r
  | Decimal.D1 r => digit_unit 1 :: units_of_uint r
  | Decimal.D2 r => digit_unit 2 :: units_of_uint r
  | Decimal.D3 r => digit_unit 3 :: units_of_uint r
  | Decimal.D4 r => digit_unit 4 :: units_of_uint r
  | Decimal.D5 r => digit_unit 5 :: units_of_uint r
  | Decimal.D6 r => digit_unit 6 :: units_of_uint r
  | Decimal.D7 r => digit_unit 7 :: units_of_uint r
  | Decimal.D8 r => digit_unit 8 :: units_of_uint r
  | Decimal.D9 r => digit_unit 9 :: units_of_uint r
  end.

Definition of_number (n : N) : jsstring := units_of_uint (N.to_uint n).

(** *** [String.prototype.trim]

    The code units removed by [trim]: the WhiteSpace and LineTerminator
    productions of ECMAScript (TAB, VT, FF, SP, NBSP, ZWNBSP, the Unicode
    space separators, LF, CR, LS, PS). *)
Definition isWhiteSpace (c : N) : bool :=
  (c =? 9) || (c =? 10) || (c =? 11) || (c =? 12) || (c =? 13) || (c =? 32)
  || (c =? 160) || (c =? 5760) || ((8192 <=? c) && (c <=? 8202))
  || (c =? 8232) || (c =? 8233) || (c =? 8239) || (c =? 8287)
  || (c =? 12288) || (c =? 65279).

Fixpoint trimStart (s : jsstring) : jsstring :=
  match s with
  | [] => []
  | c :: r => if isWhiteSpace c then trimStart r else s
  end.

Definition trimEnd (s : jsstring) : jsstring := rev (trimStart (rev s)).

Definition trim (s : jsstring) : jsstring := trimEnd (trimStart s).

(** *** [String.prototype.split] with a one-unit separator *)
Fixpoint split (sep : N) (s : jsstring) : list jsstring :=
  match s with
  | [] => [[]]
  | c :: r =>
    if c =? sep then [] :: split sep r
    else match split sep r with
         | [] => [[c]]
         | p :: ps => (c :: p) :: ps
         end
  end.

(** [Array.prototype.join] with a one-unit separator. *)
Fixpoint join (sep : N) (ps : list jsstring) : jsstring :=
  match ps with
  | [] => []
  | [p] => p
  | p :: rest => p ++ sep :: join sep rest
  end.

Definition comma : N := 44.

(** [s.startsWith(x)] and [s.includes(x)] *)
Fixpoint startsWith (s x : jsstring) {struct x} : bool :=
  match x, s with
  | [], _ => true
  | a :: x', b :: s' => (a =? b) && startsWith s' x'
  | _ :: _, [] => false
  end.

Fixpoint includes (s x : jsstring) : bool :=
  startsWith s x
  || match s with
     | [] => false
     | _ :: r => includes r x
     end.

End Js.

Import Js.

(* ===================================================================== *)
(** ** Constants *)
(* ===================================================================== *)

Definition API_MODEL : jsstring := lit "gemini-2.5-flash-image-preview".

Definition RANDOM_ACTIONS : list jsstring :=
  [lit "跑步"; lit "揮手"; lit "拿著咖啡"; lit "跳舞"; lit "思考"; lit "慶祝"].

Definition MAX_CUSTOM_VARIANTS : nat := 12.

(** The [.split(',').map(s => s.trim()).filter(Boolean).slice(0, MAX)] chain
    of [handleGenerateCustomVariants]. *)
Definition parseCustomVariants (customVariantsPrompt : jsstring) : list jsstring :=
  firstn MAX_CUSTOM_VARIANTS
    (filter truthy (map trim (split comma customVariantsPrompt))).


(** The style presets: the keys of the [STYLES] table, which are the values
    the style [<select>] can take. *)
Inductive Style :=
| photorealistic | cute | abstract | picasso | vangogh
| davinci | monalisa | mosaic | custom.

Definition Style_eqb (a b : Style) : bool :=
  match a, b with
  | photorealistic, photorealistic | cute, cute | abstract, abstract
  | picasso, picasso | vangogh, vangogh | davinci, davinci
  | monalisa, monalisa | mosaic, mosaic | custom, custom => true
  | _, _ => false
  end.

(** The key of a style, as a string (the value held by the [style] cell). *)
Definition styleKey (k : Style) : jsstring :=
  match k with
  | photorealistic => lit "photorealistic"
  | cute => lit "cute"
  | abstract => lit "abstract"
  | picasso => lit "picasso"
  | vangogh => lit "vangogh"
  | davinci => lit "davinci"
  | monalisa => lit "monalisa"
  | mosaic => lit "mosaic"
  | custom => lit "custom"
  end.

(** [STYLES[key]]: the display label of a style. *)
Definition STYLES (k : Style) : jsstring :=
  match k with
  | photorealistic => lit "超擬真"
  | cute => lit "可愛"
  | abstract => lit "抽象"
  | picasso => lit "畢卡索"
  | vangogh => lit "梵谷"
  | davinci => lit "達文西"
  | monalisa => lit "蒙娜麗莎"
  | mosaic => lit "馬賽克"
  | custom => lit "其他..."
  end.

(* ===================================================================== *)
(** ** The generative-image SDK, as far as [generateImage] uses it *)
(* ===================================================================== *)

Module Genai.

Inductive Modality := IMAGE | TEXT.

Record Blob := { data : jsstring; mimeType : jsstring }.

Record Part := { inlineData : option Blob; text : option jsstring }.

Record Content := { parts : option (list Part) }.

Record Candidate := { content : option Content }.

Record Response := { candidates : option (list Candidate) }.

(** The argument of [ai.models.generateContent]. *)
Record Request := {
  model : jsstring;
  contents : list Part;
  responseModalities : list Modality
}.

(** What a rejected call throws: an [Error] with its message, or a value
    that is not an instance of [Error]. *)
Inductive Thrown := ErrorObject (message : jsstring) | NotAnError.

Inductive Outcome := Resolved (r : Response) | Rejected (e : Thrown).

End Genai.

(* ===================================================================== *)
(** ** The state of [App] *)
(* ===================================================================== *)

Inductive GoogleGenAI := NewGoogleGenAI (apiKey : jsstring).

Record UploadedImage := { url : jsstring; base64 : jsstring; mimeType : jsstring }.

Record Variant := { id : jsstring; uri : jsstring; label : jsstring }.

Inductive TextMode := guide_only | render_to_image.

Inductive AppStep := upload | base_generated | variants_generated.

(** One field per [useState] cell, in the order of the source, preceded by
    the memoised client [ai]. *)
Record AppState := {
  ai : option GoogleGenAI;
  uploadedImage : option UploadedImage;
  consentChecked : bool;
  style : Style;
  customStyle : jsstring;
  styleStrength : N;
  userPrompt : jsstring;
  lockCharacter : bool;
  faceConsistency : bool;
  textIntent : jsstring;
  textMode : TextMode;
  customVariantsPrompt : jsstring;
  isLoading : bool;
  loadingMessage : jsstring;
  error : option jsstring;
  appStep : AppStep;
  baseSticker : option jsstring;
  variants : list Variant
}.

(** The setters: each replaces one cell. *)
Definition with_uploadedImage (v : option UploadedImage) (s : AppState) : AppState :=
  {| ai := ai s; uploadedImage := v; consentChecked := consentChecked s;
     style := style s; customStyle := customStyle s;
     styleStrength := styleStrength s; userPrompt := userPrompt s;
     lockCharacter := lockCharacter s; faceConsistency := faceConsistency s;
     textIntent := textIntent s; textMode := textMode s;
     customVariantsPrompt := customVariantsPrompt s;
     isLoading := isLoading s; loadingMessage := loadingMessage s;
     error := error s; appStep := appStep s; baseSticker := baseSticker s;
     variants := variants s |}.

Definition with_consentChecked (v : bool) (s : AppState) : AppState :=
  {| ai := ai s; uploadedImage := uploadedImage s; consentChecked := v;
     style := style s; customStyle := customStyle s;
     styleStrength := styleStrength s; userPrompt := userPrompt s;
     lockCharacter := lockCharacter s; faceConsistency := faceConsistency s;
     textIntent := textIntent s; textMode := textMode s;
     customVariantsPrompt := customVariantsPrompt s;
     isLoading := isLoading s; loadingMessage := loadingMessage s;
     error := error s; appStep := appStep s; baseSticker := baseSticker s;
     variants := variants s |}.

Definition with_style (v : Style) (s : AppState) : AppState :=
  {| ai := ai s; uploadedImage := uploadedImage s;
     consentChecked := consentChecked s; style := v;
     customStyle := customStyle s; styleStrength := styleStrength s;
     userPrompt := userPrompt s; lockCharacter := lockCharacter s;
     faceConsistency := faceConsistency s; textIntent := textIntent s;
     textMode := textMode s; customVariantsPrompt := customVariantsPrompt s;
     isLoading := isLoading s; loadingMessage := loadingMessage s;
     error := error s; appStep := appStep s; baseSticker := baseSticker s;
     variants := variants s |}.

Definition with_customStyle (v : jsstring) (s : AppState) : AppState :=
  {| ai := ai s; uploadedImage := uploadedImage s;
     consentChecked := consentChecked s; style := style s; customStyle := v;
     styleStrength := styleStrength s; userPrompt := userPrompt s;
     lockCharacter := lockCharacter s; faceConsistency := faceConsistency s;
     textIntent := textIntent s; textMode := textMode s;
     customVariantsPrompt := customVariantsPrompt s;
     isLoading := isLoading s; loadingMessage := loadingMessage s;
     error := error s; appStep := appStep s; baseSticker := baseSticker s;
     variants := variants s |}.

Definition with_styleStrength (v : N) (s : AppState) : AppState :=
  {| ai := ai s; uploadedImage := uploadedImage s;
     consentChecked := consentChecked s; style := style s;
     customStyle := customStyle s; styleStrength := v;
     userPrompt := userPrompt s; lockCharacter := lockCharacter s;
     faceConsistency := faceConsistency s; textIntent := textIntent s;
     textMode := textMode s; customVariantsPrompt := customVariantsPrompt s;
     isLoading := isLoading s; loadingMessage := loadingMessage s;
     error := error s; appStep := appStep s; baseSticker := baseSticker s;
     variants := variants s |}.

Definition with_userPrompt (v : jsstring) (s : AppState) : AppState :=
  {| ai := ai s; uploadedImage := uploadedImage s;
     consentChecked := consentChecked s; style := style s;
     customStyle := customStyle s; styleStrength := styleStrength s;
     userPrompt := v; lockCharacter := lockCharacter s;
     faceConsistency := faceConsistency s; textIntent := textIntent s;
     textMode := textMode s; customVariantsPrompt := customVariantsPrompt s;
     isLoading := isLoading s; loadingMessage := loadingMessage s;
     error := error s; appStep := appStep s; baseSticker := baseSticker s;
     variants := variants s |}.

Definition with_lockCharacter (v : bool) (s : AppState) : AppState :=
  {| ai := ai s; uploadedImage := uploadedImage s;
     consentChecked := consentChecked s; style := style s;
     customStyle := customStyle s; styleStrength := styleStrength s;
     userPrompt := userPrompt s; lockCharacter := v;
     faceConsistency := faceConsistency s; textIntent := textIntent s;
     textMode := textMode s; customVariantsPrompt := customVariantsPrompt s;
     isLoading := isLoading s; loadingMessage := loadingMessage s;
     error := error s; appStep := appStep s; baseSticker := baseSticker s;
     variants := variants s |}.

Definition with_faceConsistency (v : bool) (s : AppState) : AppState :=
  {| ai := ai s; uploadedImage := uploadedImage s;
     consentChecked := consentChecked s; style := style s;
     customStyle := customStyle s; styleStrength := styleStrength s;
     userPrompt := userPrompt s; lockCharacter := lockCharacter s;
     faceConsistency := v; textIntent := textIntent s;
     textMode := textMode s; customVariantsPrompt := customVariantsPrompt s;
     isLoading := isLoading s; loadingMessage := loadingMessage s;
     error := error s; appStep := appStep s; baseSticker := baseSticker s;
     variants := variants s |}.

Definition with_customVariantsPrompt (v : jsstring) (s : AppState) : AppState :=
  {| ai := ai s; uploadedImage := uploadedImage s;
     consentChecked := consentChecked s; style := style s;
     customStyle := customStyle s; styleStrength := styleStrength s;
     userPrompt := userPrompt s; lockCharacter := lockCharacter s;
     faceConsistency := faceConsistency s; textIntent := textIntent s;
     textMode := textMode s; customVariantsPrompt := v;
     isLoading := isLoading s; loadingMessage := loadingMessage s;
     error := error s; appStep := appStep s; baseSticker := baseSticker s;
     variants := variants s |}.

Definition with_isLoading (v : bool) (s : AppState) : AppState :=
  {| ai := ai s; uploadedImage := uploadedImage s;
     consentChecked := consentChecked s; style := style s;
     customStyle := customStyle s; styleStrength := styleStrength s;
     userPrompt := userPrompt s; lockCharacter := lockCharacter s;
     faceConsistency := faceConsistency s; textIntent := textIntent s;
     textMode := textMode s; customVariantsPrompt := customVariantsPrompt s;
     isLoading := v; loadingMessage := loadingMessage s; error := error s;
     appStep := appStep s; baseSticker := baseSticker s;
     variants := variants s |}.

Definition with_loadingMessage (v : jsstring) (s : AppState) : AppState :=
  {| ai := ai s; uploadedImage := uploadedImage s;
     consentChecked := consentChecked s; style := style s;
     customStyle := customStyle s; styleStrength := styleStrength s;
     userPrompt := userPrompt s; lockCharacter := lockCharacter s;
     faceConsistency := faceConsistency s; textIntent := textIntent s;
     textMode := textMode s; customVariantsPrompt := customVariantsPrompt s;
     isLoading := isLoading s; loadingMessage := v; error := error s;
     appStep := appStep s; baseSticker := baseSticker s;
     variants := variants s |}.

Definition with_error (v : option jsstring) (s : AppState) : AppState :=
  {| ai := ai s; uploadedImage := uploadedImage s;
     consentChecked := consentChecked s; style := style s;
     customStyle := customStyle s; styleStrength := styleStrength s;
     userPrompt := userPrompt s; lockCharacter := lockCharacter s;
     faceConsistency := faceConsistency s; textIntent := textIntent s;
     textMode := textMode s; customVariantsPrompt := customVariantsPrompt s;
     isLoading := isLoading s; loadingMessage := loadingMessage s;
     error := v; appStep := appStep s; baseSticker := baseSticker s;
     variants := variants s |}.

Definition with_appStep (v : AppStep) (s : AppState) : AppState :=
  {| ai := ai s; uploadedImage := uploadedImage s;
     consentChecked := consentChecked s; style := style s;
     customStyle := customStyle s; styleStrength := styleStrength s;
     userPrompt := userPrompt s; lockCharacter := lockCharacter s;
     faceConsistency := faceConsistency s; textIntent := textIntent s;
     textMode := textMode s; customVariantsPrompt := customVariantsPrompt s;
     isLoading := isLoading s; loadingMessage := loadingMessage s;
     error := error s; appStep := v; baseSticker := baseSticker s;
     variants := variants s |}.

Definition with_baseSticker (v : option jsstring) (s : AppState) : AppState :=
  {| ai := ai s; uploadedImage := uploadedImage s;
     consentChecked := consentChecked s; style := style s;
     customStyle := customStyle s; styleStrength := styleStrength s;
     userPrompt := userPrompt s; lockCharacter := lockCharacter s;
     faceConsistency := faceConsistency s; textIntent := textIntent s;
     textMode := textMode s; customVariantsPrompt := customVariantsPrompt s;
     isLoading := isLoading s; loadingMessage := loadingMessage s;
     error := error s; appStep := appStep s; baseSticker := v;
     variants := variants s |}.

Definition with_variants (v : list Variant) (s : AppState) : AppState :=
  {| ai := ai s; uploadedImage := uploadedImage s;
     consentChecked := consentChecked s; style := style s;
     customStyle := customStyle s; styleStrength := styleStrength s;
     userPrompt := userPrompt s; lockCharacter := lockCharacter s;
     faceConsistency := faceConsistency s; textIntent := textIntent s;
     textMode := textMode s; customVariantsPrompt := customVariantsPrompt s;
     isLoading := isLoading s; loadingMessage := loadingMessage s;
     error := error s; appStep := appStep s; baseSticker := baseSticker s;
     variants := v |}.

(** The state of a freshly mounted [App]: the initial value of every cell.
    Without an API key the memoised client is [null] and the start-up
    error is set. *)
Definition initialState (apiKey : jsstring) : AppState :=
  {| ai := if truthy apiKey then Some (NewGoogleGenAI apiKey) else None;
     uploadedImage := None;
     consentChecked := false;
     style := cute;
     customStyle := lit "";
     styleStrength := 70;
     userPrompt := lit "";
     lockCharacter := true;
     faceConsistency := false;
     textIntent := lit "";
     textMode := guide_only;
     customVariantsPrompt :=
       lit "yes, no, ok, 生氣, 不要, 不可以, 考試100分, 敲木魚";
     isLoading := false;
     loadingMessage := lit "";
     error := if truthy apiKey then None
              else Some (lit "無法初始化 AI 服務：缺少 API 金鑰。");
     appStep := upload;
     baseSticker := None;
     variants := [] |}.

(* ===================================================================== *)
(** ** The outside world and the handler monad *)
(* ===================================================================== *)

(** A download started through a temporary link: the file name and what the
    link points to (a data URI, or the text behind a blob URL). *)
Record Download := { filename : jsstring; payload : jsstring }.

(** The world records the requests sent to the service, oldest first, and
    the downloads started. *)
Record World := { sent : list Genai.Request; downloads : list Download }.

Record Sys := { page : AppState; world : World }.

Definition M (A : Type) : Type := Sys -> A * Sys.

Definition ret {A} (a : A) : M A := fun σ => (a, σ).

Definition bind {A B} (c : M A) (k : A -> M B) : M B :=
  fun σ => let (a, σ') := c σ in k a σ'.

Declare Scope handler_scope.
Delimit Scope handler_scope with handler.
Notation "x <- c ;; k" := (bind c (fun x => k))
  (at level 61, c at next level, right associativity) : handler_scope.
Notation "c ;; k" := (bind c (fun _ => k))
  (at level 61, right associativity) : handler_scope.
Open Scope handler_scope.

Definition exec {A} (c : M A) (σ : Sys) : Sys := snd (c σ).

(** A state setter applied to the live state. *)
Definition setState (f : AppState -> AppState) : M unit :=
  fun σ => (tt, {| page := f (page σ); world := world σ |}).

Definition setUploadedImage v := setState (with_uploadedImage v).
Definition setConsentChecked v := setState (with_consentChecked v).
Definition setStyle v := setState (with_style v).
Definition setCustomStyle v := setState (with_customStyle v).
Definition setStyleStrength v := setState (with_styleStrength v).
Definition setUserPrompt v := setState (with_userPrompt v).
Definition setLockCharacter v := setState (with_lockCharacter v).
Definition setFaceConsistency v := setState (with_faceConsistency v).
Definition setCustomVariantsPrompt v := setState (with_customVariantsPrompt v).
Definition setIsLoading v := setState (with_isLoading v).
Definition setLoadingMessage v := setState (with_loadingMessage v).
Definition setError v := setState (with_error v).
Definition setAppStep v := setState (with_appStep v).
Definition setBaseSticker v := setState (with_baseSticker v).
Definition setVariants v := setState (with_variants v).

(** [downloadDataUrl]: the temporary link is created, clicked and removed. *)
Definition downloadDataUrl (dataUrl filename : jsstring) : M unit :=
  fun σ =>
    (tt, {| page := page σ;
            world := {| sent := sent (world σ);
                        downloads := downloads (world σ)
                                     ++ [{| filename := filename;
                                            payload := dataUrl |}] |} |}).

(* ===================================================================== *)
(** ** Prompt construction *)
(* ===================================================================== *)

Definition dquote : N := 34.

(** A value interpolated between double quotes in a template literal. *)
Definition quoted (s : jsstring) : jsstring := dquote :: s ++ [dquote].

(** [style === 'custom' ? customStyle : STYLES[style]] *)
Definition stylePrompt (s : AppState) : jsstring :=
  if Style_eqb (style s) custom then customStyle s else STYLES (style s).

Definition lockClause (s : AppState) : jsstring :=
  if lockCharacter s then lit "Maintain character consistency." else lit "".

Definition faceClause (s : AppState) : jsstring :=
  if faceConsistency s then lit "Pay close attention to face consistency."
  else lit "".

(** The template literal of [handleGenerateBase]. *)
Definition basePrompt (s : AppState) : jsstring :=
  lit "Generate a sticker with a transparent background. The subject should be based on the provided image, but rendered in a "
  ++ quoted (stylePrompt s) ++ lit " style. "
  ++ (if truthy (userPrompt s)
      then lit "Incorporate this description: " ++ quoted (userPrompt s) ++ lit "."
      else lit "")
  ++ lit " Style strength should be around " ++ of_number (styleStrength s)
  ++ lit "%. "
  ++ lockClause s ++ lit " " ++ faceClause s.

(** The template literal of the loop of [generateVariants]. *)
Definition variantPrompt (s : AppState) (action : jsstring) : jsstring :=
  lit "Based on the character in the image, create a sticker of them showing the emotion or action: "
  ++ quoted action ++ lit ". The style should be " ++ quoted (stylePrompt s)
  ++ lit " with a transparent background. "
  ++ (if truthy (userPrompt s)
      then lit "Incorporate this general theme: " ++ quoted (userPrompt s) ++ lit "."
      else lit "")
  ++ lit " " ++ lockClause s ++ lit " " ++ faceClause s.

(* ===================================================================== *)
(** ** The generation client and the handlers *)
(* ===================================================================== *)

(** [if (result)] on a [string | null]. *)
Definition ifTruthy (result : option jsstring) : option jsstring :=
  match result with
  | Some r => if truthy r then Some r else None
  | None => None
  end.

(** [response.candidates?.[0]?.content?.parts ?? []] *)
Definition responseParts (response : Genai.Response) : list Genai.Part :=
  match Genai.candidates response with
  | Some (c0 :: _) =>
    match Genai.content c0 with
    | Some c =>
      match Genai.parts c with
      | Some ps => ps
      | None => []
      end
    | None => []
    end
  | _ => []
  end.

(** The [for] loop over the parts: the data URI of the first part that has
    [inlineData], if there is one. *)
Fixpoint firstInlineImage (ps : list Genai.Part) : option jsstring :=
  match ps with
  | [] => None
  | part :: rest =>
    match Genai.inlineData part with
    | Some b =>
      Some (lit "data:" ++ Genai.mimeType b ++ lit ";base64," ++ Genai.data b)
    | None => firstInlineImage rest
    end
  end.

(** [err instanceof Error ? err.message : '未知錯誤'] *)
Definition errorText (err : Genai.Thrown) : jsstring :=
  match err with
  | Genai.ErrorObject message => message
  | Genai.NotAnError => lit "未知錯誤"
  end.

Definition generationFailed (err : Genai.Thrown) : jsstring :=
  lit "圖片生成失敗: " ++ errorText err.

(** What the [try] block of [generateImage] throws when no part of the
    response carries an image. *)
Definition noImageReturned : Genai.Thrown :=
  Genai.ErrorObject (lit "API 未返回圖片。").

Definition mkRequest (image : UploadedImage) (promptText : jsstring)
  : Genai.Request :=
  {| Genai.model := API_MODEL;
     Genai.contents :=
       [ {| Genai.inlineData :=
              Some {| Genai.data := base64 image;
                      Genai.mimeType := mimeType image |};
            Genai.text := None |};
         {| Genai.inlineData := None; Genai.text := Some promptText |} ];
     Genai.responseModalities := [Genai.IMAGE; Genai.TEXT] |}.

Section Handlers.

(** The service: the outcome of the call made after [n] earlier calls, as a
    function of [n] and of the request. *)
Variable service : nat -> Genai.Request -> Genai.Outcome.

(** [await ai.models.generateContent(request)] *)
Definition generateContent (request : Genai.Request) : M Genai.Outcome :=
  fun σ =>
    (service (List.length (sent (world σ))) request,
     {| page := page σ;
        world := {| sent := sent (world σ) ++ [request];
                    downloads := downloads (world σ) |} |}).

(** [generateImage], with the [ai] and [uploadedImage] of the render [s]
    that created it. *)
Definition generateImage (s : AppState) (promptText : jsstring)
  : M (option jsstring) :=
  match ai s, uploadedImage s with
  | Some _, Some image =>
    outcome <- generateContent (mkRequest image promptText) ;;
    match outcome with
    | Genai.Resolved response =>
      match firstInlineImage (responseParts response) with
      | Some dataUri => ret (Some dataUri)
      | None =>
        setError (Some (generationFailed noImageReturned)) ;;
        ret None
      end
    | Genai.Rejected err =>
      setError (Some (generationFailed err)) ;;
      ret None
    end
  | _, _ =>
    setError (Some (lit "AI 服務未就緒或未上傳圖片。")) ;;
    ret None
  end.

Definition handleGenerateBase (s : AppState) : M unit :=
  setError None ;;
  setIsLoading true ;;
  setLoadingMessage (lit "正在生成您的主體貼圖...") ;;
  result <- generateImage s (basePrompt s) ;;
  match ifTruthy result with
  | Some r => setBaseSticker (Some r) ;; setAppStep base_generated
  | None => ret tt
  end ;;
  setIsLoading false.

(** The body of the [for (const action of actions)] loop, with the local
    array [generatedVariants] as an accumulator. *)
Fixpoint variantsLoop (s : AppState) (actions : list jsstring)
    (generatedVariants : list Variant) : M (list Variant) :=
  match actions with
  | [] => ret generatedVariants
  | action :: rest =>
    setLoadingMessage (lit "正在生成變化款: " ++ action ++ lit "...") ;;
    result <- generateImage s (variantPrompt s action) ;;
    match ifTruthy result with
    | Some r =>
      variantsLoop s rest
        (generatedVariants
         ++ [{| id := lit "v"
                      ++ of_number (N.of_nat (List.length generatedVariants) + 1);
                uri := r;
                label := action |}])
    | None =>
      setError (Some (lit "生成 " ++ quoted action ++ lit " 變化款失敗。")) ;;
      variantsLoop s rest generatedVariants
    end
  end.

Definition generateVariants (s : AppState) (actions : list jsstring) : M unit :=
  setError None ;;
  setIsLoading true ;;
  setVariants [] ;;
  generatedVariants <- variantsLoop s actions [] ;;
  setVariants generatedVariants ;;
  setAppStep variants_generated ;;
  setIsLoading false.

(** [shuffled] is the array produced by sorting a copy of [RANDOM_ACTIONS]
    with the random comparator. *)
Definition handleGenerateVariants (s : AppState) (shuffled : list jsstring)
  : M unit :=
  setLoadingMessage (lit "正在生成三款隨機變化貼圖...") ;;
  let randomActions := firstn 3 shuffled in
  generateVariants s randomActions.

Definition handleGenerateCustomVariants (s : AppState) : M unit :=
  let actions := parseCustomVariants (customVariantsPrompt s) in
  match actions with
  | [] => setError (Some (lit "請輸入至少一個有效的情境。"))
  | _ :: _ =>
    setLoadingMessage (lit "正在生成自訂變化貼圖...") ;;
    generateVariants s actions
  end.

End Handlers.

Definition resetGeneration : M unit :=
  setAppStep upload ;;
  setBaseSticker None ;;
  setVariants [].

(** What [handleFileChange] gets from the file input: the object URL of the
    chosen file and the outcome of [fileToBase64] on it. *)
Inductive FileRead :=
| ReadOk (data mimeType : jsstring)
| ReadError.

Record File := { objectURL : jsstring; read : FileRead }.

(** [file] is [e.target.files?.[0]]. *)
Definition handleFileChange (file : option File) : M unit :=
  match file with
  | Some f =>
    match read f with
    | ReadOk data mimeType =>
      setUploadedImage
        (Some {| url := objectURL f; base64 := data; mimeType := mimeType |}) ;;
      setError None ;;
      resetGeneration
    | ReadError => setError (Some (lit "讀取檔案失敗，請再試一次。"))
    end
  | None => ret tt
  end.

(* ===================================================================== *)
(** ** Metadata export *)
(* ===================================================================== *)

Module Json.

(** The values found in the metadata object. *)
Inductive Value :=
| Undefined
| Str (s : jsstring)
| Num (n : N)
| Boolean (b : bool).

(** An object literal: its properties in insertion order. *)
Definition Object := list (jsstring * Value).

Definition hexDigit (d : N) : N := if d <? 10 then 48 + d else 87 + d.

(** [UnicodeEscape]: a backslash, [u] and four lower-case hex digits. *)
Definition unicodeEscape (c : N) : jsstring :=
  [92; 117; hexDigit (N.shiftr c 12 mod 16); hexDigit (N.shiftr c 8 mod 16);
   hexDigit (N.shiftr c 4 mod 16); hexDigit (c mod 16)].

Definition isLeadSurrogate (c : N) : bool := (55296 <=? c) && (c <=? 56319).
Definition isTrailSurrogate (c : N) : bool := (56320 <=? c) && (c <=? 57343).

(** One code unit that is not part of a surrogate pair. *)
Definition escapeUnit (c : N) : jsstring :=
  if c =? 8 then [92; 98]
  else if c =? 9 then [92; 116]
  else if c =? 10 then [92; 110]
  else if c =? 12 then [92; 102]
  else if c =? 13 then [92; 114]
  else if c =? 34 then [92; 34]
  else if c =? 92 then [92; 92]
  else if (c <? 32) || isLeadSurrogate c || isTrailSurrogate c
       then unicodeEscape c
  else [c].

Fixpoint quoteBody (s : jsstring) : jsstring :=
  match s with
  | [] => []
  | c :: r =>
    match r with
    | d :: r' =>
      if isLeadSurrogate c && isTrailSurrogate d
      then c :: d :: quoteBody r'
      else escapeUnit c ++ quoteBody r
    | [] => escapeUnit c
    end
  end.

(** [QuoteJSONString] *)
Definition quoteJSONString (s : jsstring) : jsstring :=
  dquote :: quoteBody s ++ [dquote].

(** [SerializeJSONProperty] on a primitive: [None] for [undefined]. *)
Definition serializeValue (v : Value) : option jsstring :=
  match v with
  | Undefined => None
  | Str s => Some (quoteJSONString s)
  | Num n => Some (of_number n)
  | Boolean true => Some (lit "true")
  | Boolean false => Some (lit "false")
  end.

(** The members [SerializeJSONObject] emits: a property whose value is
    [undefined] is skipped. *)
Fixpoint members (o : Object) : list (jsstring * jsstring) :=
  match o with
  | [] => []
  | (k, v) :: rest =>
    match serializeValue v with
    | Some text => (k, text) :: members rest
    | None => members rest
    end
  end.

Definition memberLine (gap : jsstring) (m : jsstring * jsstring) : jsstring :=
  gap ++ quoteJSONString (fst m) ++ lit ": " ++ snd m.

Fixpoint joinLines (ls : list jsstring) : jsstring :=
  match ls with
  | [] => []
  | [l] => l
  | l :: rest => l ++ lit "," ++ [10] ++ joinLines rest
  end.

(** The text of an object with the members [ms], indented by two spaces. *)
Definition render (ms : list (jsstring * jsstring)) : jsstring :=
  match ms with
  | [] => lit "{}"
  | _ :: _ => lit "{" ++ [10] ++ joinLines (map (memberLine (lit "  ")) ms)
              ++ [10] ++ lit "}"
  end.

(** [JSON.stringify(o, null, 2)] on an object of primitives. *)
Definition stringify2 (o : Object) : jsstring := render (members o).

(** The value of a field of the serialized document: the serialized text
    of the first member with that key. *)
Fixpoint field (key : jsstring) (ms : list (jsstring * jsstring))
  : option jsstring :=
  match ms with
  | [] => None
  | (k, text) :: rest => if Js.eqb k key then Some text else field key rest
  end.

End Json.

Definition textModeKey (m : TextMode) : jsstring :=
  match m with
  | guide_only => lit "guide_only"
  | render_to_image => lit "render_to_image"
  end.

(** The object literal [metadata] of [handleExportMetadata]; [timestamp] is
    [new Date().toISOString()]. *)
Definition metadata (s : AppState) (timestamp : jsstring) : Json.Object :=
  [ (lit "style", Json.Str (styleKey (style s)));
    (lit "customStyle",
     if Style_eqb (style s) custom then Json.Str (customStyle s)
     else Json.Undefined);
    (lit "styleStrength", Json.Num (styleStrength s));
    (lit "userPrompt", Json.Str (userPrompt s));
    (lit "lockCharacter", Json.Boolean (lockCharacter s));
    (lit "faceConsistency", Json.Boolean (faceConsistency s));
    (lit "textIntent", Json.Str (textIntent s));
    (lit "textMode", Json.Str (textModeKey (textMode s)));
    (lit "timestamp", Json.Str timestamp);
    (lit "model", Json.Str API_MODEL) ].

(** [downloadJson]: the text goes into a blob, and the blob URL is handed to
    [downloadDataUrl]; the download is recorded with the text itself. *)
Definition downloadJson (data : Json.Object) (filename : jsstring) : M unit :=
  let jsonStr := Json.stringify2 data in
  downloadDataUrl jsonStr filename.

Definition handleExportMetadata (s : AppState) (timestamp : jsstring) : M unit :=
  downloadJson (metadata s timestamp) (lit "metadata.json").

(** The fields of the exported document. *)
Definition exportedField (s : AppState) (timestamp key : jsstring)
  : option jsstring :=
  Json.field key (Json.members (metadata s timestamp)).

(* ===================================================================== *)
(** ** The rendered interface: which controls exist and what they call *)
(* ===================================================================== *)

(** [!uploadedImage || !consentChecked || isLoading] *)
Definition isGenerateButtonDisabled (s : AppState) : bool :=
  match uploadedImage s with Some _ => false | None => true end
  || negb (consentChecked s) || isLoading s.

(** Truthiness of [baseSticker]. *)
Definition hasBaseSticker (s : AppState) : bool :=
  match baseSticker s with Some b => truthy b | None => false end.

(** The results panel shows the gallery and the confirmation areas only in
    the last branch of [isLoading ? ... : !baseSticker ? ... : ...]. *)
Definition galleryShown (s : AppState) : bool :=
  negb (isLoading s) && hasBaseSticker s.

(** The user actions: one constructor per control of the page.  The random
    comparator of [handleGenerateVariants] is represented by the order
    [shuffled] it leaves [RANDOM_ACTIONS] in, the clock by the [timestamp]
    it returns. *)
Inductive Event :=
| ChooseFile (file : option File)
| ToggleConsent (checked : bool)
| SelectStyle (value : Style)
| TypeCustomStyle (value : jsstring)
| MoveStrength (value : N)
| ToggleLockCharacter (checked : bool)
| ToggleFaceConsistency (checked : bool)
| TypeUserPrompt (value : jsstring)
| ClickGenerateBase
| ClickExportZip
| ClickExportMetadata (timestamp : jsstring)
| ClickDownloadBase
| ClickDownloadVariant (v : Variant)
| ClickRegenerate
| ClickConfirmVariants (shuffled : list jsstring)
| ClickResample (shuffled : list jsstring)
| TypeCustomVariants (value : jsstring)
| ClickCustomVariants.

(** [available s e]: in the render of state [s] the control of [e] is
    present and not disabled. *)
Definition available (s : AppState) (e : Event) : Prop :=
  match e with
  | ChooseFile _ | ToggleConsent _ | SelectStyle _ | ToggleLockCharacter _
  | ToggleFaceConsistency _ | TypeUserPrompt _ => True
  | TypeCustomStyle _ => style s = custom
  | MoveStrength value => (value <= 100)%N
  | ClickGenerateBase => isGenerateButtonDisabled s = false
  | ClickExportZip =>
    appStep s <> upload
    /\ isLoading s
       || (Nat.eqb (List.length (variants s)) 0 && negb (hasBaseSticker s))
       = false
  | ClickExportMetadata _ => appStep s <> upload /\ isLoading s = false
  | ClickDownloadBase => galleryShown s = true
  | ClickDownloadVariant v => galleryShown s = true /\ In v (variants s)
  | ClickRegenerate => galleryShown s = true /\ appStep s = base_generated
  | ClickConfirmVariants shuffled =>
    galleryShown s = true /\ appStep s = base_generated
    /\ Permutation shuffled RANDOM_ACTIONS
  | ClickResample shuffled =>
    galleryShown s = true /\ appStep s = variants_generated
    /\ isLoading s = false /\ Permutation shuffled RANDOM_ACTIONS
  | TypeCustomVariants _ =>
    galleryShown s = true /\ appStep s = variants_generated
  | ClickCustomVariants =>
    galleryShown s = true /\ appStep s = variants_generated
    /\ isLoading s || negb (truthy (trim (customVariantsPrompt s))) = false
  end.

Section Interface.

Variable service : nat -> Genai.Request -> Genai.Outcome.

(** The handler a control calls, created by the render of state [s]. *)
Definition dispatch (s : AppState) (e : Event) : M unit :=
  match e with
  | ChooseFile file => handleFileChange file
  | ToggleConsent checked => setConsentChecked checked
  | SelectStyle value => setStyle value
  | TypeCustomStyle value => setCustomStyle value
  | MoveStrength value => setStyleStrength value
  | ToggleLockCharacter checked => setLockCharacter checked
  | ToggleFaceConsistency checked => setFaceConsistency checked
  | TypeUserPrompt value => setUserPrompt value
  | ClickGenerateBase => handleGenerateBase service s
  | ClickExportZip => ret tt
  | ClickExportMetadata timestamp => handleExportMetadata s timestamp
  | ClickDownloadBase =>
    match baseSticker s with
    | Some b => downloadDataUrl b (lit "base_sticker.png")
    | None => ret tt
    end
  | ClickDownloadVariant v =>
    downloadDataUrl (uri v) (label v ++ lit "_sticker.png")
  | ClickRegenerate => handleGenerateBase service s
  | ClickConfirmVariants shuffled => handleGenerateVariants service s shuffled
  | ClickResample shuffled => handleGenerateVariants service s shuffled
  | TypeCustomVariants value => setCustomVariantsPrompt value
  | ClickCustomVariants => handleGenerateCustomVariants service s
  end.

(** One user action, handled to completion from the current render: the
    next action comes when the handler has returned and everything it
    awaited has arrived.  Handlers that overlap are the subject of [move]
    and [interleave]. *)
Definition step (e : Event) (σ : Sys) : Sys := exec (dispatch (page σ) e) σ.

Fixpoint run (es : list Event) (σ : Sys) : Sys :=
  match es with
  | [] => σ
  | e :: rest => run rest (step e σ)
  end.

(** Every action of the sequence is offered by the render it is made in. *)
Fixpoint allowed (es : list Event) (σ : Sys) : Prop :=
  match es with
  | [] => True
  | e :: rest => available (page σ) e /\ allowed rest (step e σ)
  end.

End Interface.

Definition start (apiKey : jsstring) : Sys :=
  {| page := initialState apiKey; world := {| sent := []; downloads := [] |} |}.

(* ===================================================================== *)
(** ** Vocabulary of the statements *)
(* ===================================================================== *)

Definition allWhiteSpace (s : jsstring) : Prop :=
  Forall (fun c => isWhiteSpace c = true) s.

(** The first unit of [e], if there is one, is not white space. *)
Definition startsClean (e : jsstring) : Prop :=
  match e with
  | c :: _ => isWhiteSpace c = false
  | [] => True
  end.

(** [entry] is [piece] without the white space at its two ends. *)
Definition Trimmed (piece entry : jsstring) : Prop :=
  exists l r,
    piece = l ++ entry ++ r /\ allWhiteSpace l /\ allWhiteSpace r
    /\ startsClean entry /\ startsClean (rev entry).

(** [pieces] are the comma-separated entries of [text]. *)
Definition CommaSeparated (text : jsstring) (pieces : list jsstring) : Prop :=
  join comma pieces = text /\ pieces <> []
  /\ Forall (fun p => ~ In comma p) pieces.

(** [b] is the inline data of the first part of [ps] that has any. *)
Definition FirstImage (ps : list Genai.Part) (b : Genai.Blob) : Prop :=
  exists before part rest,
    ps = before ++ part :: rest
    /\ Forall (fun p => Genai.inlineData p = None) before
    /\ Genai.inlineData part = Some b.

Definition NoImage (ps : list Genai.Part) : Prop :=
  Forall (fun p => Genai.inlineData p = None) ps.

Definition dataUri (b : Genai.Blob) : jsstring :=
  lit "data:" ++ Genai.mimeType b ++ lit ";base64," ++ Genai.data b.

(** The image a render [s] can send: both the client and the upload are
    there. *)
Definition ready (s : AppState) : option UploadedImage :=
  match ai s, uploadedImage s with
  | Some _, Some image => Some image
  | _, _ => None
  end.

(** The image carried by an outcome of the service, if any. *)
Definition imageOf (o : Genai.Outcome) : option jsstring :=
  match o with
  | Genai.Resolved response => firstInlineImage (responseParts response)
  | Genai.Rejected _ => None
  end.

Section Attempts.

Variable service : nat -> Genai.Request -> Genai.Outcome.
Variable s : AppState.

(** The requests a batch of captions sends: one per caption, in order, when
    the render is ready, and none otherwise. *)
Definition requestsFor (actions : list jsstring) : list Genai.Request :=
  match ready s with
  | Some image => map (fun a => mkRequest image (variantPrompt s a)) actions
  | None => []
  end.

(** The outcome for one caption when [n] requests were sent before it. *)
Definition attempt (n : nat) (action : jsstring) : option jsstring :=
  match ready s with
  | Some image => imageOf (service n (mkRequest image (variantPrompt s action)))
  | None => None
  end.

(** The captions of a batch with their outcomes, the first one being sent
    after [n] earlier requests. *)
Fixpoint attempts (n : nat) (actions : list jsstring)
  : list (jsstring * option jsstring) :=
  match actions with
  | [] => []
  | a :: rest => (a, attempt n a) :: attempts (S n) rest
  end.

End Attempts.

(** The successful attempts, in order, as (caption, image). *)
Fixpoint successes (tries : list (jsstring * option jsstring))
  : list (jsstring * jsstring) :=
  match tries with
  | [] => []
  | (a, Some u) :: rest => (a, u) :: successes rest
  | (_, None) :: rest => successes rest
  end.

(** The captions of the failed attempts, in order. *)
Fixpoint failures (tries : list (jsstring * option jsstring)) : list jsstring :=
  match tries with
  | [] => []
  | (a, None) :: rest => a :: failures rest
  | (_, Some _) :: rest => failures rest
  end.

(** The caption of the last failed attempt. *)
Fixpoint lastFailure (tries : list (jsstring * option jsstring))
  : option jsstring :=
  match tries with
  | [] => None
  | (a, r) :: rest =>
    match lastFailure rest with
    | Some b => Some b
    | None => match r with None => Some a | Some _ => None end
    end
  end.

(** Variants numbered [v(k+1)], [v(k+2)], ... *)
Fixpoint numberFrom (k : nat) (l : list (jsstring * jsstring)) : list Variant :=
  match l with
  | [] => []
  | (a, u) :: rest =>
    {| id := lit "v" ++ of_number (N.of_nat k + 1); uri := u; label := a |}
      :: numberFrom (S k) rest
  end.

Definition variantFailed (action : jsstring) : jsstring :=
  lit "生成 " ++ quoted action ++ lit " 變化款失敗。".

(** The world after one more request. *)
Definition afterRequest (request : Genai.Request) (σ : Sys) : Sys :=
  {| page := page σ;
     world := {| sent := sent (world σ) ++ [request];
                 downloads := downloads (world σ) |} |}.

Definition afterError (message : jsstring) (σ : Sys) : Sys :=
  {| page := with_error (Some message) (page σ); world := world σ |}.

(** The loading message left by the loop over [actions]. *)
Definition lastMessage (before : jsstring) (actions : list jsstring) : jsstring :=
  fold_left (fun _ a => lit "正在生成變化款: " ++ a ++ lit "...") actions before.

Section Batch.

Variable service : nat -> Genai.Request -> Genai.Outcome.

(** The state the loop of [generateVariants] leaves behind: the requests
    are sent, the error is the one of the last failed caption, the loading
    message the one of the last caption. *)
Definition afterBatch (s : AppState) (actions : list jsstring) (σ : Sys) : Sys :=
  let tries := attempts service s (List.length (sent (world σ))) actions in
  {| page :=
       with_error
         (match lastFailure tries with
          | Some a => Some (variantFailed a)
          | None => error (page σ)
          end)
         (with_loadingMessage (lastMessage (loadingMessage (page σ)) actions)
                              (page σ));
     world := {| sent := sent (world σ) ++ requestsFor s actions;
                 downloads := downloads (world σ) |} |}.

End Batch.

(** The parts of the two prompt templates. *)
Definition descriptionClause (intro description : jsstring) : jsstring :=
  if truthy description then intro ++ quoted description ++ lit "." else lit "".

Definition strengthSentence (strength : N) : jsstring :=
  lit " Style strength should be around " ++ of_number strength ++ lit "%. ".

Definition flagClauses (s : AppState) : jsstring :=
  lockClause s ++ lit " " ++ faceClause s.

Definition baseOpening (styleLabel : jsstring) : jsstring :=
  lit "Generate a sticker with a transparent background. The subject should be based on the provided image, but rendered in a "
  ++ quoted styleLabel ++ lit " style. ".

Definition variantOpening (action styleLabel : jsstring) : jsstring :=
  lit "Based on the character in the image, create a sticker of them showing the emotion or action: "
  ++ quoted action ++ lit ". The style should be " ++ quoted styleLabel
  ++ lit " with a transparent background. ".

(** One line of the exported document. *)
Definition docLine (key text : jsstring) : jsstring :=
  lit "  " ++ quoted key ++ lit ": " ++ text.

(** The image the base generation gets from the service, when the render
    [s] is ready and [σ] is the world it is started in. *)
Definition baseOutcome (service : nat -> Genai.Request -> Genai.Outcome)
    (s : AppState) (σ : Sys) : option jsstring :=
  match ready s with
  | Some image =>
    imageOf (service (List.length (sent (world σ)))
                     (mkRequest image (basePrompt s)))
  | None => None
  end.

(** *** Sample inputs *)

Definition textPart (t : jsstring) : Genai.Part :=
  {| Genai.inlineData := None; Genai.text := Some t |}.

Definition imagePart (mime payload : jsstring) : Genai.Part :=
  {| Genai.inlineData := Some {| Genai.data := payload; Genai.mimeType := mime |};
     Genai.text := None |}.

Definition responseWith (ps : list Genai.Part) : Genai.Response :=
  {| Genai.candidates :=
       Some [ {| Genai.content := Some {| Genai.parts := Some ps |} |} ] |}.

(** A response with a text part followed by two image parts. *)
Definition pngResponse : Genai.Response :=
  responseWith [ textPart (lit "Here is your sticker");
                 imagePart (lit "image/png") (lit "iVBORw0KGgo=");
                 imagePart (lit "image/webp") (lit "UklGRg==") ].

Definition textOnlyResponse : Genai.Response :=
  responseWith [ textPart (lit "I cannot draw that") ].

(** A service that always answers with [pngResponse]. *)
Definition alwaysPng (n : nat) (request : Genai.Request) : Genai.Outcome :=
  Genai.Resolved pngResponse.

(** A service whose third call (after two earlier ones) is rejected. *)
Definition thirdCallRejected (n : nat) (request : Genai.Request)
  : Genai.Outcome :=
  match n with
  | 2%nat => Genai.Rejected (Genai.ErrorObject (lit "quota exceeded"))
  | _ => Genai.Resolved pngResponse
  end.

(** A service that answers the first call and rejects every later one. *)
Definition onlyFirstCall (n : nat) (request : Genai.Request) : Genai.Outcome :=
  match n with
  | O => Genai.Resolved pngResponse
  | _ => Genai.Rejected (Genai.ErrorObject (lit "quota exceeded"))
  end.

Definition alwaysTextOnly (n : nat) (request : Genai.Request) : Genai.Outcome :=
  Genai.Resolved textOnlyResponse.

(** A service whose calls fail with the very message the client uses for a
    response without image. *)
Definition alwaysRejectedNoImage (n : nat) (request : Genai.Request)
  : Genai.Outcome :=
  Genai.Rejected noImageReturned.

Definition photo : File :=
  {| objectURL := lit "blob:photo";
     read := ReadOk (lit "/9j/4AAQSkZJRg==") (lit "image/jpeg") |}.

(** The page after a photo was chosen and the consent box ticked. *)
Definition prepared : list Event := [ChooseFile (Some photo); ToggleConsent true].

Definition apiKey0 : jsstring := lit "test-key".

(** The initial settings with the style set to [custom] and the custom
    style to [ink wash]. *)
Definition inkWash : AppState :=
  with_customStyle (lit "ink wash") (with_style custom (initialState apiKey0)).

(** The custom style typed, then a preset selected again. *)
Definition inkWashThenMosaic : AppState := with_style mosaic inkWash.

Definition noon : jsstring := lit "2025-06-01T12:00:00.000Z".

(** The page after the base sticker was generated, with the service
    [thirdCallRejected]. *)
Definition baseDone : Sys :=
  run thirdCallRejected (prepared ++ [ClickGenerateBase]) (start apiKey0).

Definition yesNoOk : list jsstring := [lit "yes"; lit "no"; lit "ok"].

(** Photo, consent, base sticker, random variants. *)
Definition upToVariants : list Event :=
  prepared ++ [ClickGenerateBase; ClickConfirmVariants RANDOM_ACTIONS].

(** Photo, consent, base sticker, and the consent box cleared again. *)
Definition consentWithdrawn : list Event :=
  prepared ++ [ClickGenerateBase; ToggleConsent false].

(** A render whose custom-variants text holds separators only. *)
Definition onlySeparators : AppState :=
  with_customVariantsPrompt (lit " , ,") (page baseDone).

(** A service whose calls throw something that is not an [Error]. *)
Definition alwaysThrowsValue (n : nat) (request : Genai.Request)
  : Genai.Outcome :=
  Genai.Rejected Genai.NotAnError.

Definition photoImage : UploadedImage :=
  {| url := lit "blob:photo"; base64 := lit "/9j/4AAQSkZJRg==";
     mimeType := lit "image/jpeg" |}.

Definition pngBlob : Genai.Blob :=
  {| Genai.data := lit "iVBORw0KGgo="; Genai.mimeType := lit "image/png" |}.

Definition somePrompt : jsstring := lit "a sticker".

(* ===================================================================== *)
(** ** Reading the chosen file: [fileToBase64] *)
(* ===================================================================== *)

Module Reader.

(** What the [FileReader] ends with: [onload] with its result, the data
    URL of the file, or [onerror]. *)
Inductive Outcome := Loaded (result : jsstring) | Failed.

(** The object [fileToBase64] resolves with.  [data] is the second element
    of the destructured array, which is [undefined] when the result has
    no comma. *)
Record Encoded := { data : option jsstring; mimeType : jsstring }.

End Reader.

Definition colon : N := 58.
Definition semicolon : N := 59.

(** The units the [.] of a regular expression does not match. *)
Definition isLineTerminator (c : N) : bool :=
  (c =? 10) || (c =? 13) || (c =? 8232) || (c =? 8233).

(** [(.*?);] matched at the start of [s]: the units before the first
    semicolon, when no line terminator comes before it. *)
Fixpoint lazyToSemicolon (s : jsstring) : option jsstring :=
  match s with
  | [] => None
  | c :: r =>
    if c =? semicolon then Some []
    else if isLineTerminator c then None
    else match lazyToSemicolon r with
         | Some g => Some (c :: g)
         | None => None
         end
  end.

(** [header.match(/:(.*?);/)?.[1]]: the group of the leftmost match. *)
Fixpoint matchColonGroup (header : jsstring) : option jsstring :=
  match header with
  | [] => None
  | c :: r =>
    if c =? colon then
      match lazyToSemicolon r with
      | Some g => Some g
      | None => matchColonGroup r
      end
    else matchColonGroup r
  end.

(** [fileToBase64]: [None] is the rejected promise. *)
Definition fileToBase64 (outcome : Reader.Outcome) : option Reader.Encoded :=
  match outcome with
  | Reader.Loaded result =>
    let pieces := split comma result in
    let header := hd [] pieces in
    let data := nth_error pieces 1 in
    let mimeType :=
      match matchColonGroup header with
      | Some g => if truthy g then g else lit "application/octet-stream"
      | None => lit "application/octet-stream"
      end in
    Some {| Reader.data := data; Reader.mimeType := mimeType |}
  | Reader.Failed => None
  end.

(** What the chosen file is to [handleFileChange].  [Usable f]: the read
    failed, or gave a result with a comma, so that [data] is a string.
    [DataUndefined fileUrl mimeType]: the result had no comma and [data] is
    [undefined]; the handler then stores an upload whose [base64] is
    [undefined], with this URL and media type, clears the error and resets
    the generation.  [UploadedImage], whose [base64] is a string, has no
    value for that upload, so [handleFileChange] is not stated for it. *)
Inductive Chosen :=
| Usable (f : File)
| DataUndefined (fileUrl mimeType : jsstring).

Definition chosenFile (fileUrl : jsstring) (outcome : Reader.Outcome)
  : Chosen :=
  match fileToBase64 outcome with
  | Some e =>
    match Reader.data e with
    | Some d =>
      Usable {| objectURL := fileUrl; read := ReadOk d (Reader.mimeType e) |}
    | None => DataUndefined fileUrl (Reader.mimeType e)
    end
  | None => Usable {| objectURL := fileUrl; read := ReadError |}
  end.

(** A unit list without the given unit. *)
Definition without (c : N) (s : jsstring) : Prop := ~ In c s.

(** A media type that can stand in a data URL: not empty, and without
    comma, semicolon or line terminator. *)
Definition plainType (mime : jsstring) : Prop :=
  mime <> [] /\ without comma mime /\ without semicolon mime
  /\ Forall (fun c => isLineTerminator c = false) mime.

(* ===================================================================== *)
(** ** More vocabulary *)
(* ===================================================================== *)

(** The cells a user sets through the form, with the client. *)
Definition settingsOf (s : AppState) :=
  (ai s, consentChecked s, style s, customStyle s, styleStrength s,
   userPrompt s, lockCharacter s, faceConsistency s, textIntent s,
   textMode s, customVariantsPrompt s).

(** The buttons, as opposed to the inputs of the form. *)
Definition isClick (e : Event) : bool :=
  match e with
  | ClickGenerateBase | ClickExportZip | ClickExportMetadata _
  | ClickDownloadBase | ClickDownloadVariant _ | ClickRegenerate
  | ClickConfirmVariants _ | ClickResample _ | ClickCustomVariants => true
  | _ => false
  end.

(** The actions that call the generation client. *)
Definition isGeneration (e : Event) : bool :=
  match e with
  | ClickGenerateBase | ClickRegenerate | ClickConfirmVariants _
  | ClickResample _ | ClickCustomVariants => true
  | _ => false
  end.

(** The identifiers [v1], ..., [vn]. *)
Definition idsUpTo (n : nat) : list jsstring :=
  map (fun k => lit "v" ++ of_number (N.of_nat k + 1)) (seq 0 n).

(** A response whose first candidate has no parts and whose second
    candidate carries an image. *)
Definition imageInSecondCandidate : Genai.Response :=
  {| Genai.candidates :=
       Some [ {| Genai.content := None |};
              {| Genai.content :=
                   Some {| Genai.parts :=
                             Some [imagePart (lit "image/png") (lit "iVBORw0KGgo=")] |} |} ] |}.

(** A caption as the parser delivers it: not empty, without comma, and
    without white space at its two ends. *)
Definition goodEntry (a : jsstring) : Prop :=
  a <> [] /\ without comma a /\ startsClean a /\ startsClean (rev a).

(** The message a failed base generation leaves. *)
Definition baseFailure (service : nat -> Genai.Request -> Genai.Outcome)
    (s : AppState) (σ : Sys) : jsstring :=
  match ready s with
  | Some image =>
    match service (List.length (sent (world σ)))
                  (mkRequest image (basePrompt s)) with
    | Genai.Resolved _ => generationFailed noImageReturned
    | Genai.Rejected err => generationFailed err
    end
  | None => lit "AI 服務未就緒或未上傳圖片。"
  end.

(** The request a base generation sends. *)
Definition baseRequests (s : AppState) : list Genai.Request :=
  match ready s with
  | Some image => [mkRequest image (basePrompt s)]
  | None => []
  end.

(** The captions of the batch an action starts, if it starts one. *)
Definition batchOf (s : AppState) (e : Event) : option (list jsstring) :=
  match e with
  | ClickConfirmVariants shuffled | ClickResample shuffled =>
    Some (firstn 3 shuffled)
  | ClickCustomVariants =>
    match parseCustomVariants (customVariantsPrompt s) with
    | [] => None
    | actions => Some actions
    end
  | _ => None
  end.

(** The variant prompt after the quoted caption, and the base prompt before
    and after the strength. *)
Definition afterCaption (s : AppState) : jsstring :=
  lit ". The style should be " ++ quoted (stylePrompt s)
  ++ lit " with a transparent background. "
  ++ (if truthy (userPrompt s)
      then lit "Incorporate this general theme: " ++ quoted (userPrompt s) ++ lit "."
      else lit "")
  ++ lit " " ++ lockClause s ++ lit " " ++ faceClause s.

Definition beforeStrength (s : AppState) : jsstring :=
  baseOpening (stylePrompt s)
  ++ descriptionClause (lit "Incorporate this description: ") (userPrompt s)
  ++ lit " Style strength should be around ".

Definition afterStrength (s : AppState) : jsstring :=
  lit "%. " ++ flagClauses s.

(** The link between the workflow state and the stored results. *)
Definition consistent (p : AppState) : Prop :=
  (appStep p = upload -> baseSticker p = None /\ variants p = [])
  /\ (appStep p <> upload -> hasBaseSticker p = true)
  /\ (hasBaseSticker p = true -> ready p <> None).

(** The variants are numbered from [v1] and there are at most 12. *)
Definition numbered (vs : list Variant) : Prop :=
  exists l, vs = numberFrom 0 l /\ (List.length l <= 12)%nat.

(** *** More sample inputs *)

Definition secondCandidateOnly (n : nat) (request : Genai.Request)
  : Genai.Outcome :=
  Genai.Resolved imageInSecondCandidate.

Definition pngDataUrl : jsstring :=
  lit "data:" ++ lit "image/png" ++ semicolon :: lit "base64"
  ++ comma :: lit "iVBORw0KGgo=".

Definition strengthMoved : list Event := prepared ++ [MoveStrength 30].

(** A download or export button. *)
Definition isDownload (e : Event) : bool :=
  match e with
  | ClickExportMetadata _ | ClickDownloadBase | ClickDownloadVariant _ => true
  | _ => false
  end.

(* ===================================================================== *)
(** ** Reading an exported document back *)
(* ===================================================================== *)

(** A reader for the JSON texts the export writes: an object whose values
    are strings, non-negative integers and booleans.  It is what the
    statements about the fields of the downloaded document go through. *)
Module JsonText.

(** JSON white space: space, line feed, carriage return, tab. *)
Definition isSpace (c : N) : bool :=
  (c =? 32) || (c =? 10) || (c =? 13) || (c =? 9).

Fixpoint skipSpace (s : jsstring) : jsstring :=
  match s with
  | [] => []
  | c :: r => if isSpace c then skipSpace r else s
  end.

Definition hexValue (c : N) : option N :=
  if (48 <=? c) && (c <=? 57) then Some (c - 48)
  else if (97 <=? c) && (c <=? 102) then Some (c - 87)
  else if (65 <=? c) && (c <=? 70) then Some (c - 55)
  else None.

(** The unit written by a two-unit escape. *)
Definition unescape (e : N) : option N :=
  if e =? 34 then Some 34
  else if e =? 92 then Some 92
  else if e =? 47 then Some 47
  else if e =? 98 then Some 8
  else if e =? 102 then Some 12
  else if e =? 110 then Some 10
  else if e =? 114 then Some 13
  else if e =? 116 then Some 9
  else None.

Definition prepend (c : N) (r : jsstring * jsstring) : jsstring * jsstring :=
  (c :: fst r, snd r).

(** The content of a string whose opening quote was read, and the text
    after its closing quote.  A raw control unit is an error. *)
Fixpoint readBody (s : jsstring) : option (jsstring * jsstring) :=
  match s with
  | [] => None
  | c :: r =>
    if c =? 34 then Some ([], r)
    else if c =? 92 then
      match r with
      | [] => None
      | e :: r1 =>
        if e =? 117 then
          match r1 with
          | h3 :: h2 :: h1 :: h0 :: r2 =>
            match hexValue h3, hexValue h2, hexValue h1, hexValue h0 with
            | Some a, Some b, Some c', Some d =>
              option_map (prepend (4096 * a + 256 * b + 16 * c' + d))
                         (readBody r2)
            | _, _, _, _ => None
            end
          | _ => None
          end
        else
          match unescape e with
          | Some u => option_map (prepend u) (readBody r1)
          | None => None
          end
      end
    else if c <? 32 then None
    else option_map (prepend c) (readBody r)
  end.

Definition readString (s : jsstring) : option (jsstring * jsstring) :=
  match s with
  | c :: r => if c =? 34 then readBody r else None
  | [] => None
  end.

(** A decimal digit, as the function that puts it in front of a number. *)
Definition digitOf (c : N) : option (Decimal.uint -> Decimal.uint) :=
  if c =? 48 then Some Decimal.D0
  else if c =? 49 then Some Decimal.D1
  else if c =? 50 then Some Decimal.D2
  else if c =? 51 then Some Decimal.D3
  else if c =? 52 then Some Decimal.D4
  else if c =? 53 then Some Decimal.D5
  else if c =? 54 then Some Decimal.D6
  else if c =? 55 then Some Decimal.D7
  else if c =? 56 then Some Decimal.D8
  else if c =? 57 then Some Decimal.D9
  else None.

Fixpoint takeDigits (s : jsstring) : Decimal.uint * jsstring :=
  match s with
  | [] => (Decimal.Nil, [])
  | c :: r =>
    match digitOf c with
    | Some digit => let (u, rest) := takeDigits r in (digit u, rest)
    | None => (Decimal.Nil, s)
    end
  end.

Definition readNumber (s : jsstring) : option (N * jsstring) :=
  match takeDigits s with
  | (Decimal.Nil, _) => None
  | (u, rest) => Some (N.of_uint u, rest)
  end.

(** A value and the text after it. *)
Definition readValue (s : jsstring) : option (Json.Value * jsstring) :=
  match s with
  | [] => None
  | c :: r =>
    if c =? 34 then
      match readBody r with
      | Some (text, rest) => Some (Json.Str text, rest)
      | None => None
      end
    else if startsWith s (lit "true") then Some (Json.Boolean true, skipn 4 s)
    else if startsWith s (lit "false") then Some (Json.Boolean false, skipn 5 s)
    else
      match readNumber s with
      | Some (n, rest) => Some (Json.Num n, rest)
      | None => None
      end
  end.

(** The text does not go on with a digit. *)
Definition noDigitAhead (rest : jsstring) : Prop :=
  match rest with
  | c :: _ => digitOf c = None
  | [] => True
  end.

(** The members of an object, from its first key to its closing brace,
    after which only white space may follow.  [fuel] bounds the number of
    members. *)
Fixpoint readMembers (fuel : nat) (s : jsstring)
  : option (list (jsstring * Json.Value)) :=
  match fuel with
  | O => None
  | S fuel' =>
    match readString s with
    | None => None
    | Some (key, s1) =>
      match skipSpace s1 with
      | 58 :: s2 =>
        match readValue (skipSpace s2) with
        | None => None
        | Some (v, s3) =>
          match skipSpace s3 with
          | 44 :: s4 =>
            match readMembers fuel' (skipSpace s4) with
            | Some more => Some ((key, v) :: more)
            | None => None
            end
          | 125 :: s4 =>
            match skipSpace s4 with
            | [] => Some [(key, v)]
            | _ :: _ => None
            end
          | _ => None
          end
        end
      | _ => None
      end
    end
  end.

(** The members of a document, in order; [None] when the text is not an
    object of the kind read here. *)
Definition parse (document : jsstring) : option (list (jsstring * Json.Value)) :=
  match skipSpace document with
  | 123 :: r =>
    match skipSpace r with
    | 125 :: r' =>
      match skipSpace r' with
      | [] => Some []
      | _ :: _ => None
      end
    | s => readMembers (List.length s) s
    end
  | _ => None
  end.

(** The value of the member with the given key; as in [JSON.parse], a later
    member with the same key replaces an earlier one. *)
Fixpoint lookup (key : jsstring) (ms : list (jsstring * Json.Value))
  : option Json.Value :=
  match ms with
  | [] => None
  | (k, v) :: rest =>
    match lookup key rest with
    | Some later => Some later
    | None => if Js.eqb k key then Some v else None
    end
  end.

(** The field of a document: [None] when the text cannot be read or has no
    such member. *)
Definition field (document key : jsstring) : option Json.Value :=
  match parse document with
  | Some ms => lookup key ms
  | None => None
  end.

End JsonText.

(** The properties of an object literal that are not [undefined]. *)
Fixpoint defined (o : Json.Object) : list (jsstring * Json.Value) :=
  match o with
  | [] => []
  | (k, Json.Undefined) :: rest => defined rest
  | (k, v) :: rest => (k, v) :: defined rest
  end.

(** The document the export downloads. *)
Definition exportedDocument (s : AppState) (timestamp : jsstring) : jsstring :=
  Json.stringify2 (metadata s timestamp).
(* ===================================================================== *)
(** ** Handlers in flight *)
(* ===================================================================== *)

(** [step] and [run] handle every action to completion before the next
    one.  The page itself lets handlers overlap: the file input and the
    settings stay usable while a generation waits for the service.  Here a
    handler is cut at the [await]s that wait for the outside world (the
    file reader, the service); the code between two such points runs
    without interruption. *)

(** A handler suspended at such an [await]. *)
Inductive Task :=
| Reading (f : File)
| AwaitingBase (outcome : Genai.Outcome)
| AwaitingVariant (s : AppState) (action : jsstring) (rest : list jsstring)
                  (generatedVariants : list Variant) (outcome : Genai.Outcome).

Definition isBase (t : Task) : bool :=
  match t with AwaitingBase _ => true | _ => false end.

(** The handler a call leaves suspended, if any, as a list. *)
Definition pending (t : option Task) : list Task :=
  match t with Some x => [x] | None => [] end.

(** [generateImage] from the response on: the loop over the parts, and the
    [catch]. *)
Definition received (outcome : Genai.Outcome) : M (option jsstring) :=
  match outcome with
  | Genai.Resolved response =>
    match firstInlineImage (responseParts response) with
    | Some dataUri => ret (Some dataUri)
    | None =>
      setError (Some (generationFailed noImageReturned)) ;;
      ret None
    end
  | Genai.Rejected err =>
    setError (Some (generationFailed err)) ;;
    ret None
  end.

Section InFlight.

Variable service : nat -> Genai.Request -> Genai.Outcome.

(** [handleGenerateBase] up to the call of the service; without client or
    image [generateImage] returns at once and the handler ends. *)
Definition startBase (s : AppState) : M (option Task) :=
  setError None ;;
  setIsLoading true ;;
  setLoadingMessage (lit "正在生成您的主體貼圖...") ;;
  match ai s, uploadedImage s with
  | Some _, Some image =>
    outcome <- generateContent service (mkRequest image (basePrompt s)) ;;
    ret (Some (AwaitingBase outcome))
  | _, _ =>
    setError (Some (lit "AI 服務未就緒或未上傳圖片。")) ;;
    setIsLoading false ;;
    ret None
  end.

(** [handleGenerateBase] from the response on. *)
Definition finishBase (outcome : Genai.Outcome) : M (option Task) :=
  result <- received outcome ;;
  match ifTruthy result with
  | Some r => setBaseSticker (Some r) ;; setAppStep base_generated
  | None => ret tt
  end ;;
  setIsLoading false ;;
  ret None.

(** The loop of [generateVariants] from the actions still to do, up to the
    next call of the service or to the end of the function. *)
Fixpoint variantsFrom (s : AppState) (actions : list jsstring)
    (generatedVariants : list Variant) : M (option Task) :=
  match actions with
  | [] =>
    setVariants generatedVariants ;;
    setAppStep variants_generated ;;
    setIsLoading false ;;
    ret None
  | action :: rest =>
    setLoadingMessage (lit "正在生成變化款: " ++ action ++ lit "...") ;;
    match ai s, uploadedImage s with
    | Some _, Some image =>
      outcome <- generateContent service
                   (mkRequest image (variantPrompt s action)) ;;
      ret (Some (AwaitingVariant s action rest generatedVariants outcome))
    | _, _ =>
      setError (Some (lit "AI 服務未就緒或未上傳圖片。")) ;;
      setError (Some (lit "生成 " ++ quoted action ++ lit " 變化款失敗。")) ;;
      variantsFrom s rest generatedVariants
    end
  end.

(** The loop from the response for [action] on. *)
Definition resumeVariants (s : AppState) (action : jsstring)
    (rest : list jsstring) (generatedVariants : list Variant)
    (outcome : Genai.Outcome) : M (option Task) :=
  result <- received outcome ;;
  match ifTruthy result with
  | Some r =>
    variantsFrom s rest
      (generatedVariants
       ++ [{| id := lit "v"
                    ++ of_number (N.of_nat (List.length generatedVariants) + 1);
              uri := r;
              label := action |}])
  | None =>
    setError (Some (lit "生成 " ++ quoted action ++ lit " 變化款失敗。")) ;;
    variantsFrom s rest generatedVariants
  end.

Definition startVariants (s : AppState) (actions : list jsstring)
  : M (option Task) :=
  setError None ;;
  setIsLoading true ;;
  setVariants [] ;;
  variantsFrom s actions [].

(** What the handler of a control does when the control is used, and the
    [await] it is left at, if any. *)
Definition launch (s : AppState) (e : Event) : M (option Task) :=
  match e with
  | ChooseFile (Some f) => ret (Some (Reading f))
  | ClickGenerateBase | ClickRegenerate => startBase s
  | ClickConfirmVariants shuffled | ClickResample shuffled =>
    setLoadingMessage (lit "正在生成三款隨機變化貼圖...") ;;
    startVariants s (firstn 3 shuffled)
  | ClickCustomVariants =>
    match parseCustomVariants (customVariantsPrompt s) with
    | [] =>
      setError (Some (lit "請輸入至少一個有效的情境。")) ;;
      ret None
    | actions =>
      setLoadingMessage (lit "正在生成自訂變化貼圖...") ;;
      startVariants s actions
    end
  | _ => dispatch service s e ;; ret None
  end.

(** What a suspended handler does when what it waits for has come. *)
Definition resume (t : Task) : M (option Task) :=
  match t with
  | Reading f => handleFileChange (Some f) ;; ret None
  | AwaitingBase outcome => finishBase outcome
  | AwaitingVariant s action rest generatedVariants outcome =>
    resumeVariants s action rest generatedVariants outcome
  end.

(** The page together with its suspended handlers. *)
Record Live := { now : Sys; inflight : list Task }.

Definition idle (σ : Sys) : Live := {| now := σ; inflight := [] |}.

(** What happens next: the user uses a control, or what the [i]-th
    suspended handler waits for arrives. *)
Inductive Move := Act (e : Event) | Settle (i : nat).

Definition move (m : Move) (l : Live) : Live :=
  match m with
  | Act e =>
    let r := launch (page (now l)) e (now l) in
    {| now := snd r; inflight := inflight l ++ pending (fst r) |}
  | Settle i =>
    match nth_error (inflight l) i with
    | Some t =>
      let r := resume t (now l) in
      {| now := snd r;
         inflight := firstn i (inflight l) ++ skipn (S i) (inflight l)
                     ++ pending (fst r) |}
    | None => l
    end
  end.

Fixpoint interleave (ms : list Move) (l : Live) : Live :=
  match ms with
  | [] => l
  | m :: rest => interleave rest (move m l)
  end.

(** Every action of the sequence is offered by the render it is made in,
    and every completion is that of a suspended handler. *)
Fixpoint offered (ms : list Move) (l : Live) : Prop :=
  match ms with
  | [] => True
  | m :: rest =>
    match m with
    | Act e => available (page (now l)) e
    | Settle i => (i < List.length (inflight l))%nat
    end
    /\ offered rest (move m l)
  end.

(** The page after a call that started from no suspended handler. *)
Definition landed (r : option Task * Sys) : Live :=
  {| now := snd r; inflight := pending (fst r) |}.

(** Let the suspended handlers complete, the oldest first, before anything
    else happens. *)
Fixpoint settleAll (fuel : nat) (l : Live) : Live :=
  match fuel with
  | O => l
  | S k =>
    match inflight l with
    | [] => l
    | _ :: _ => settleAll k (move (Settle 0) l)
    end
  end.

End InFlight.

(** The user actions of a sequence of moves. *)
Fixpoint actsOf (ms : list Move) : list Event :=
  match ms with
  | [] => []
  | Act e :: rest => e :: actsOf rest
  | Settle _ :: rest => actsOf rest
  end.

(** Some suspended handler is a [handleGenerateBase]. *)
Definition baseInFlight (ts : list Task) : bool := existsb isBase ts.

(** A call that leaves the client, the uploaded image and the base sticker
    as they are and does not suspend a [handleGenerateBase]. *)
Definition quiet (c : M (option Task)) : Prop :=
  forall σ,
    ai (page (snd (c σ))) = ai (page σ)
    /\ uploadedImage (page (snd (c σ))) = uploadedImage (page σ)
    /\ baseSticker (page (snd (c σ))) = baseSticker (page σ)
    /\ baseInFlight (pending (fst (c σ))) = false.

(** A base sticker that is stored or on its way comes with a client and an
    uploaded image. *)
Definition backed (l : Live) : Prop :=
  baseSticker (page (now l)) <> None \/ baseInFlight (inflight l) = true ->
  ai (page (now l)) <> None /\ uploadedImage (page (now l)) <> None.

(** The end of [generateVariants], after its loop. *)
Definition endOfBatch (r : list Variant * Sys) : Sys :=
  exec (setVariants (fst r) ;; setAppStep variants_generated ;;
        setIsLoading false) (snd r).

(** A photo, consent, a base sticker, the random variants started, and
    another photo chosen and read while the first variant is awaited; then
    the outcomes of the three variants arrive. *)
Definition uploadDuringBatch : list Move :=
  [ Act (ChooseFile (Some photo)); Settle 0; Act (ToggleConsent true);
    Act ClickGenerateBase; Settle 0;
    Act (ClickConfirmVariants RANDOM_ACTIONS);
    Act (ChooseFile (Some photo)); Settle 1;
    Settle 0; Settle 0; Settle 0 ].
(* ===================================================================== *)
(** ** Strings: [split], [join], [trim] *)
(* ===================================================================== *)

Section StringFacts.

Lemma split_not_nil sep s : split sep s <> [].
Proof.
  destruct s as [|c r]; simpl; [discriminate|].
  destruct (c =? sep); [discriminate|].
  destruct (split sep r); discriminate.
Qed.

Lemma join_cons sep p ps :
  ps <> [] -> join sep (p :: ps) = p ++ sep :: join sep ps.
Proof. destruct ps; [congruence | reflexivity]. Qed.

Lemma join_split sep s : join sep (split sep s) = s.
Proof.
  induction s as [|c r IH]; [reflexivity|].
  simpl split. destruct (N.eqb_spec c sep) as [->|Hne].
  - rewrite join_cons by apply split_not_nil. now rewrite IH.
  - pose proof (split_not_nil sep r) as Hnn.
    destruct (split sep r) as [|p ps]; [congruence|].
    destruct ps as [|q qs].
    + simpl in *. now rewrite IH.
    + rewrite join_cons by discriminate.
      rewrite join_cons in IH by discriminate.
      rewrite <- app_comm_cons. now rewrite IH.
Qed.

Lemma split_no_sep sep s : Forall (fun p => ~ In sep p) (split sep s).
Proof.
  induction s as [|c r IH]; simpl.
  - constructor; [intros []|constructor].
  - destruct (N.eqb_spec c sep) as [->|Hne].
    + constructor; [intros []|exact IH].
    + destruct (split sep r) as [|p ps].
      * constructor; [|constructor]. intros [H|[]]. congruence.
      * inversion IH as [|? ? Hp Hps]; subst.
        constructor; [|exact Hps]. intros [H|H]; [congruence|tauto].
Qed.

Lemma trimStart_spec s :
  exists l, s = l ++ trimStart s /\ allWhiteSpace l /\ startsClean (trimStart s).
Proof.
  induction s as [|c r (l & Hs & Hl & Hc)]; simpl.
  - exists []. repeat split; constructor.
  - destruct (isWhiteSpace c) eqn:Hw.
    + exists (c :: l). repeat split; trivial.
      * simpl. now rewrite <- Hs.
      * now constructor.
    + exists []. repeat split; [constructor | exact Hw].
Qed.

Lemma allWhiteSpace_rev s : allWhiteSpace s -> allWhiteSpace (rev s).
Proof.
  unfold allWhiteSpace. rewrite !Forall_forall.
  intros H c Hc. apply H. now apply in_rev.
Qed.

Lemma trimEnd_spec s :
  exists r, s = trimEnd s ++ r /\ allWhiteSpace r /\ startsClean (rev (trimEnd s)).
Proof.
  unfold trimEnd. destruct (trimStart_spec (rev s)) as (l & Hs & Hl & Hc).
  exists (rev l). repeat split.
  - rewrite <- rev_app_distr, <- Hs. now rewrite rev_involutive.
  - now apply allWhiteSpace_rev.
  - now rewrite rev_involutive.
Qed.

(** Taking white space off the end of a string that starts clean leaves a
    string that starts clean. *)
Lemma trimEnd_startsClean s : startsClean s -> startsClean (trimEnd s).
Proof.
  intros Hs. destruct (trimEnd_spec s) as (r & Heq & _ & _).
  destruct (trimEnd s) as [|c t]; [exact I|].
  rewrite Heq in Hs. exact Hs.
Qed.

Lemma trim_Trimmed s : Trimmed s (trim s).
Proof.
  unfold trim.
  destruct (trimStart_spec s) as (l & Hl & Hwl & Hcl).
  destruct (trimEnd_spec (trimStart s)) as (r & Hr & Hwr & Hcr).
  exists l, r. repeat split; trivial.
  - now rewrite <- Hr.
  - now apply trimEnd_startsClean.
Qed.

Lemma trimStart_nil_iff s : trimStart s = [] <-> allWhiteSpace s.
Proof.
  induction s as [|c r IH]; simpl.
  - split; [constructor | reflexivity].
  - destruct (isWhiteSpace c) eqn:Hw.
    + rewrite IH. split; intros H; [now constructor | now inversion H].
    + split; [discriminate|]. intros H. inversion H. congruence.
Qed.

Lemma trim_nil_iff s : trim s = [] <-> allWhiteSpace s.
Proof.
  unfold trim, trimEnd. split.
  - intros H. apply (f_equal (@rev N)) in H. rewrite rev_involutive in H.
    simpl in H. apply trimStart_nil_iff in H.
    apply allWhiteSpace_rev in H. rewrite rev_involutive in H.
    destruct (trimStart_spec s) as (l & Hs & Hl & _).
    rewrite Hs. apply Forall_app. split; assumption.
  - intros H. apply trimStart_nil_iff in H. now rewrite H.
Qed.

Lemma truthy_false_iff (s : jsstring) : truthy s = false <-> s = [].
Proof. destruct s; simpl; split; congruence. Qed.

Lemma filter_nil_iff {A} (f : A -> bool) l :
  filter f l = [] <-> Forall (fun x => f x = false) l.
Proof.
  induction l as [|x l IH]; simpl.
  - split; [constructor | reflexivity].
  - destruct (f x) eqn:Hx.
    + split; [discriminate|]. intros H. inversion H. congruence.
    + rewrite IH. split; intros H; [now constructor | now inversion H].
Qed.

(** The units of a joined text are the separators and the units of the
    pieces. *)
Lemma join_Forall (P : N -> Prop) sep ps :
  ps <> [] ->
  Forall P (join sep ps) ->
  Forall (Forall P) ps.
Proof.
  induction ps as [|p ps IH]; [congruence|]. intros _ H.
  destruct ps as [|q qs].
  - simpl in H. repeat constructor. exact H.
  - rewrite join_cons in H by discriminate.
    apply Forall_app in H as [Hp H]. inversion H; subst.
    constructor; [exact Hp|]. apply IH; [discriminate | assumption].
Qed.

Lemma Forall_join (P : N -> Prop) sep ps :
  P sep -> Forall (Forall P) ps -> Forall P (join sep ps).
Proof.
  intros Hsep. induction ps as [|p ps IH]; intros H; [constructor|].
  inversion H; subst. destruct ps as [|q qs]; [assumption|].
  rewrite join_cons by discriminate.
  apply Forall_app. split; [assumption|]. constructor; auto.
Qed.

(** The parsed list is empty exactly for a text made of commas and white
    space only. *)
Lemma parseCustomVariants_nil_iff text :
  parseCustomVariants text = []
  <-> Forall (fun c => c = comma \/ isWhiteSpace c = true) text.
Proof.
  unfold parseCustomVariants, MAX_CUSTOM_VARIANTS.
  set (pieces := split comma text).
  assert (Hfirst : forall l : list jsstring, firstn 12 l = [] <-> l = []).
  { intros [|x l]; simpl; split; congruence. }
  rewrite Hfirst, filter_nil_iff, Forall_map.
  split.
  - intros H. rewrite <- (join_split comma text). fold pieces.
    apply Forall_join; [now left|].
    eapply Forall_impl; [|exact H]. intros p Hp. simpl in Hp.
    apply truthy_false_iff, trim_nil_iff in Hp.
    eapply Forall_impl; [|exact Hp]. intros; now right.
  - intros H. rewrite <- (join_split comma text) in H. fold pieces in H.
    apply join_Forall in H; [|apply split_not_nil].
    pose proof (split_no_sep comma text) as Hns. fold pieces in Hns.
    rewrite Forall_forall in *. intros p Hp.
    apply truthy_false_iff, trim_nil_iff.
    specialize (H p Hp). specialize (Hns p Hp).
    unfold allWhiteSpace. rewrite Forall_forall in *. intros c Hc.
    destruct (H c Hc) as [->|Hw]; [contradiction | exact Hw].
Qed.

End StringFacts.

Section Uniqueness.

Lemma split_without_sep sep p : ~ In sep p -> split sep p = [p].
Proof.
  induction p as [|c p IH]; intros Hno; simpl; [reflexivity|].
  destruct (N.eqb_spec c sep) as [->|Hne]; [exfalso; apply Hno; now left|].
  rewrite IH; [reflexivity|]. intros H. apply Hno. now right.
Qed.

Lemma split_app_sep sep p r :
  ~ In sep p -> split sep (p ++ sep :: r) = p :: split sep r.
Proof.
  induction p as [|c p IH]; intros Hno; simpl.
  - now rewrite N.eqb_refl.
  - destruct (N.eqb_spec c sep) as [->|Hne]; [exfalso; apply Hno; now left|].
    rewrite IH; [reflexivity|]. intros H. apply Hno. now right.
Qed.

(** The pieces of a text are determined by the text. *)
Lemma split_join sep ps :
  ps <> [] -> Forall (fun p => ~ In sep p) ps -> split sep (join sep ps) = ps.
Proof.
  induction ps as [|p ps IH]; [congruence|]. intros _ H.
  inversion H as [|? ? Hp Hps]; subst.
  destruct ps as [|q qs].
  - simpl. now apply split_without_sep.
  - rewrite join_cons by discriminate.
    rewrite split_app_sep by assumption.
    rewrite IH; [reflexivity | discriminate | assumption].
Qed.

Lemma CommaSeparated_unique text pieces :
  CommaSeparated text pieces -> pieces = split comma text.
Proof.
  intros (Hjoin & Hnn & Hno). rewrite <- Hjoin. symmetry.
  now apply split_join.
Qed.

Lemma trimStart_skip l x : allWhiteSpace l -> trimStart (l ++ x) = trimStart x.
Proof.
  induction 1 as [|c l Hc _ IH]; simpl; [reflexivity|]. now rewrite Hc.
Qed.

Lemma trimStart_clean x : startsClean x -> trimStart x = x.
Proof. destruct x as [|c x]; simpl; [reflexivity|]. now intros ->. Qed.

Lemma startsClean_app e r : e <> [] -> startsClean e -> startsClean (e ++ r).
Proof. destruct e; [congruence | intros _ H; exact H]. Qed.

(** The trimmed entry of a piece is determined by the piece. *)
Lemma Trimmed_unique piece entry : Trimmed piece entry -> entry = trim piece.
Proof.
  intros (l & r & -> & Hl & Hr & Hstart & Hend).
  unfold trim. rewrite trimStart_skip by assumption.
  destruct entry as [|c e].
  - simpl. apply trimStart_nil_iff in Hr. now rewrite Hr.
  - rewrite trimStart_clean by (apply startsClean_app; [discriminate|assumption]).
    unfold trimEnd. rewrite rev_app_distr.
    rewrite trimStart_skip by (now apply allWhiteSpace_rev).
    rewrite trimStart_clean by assumption.
    now rewrite rev_involutive.
Qed.

Lemma Forall2_Trimmed_unique pieces entries :
  Forall2 Trimmed pieces entries -> entries = map trim pieces.
Proof.
  induction 1 as [|p e ps es Hpe _ IH]; simpl; [reflexivity|].
  now rewrite (Trimmed_unique _ _ Hpe), IH.
Qed.

End Uniqueness.

(* ===================================================================== *)
(** ** Parsing the custom-variants text *)
(* ===================================================================== *)

Lemma Forall2_Trimmed_map pieces : Forall2 Trimmed pieces (map trim pieces).
Proof.
  induction pieces as [|p ps IH]; simpl; constructor; auto using trim_Trimmed.
Qed.

Lemma split_CommaSeparated text : CommaSeparated text (split comma text).
Proof.
  repeat split.
  - apply join_split.
  - apply split_not_nil.
  - apply split_no_sep.
Qed.

(** C5. The request list parsed from the custom-variants text is obtained by
    splitting the text on commas, trimming each entry, dropping the entries
    that are empty after trimming and keeping the first 12 of the rest, in
    order; [yes, no, ok] gives the three requests [yes], [no], [ok]. *)
Theorem C5_parse_custom_variants :
  parseCustomVariants (lit "yes, no, ok") = [lit "yes"; lit "no"; lit "ok"]
  /\ (forall text,
        exists pieces entries,
          CommaSeparated text pieces /\ Forall2 Trimmed pieces entries)
  /\ (forall text pieces entries,
        CommaSeparated text pieces ->
        Forall2 Trimmed pieces entries ->
        parseCustomVariants text = firstn 12 (filter truthy entries)
        /\ List.length (parseCustomVariants text)
           = Nat.min 12 (List.length (filter truthy entries))).
Proof.
  split; [reflexivity|]. split.
  - intros text. exists (split comma text), (map trim (split comma text)).
    split; [apply split_CommaSeparated | apply Forall2_Trimmed_map].
  - intros text pieces entries Hpieces Hentries.
    apply CommaSeparated_unique in Hpieces. subst pieces.
    apply Forall2_Trimmed_unique in Hentries. subst entries.
    split; [reflexivity|].
    unfold parseCustomVariants, MAX_CUSTOM_VARIANTS. apply length_firstn.
Qed.

(* ===================================================================== *)
(** ** The generation client *)
(* ===================================================================== *)

Section ClientFacts.

Variable service : nat -> Genai.Request -> Genai.Outcome.

Lemma firstInlineImage_first ps b :
  FirstImage ps b -> firstInlineImage ps = Some (dataUri b).
Proof.
  intros (before & part & rest & -> & Hbefore & Hpart).
  induction Hbefore as [|p before Hp _ IH]; simpl.
  - now rewrite Hpart.
  - now rewrite Hp.
Qed.

Lemma firstInlineImage_none ps : NoImage ps -> firstInlineImage ps = None.
Proof.
  induction 1 as [|p ps Hp _ IH]; simpl; [reflexivity|]. now rewrite Hp.
Qed.

Lemma firstInlineImage_found ps u :
  firstInlineImage ps = Some u -> exists b, FirstImage ps b /\ u = dataUri b.
Proof.
  induction ps as [|p ps IH]; simpl; [discriminate|].
  destruct (Genai.inlineData p) as [b|] eqn:Hp.
  - intros [= <-]. exists b. split; [|reflexivity].
    exists [], p, ps. repeat split; [constructor | exact Hp].
  - intros H. destruct (IH H) as (b & (before & part & rest & -> & Hb & Hpart) & ->).
    exists b. split; [|reflexivity].
    exists (p :: before), part, rest. repeat split; [constructor|]; assumption.
Qed.

(** A data URI is never the empty string, so [if (result)] tests for
    [null] only. *)
Lemma firstInlineImage_truthy ps u :
  firstInlineImage ps = Some u -> ifTruthy (Some u) = Some u.
Proof.
  intros H. apply firstInlineImage_found in H as (b & _ & ->). reflexivity.
Qed.

Lemma generateImage_ready s client image promptText σ :
  ai s = Some client -> uploadedImage s = Some image ->
  generateImage service s promptText σ =
  let request := mkRequest image promptText in
  let σ1 := afterRequest request σ in
  match service (List.length (sent (world σ))) request with
  | Genai.Resolved response =>
    match firstInlineImage (responseParts response) with
    | Some u => (Some u, σ1)
    | None => (None, afterError (generationFailed noImageReturned) σ1)
    end
  | Genai.Rejected err => (None, afterError (generationFailed err) σ1)
  end.
Proof.
  intros Hai Himg. unfold generateImage. rewrite Hai, Himg.
  unfold bind, generateContent. cbv zeta.
  destruct (service _ _) as [response|err]; [|reflexivity].
  destruct (firstInlineImage _); reflexivity.
Qed.

Lemma generateImage_not_ready s promptText σ :
  ready s = None ->
  generateImage service s promptText σ =
  (None, afterError (lit "AI 服務未就緒或未上傳圖片。") σ).
Proof.
  unfold ready, generateImage. intros H.
  destruct (ai s); [destruct (uploadedImage s); [discriminate|]|]; reflexivity.
Qed.

Lemma generationFailed_noImage :
  generationFailed noImageReturned = lit "圖片生成失敗: API 未返回圖片。".
Proof. vm_compute. reflexivity. Qed.

Lemma generationFailed_unknown :
  generationFailed Genai.NotAnError = lit "圖片生成失敗: 未知錯誤".
Proof. vm_compute. reflexivity. Qed.

(** The message of a generation failure determines the text it carries. *)
Lemma generationFailed_text_inj message message' :
  lit "圖片生成失敗: " ++ message = lit "圖片生成失敗: " ++ message' ->
  message = message'.
Proof. apply app_inv_head. Qed.

Lemma noImage_text :
  lit "圖片生成失敗: API 未返回圖片。"
  = lit "圖片生成失敗: " ++ lit "API 未返回圖片。".
Proof. vm_compute. reflexivity. Qed.

Lemma unknown_is_not_noImage :
  lit "圖片生成失敗: 未知錯誤" <> lit "圖片生成失敗: API 未返回圖片。".
Proof. vm_compute. discriminate. Qed.

(** C3. With a client and an uploaded image, [generateImage] sends exactly
    one request.  When the response has a part with inline data it returns
    the data URI made of the media type and the payload of the first such
    part and leaves the state alone.  When no part of the response has
    inline data it returns [null] and signals the no-image failure, the
    text [API 未返回圖片。] behind the failure prefix.  When the call itself
    fails it returns [null] and signals the generation failure carrying the
    message of the error behind the same prefix ([未知錯誤] when what was
    thrown is not an [Error]); this failure is distinct from the no-image
    failure: the two error texts differ whenever the message of the failed
    call is not the client's own no-image text. *)
Theorem C3_generateImage_outcomes :
  forall s client image promptText σ,
    ai s = Some client -> uploadedImage s = Some image ->
    let request := mkRequest image promptText in
    let outcome := service (List.length (sent (world σ))) request in
    let result := fst (generateImage service s promptText σ) in
    let σ' := snd (generateImage service s promptText σ) in
    let noImageFailure := lit "圖片生成失敗: API 未返回圖片。" in
    sent (world σ') = sent (world σ) ++ [request]
    /\ (forall response b,
          outcome = Genai.Resolved response ->
          FirstImage (responseParts response) b ->
          result
          = Some (lit "data:" ++ Genai.mimeType b ++ lit ";base64," ++ Genai.data b)
          /\ page σ' = page σ)
    /\ (forall response,
          outcome = Genai.Resolved response ->
          NoImage (responseParts response) ->
          result = None
          /\ error (page σ') = Some noImageFailure)
    /\ (forall message,
          outcome = Genai.Rejected (Genai.ErrorObject message) ->
          result = None
          /\ error (page σ') = Some (lit "圖片生成失敗: " ++ message)
          /\ (message <> lit "API 未返回圖片。" ->
              error (page σ') <> Some noImageFailure))
    /\ (outcome = Genai.Rejected Genai.NotAnError ->
          result = None
          /\ error (page σ') = Some (lit "圖片生成失敗: 未知錯誤")
          /\ error (page σ') <> Some noImageFailure).
Proof.
  intros s client image promptText σ Hai Himg request outcome result σ'
         noImageFailure.
  subst result σ' noImageFailure.
  rewrite (generateImage_ready _ _ _ _ _ Hai Himg).
  cbv zeta. fold request. fold outcome.
  split; [destruct outcome as [r|e]; [destruct (firstInlineImage _)|]; reflexivity|].
  split; [|split; [|split]].
  - intros response b -> Hfirst.
    rewrite (firstInlineImage_first _ _ Hfirst). split; reflexivity.
  - intros response -> Hno.
    rewrite (firstInlineImage_none _ Hno). split; [reflexivity|].
    cbn [snd page afterError error with_error].
    now rewrite generationFailed_noImage.
  - intros message ->. split; [reflexivity|]. split; [reflexivity|].
    intros Hother.
    cbn [snd page afterError error with_error].
    unfold generationFailed. cbn [errorText].
    rewrite noImage_text. intros Heq.
    apply Hother. apply generationFailed_text_inj. congruence.
  - intros ->. split; [reflexivity|].
    cbn [snd page afterError error with_error].
    rewrite generationFailed_unknown. split; [reflexivity|].
    intros Heq. apply unknown_is_not_noImage. congruence.
Qed.

End ClientFacts.

(* ===================================================================== *)
(** ** Upload and the custom-variants guard *)
(* ===================================================================== *)

(** C6. Whatever the state before, choosing a file that is read
    successfully sets the workflow state to [upload], the base sticker to
    [null] and the variants to the empty array (and stores the new image and
    clears the error). *)
Theorem C6_upload_resets_generation :
  forall σ fileUrl data mime,
    let file := {| objectURL := fileUrl; read := ReadOk data mime |} in
    let σ' := exec (handleFileChange (Some file)) σ in
    appStep (page σ') = upload
    /\ baseSticker (page σ') = None
    /\ variants (page σ') = []
    /\ uploadedImage (page σ')
       = Some {| url := fileUrl; base64 := data; mimeType := mime |}
    /\ error (page σ') = None
    /\ world σ' = world σ.
Proof. intros. repeat split. Qed.

(** A file that cannot be read changes nothing but the error. *)
Lemma handleFileChange_error σ fileUrl :
  exec (handleFileChange (Some {| objectURL := fileUrl; read := ReadError |})) σ
  = afterError (lit "讀取檔案失敗，請再試一次。") σ.
Proof. reflexivity. Qed.

Section GuardFacts.

Variable service : nat -> Genai.Request -> Genai.Outcome.

(** C10. When the custom-variants text consists of commas and white space
    only (the empty text included), its request list is empty and the
    custom-variant handler only sets the error message: no request is sent
    and the variants, the base sticker and the workflow state stay as they
    were. *)
Theorem C10_empty_custom_list_is_rejected :
  forall s σ,
    Forall (fun c => c = comma \/ isWhiteSpace c = true) (customVariantsPrompt s) ->
    let σ' := exec (handleGenerateCustomVariants service s) σ in
    parseCustomVariants (customVariantsPrompt s) = []
    /\ error (page σ') = Some (lit "請輸入至少一個有效的情境。")
    /\ sent (world σ') = sent (world σ)
    /\ variants (page σ') = variants (page σ)
    /\ baseSticker (page σ') = baseSticker (page σ)
    /\ appStep (page σ') = appStep (page σ)
    /\ σ' = afterError (lit "請輸入至少一個有效的情境。") σ.
Proof.
  intros s σ Hblank σ'. apply parseCustomVariants_nil_iff in Hblank.
  subst σ'. unfold handleGenerateCustomVariants. rewrite Hblank.
  repeat split.
Qed.

End GuardFacts.

(* ===================================================================== *)
(** ** The variant batch *)
(* ===================================================================== *)

Section BatchFacts.

Variable service : nat -> Genai.Request -> Genai.Outcome.
Variable s : AppState.

Lemma Sys_eta σ :
  {| page := with_error (error (page σ))
              (with_loadingMessage (loadingMessage (page σ)) (page σ));
     world := {| sent := sent (world σ) ++ [];
                 downloads := downloads (world σ) |} |} = σ.
Proof.
  destruct σ as [a w], a, w. simpl. unfold with_error. simpl.
  now rewrite app_nil_r.
Qed.

Lemma attempts_not_ready n m actions :
  ready s = None -> attempts service s n actions = attempts service s m actions.
Proof.
  intros H. revert n m. induction actions as [|a rest IH]; intros; simpl.
  - reflexivity.
  - unfold attempt. rewrite H. f_equal. apply IH.
Qed.

Lemma ready_inv image :
  ready s = Some image ->
  exists client, ai s = Some client /\ uploadedImage s = Some image.
Proof.
  unfold ready. destruct (ai s) as [c|]; [|discriminate].
  destruct (uploadedImage s); [|discriminate]. intros [= ->]. now exists c.
Qed.

Lemma numberFrom_snoc acc a u l :
  (acc ++ [{| id := lit "v" ++ of_number (N.of_nat (List.length acc) + 1);
              uri := u; label := a |}])
  ++ numberFrom (List.length (acc ++ [{| id := lit "v"
                                         ++ of_number (N.of_nat (List.length acc) + 1);
                                         uri := u; label := a |}])) l
  = acc ++ numberFrom (List.length acc) ((a, u) :: l).
Proof.
  rewrite <- app_assoc, length_app. simpl. now rewrite Nat.add_1_r.
Qed.

Lemma lastFailure_cons a r tries :
  lastFailure ((a, r) :: tries)
  = match lastFailure tries with
    | Some b => Some b
    | None => match r with None => Some a | Some _ => None end
    end.
Proof. reflexivity. Qed.

Lemma attempts_next a rest σ :
  attempts service s
    (List.length (sent (world σ) ++ requestsFor s [a])) rest
  = attempts service s (S (List.length (sent (world σ)))) rest.
Proof.
  unfold requestsFor. destruct (ready s) eqn:Hready.
  - simpl. rewrite length_app. simpl. now rewrite Nat.add_1_r.
  - now apply attempts_not_ready.
Qed.

(** One turn of the loop followed by the rest of the batch is the batch. *)
Lemma afterBatch_cons a rest σ σ1 :
  page σ1
  = with_error
      (match attempt service s (List.length (sent (world σ))) a with
       | None => Some (variantFailed a)
       | Some _ => error (page σ)
       end)
      (with_loadingMessage (lit "正在生成變化款: " ++ a ++ lit "...") (page σ)) ->
  world σ1
  = {| sent := sent (world σ) ++ requestsFor s [a];
       downloads := downloads (world σ) |} ->
  afterBatch service s rest σ1 = afterBatch service s (a :: rest) σ.
Proof.
  intros Happ Hworld. unfold afterBatch. rewrite Happ, Hworld.
  cbn [sent downloads]. rewrite attempts_next.
  cbn [attempts]. rewrite lastFailure_cons. f_equal.
  - destruct (lastFailure _); destruct (attempt _ _ _ _); reflexivity.
  - f_equal. rewrite <- app_assoc. f_equal.
    unfold requestsFor. destruct (ready s); reflexivity.
Qed.

Lemma variantsLoop_spec actions :
  forall acc σ,
    variantsLoop service s actions acc σ
    = (acc ++ numberFrom (List.length acc)
                (successes (attempts service s (List.length (sent (world σ)))
                                     actions)),
       afterBatch service s actions σ).
Proof.
  induction actions as [|a rest IH]; intros acc σ.
  - simpl. unfold ret, afterBatch, requestsFor. rewrite app_nil_r. f_equal.
    destruct σ as [a0 w0], a0, w0; simpl.
    destruct (ready s); simpl; rewrite app_nil_r; reflexivity.
  - cbn [variantsLoop]. unfold bind at 1. unfold setLoadingMessage at 1, setState.
    unfold bind at 1.
    destruct (ready s) as [image|] eqn:Hready.
    + destruct (ready_inv _ Hready) as (client & Hai & Himg).
      rewrite (generateImage_ready service s _ _ _ _ Hai Himg). cbv zeta.
      cbn [page world sent].
      assert (Hattempt :
                attempt service s (List.length (sent (world σ))) a
                = imageOf (service (List.length (sent (world σ)))
                                   (mkRequest image (variantPrompt s a)))).
      { unfold attempt. now rewrite Hready. }
      assert (Hreq : requestsFor s [a]
                     = [mkRequest image (variantPrompt s a)]).
      { unfold requestsFor. now rewrite Hready. }
      cbn [attempts]. rewrite Hattempt. unfold imageOf.
      destruct (service _ _) as [response|err].
      * destruct (firstInlineImage _) as [u|] eqn:Hu.
        -- rewrite (firstInlineImage_truthy _ _ Hu). rewrite IH.
           cbn [successes]. rewrite numberFrom_snoc.
           f_equal.
           ++ unfold afterRequest. cbn [world sent]. rewrite <- Hreq.
              now rewrite attempts_next.
           ++ apply afterBatch_cons.
              ** rewrite Hattempt. cbn [imageOf]. rewrite Hu. reflexivity.
              ** rewrite Hreq. reflexivity.
        -- cbn [ifTruthy]. unfold bind at 1. unfold setError at 1, setState.
           rewrite IH. cbn [successes]. f_equal.
           ++ unfold afterError, afterRequest. cbn [world sent]. rewrite <- Hreq.
              now rewrite attempts_next.
           ++ apply afterBatch_cons.
              ** rewrite Hattempt. cbn [imageOf]. rewrite Hu. reflexivity.
              ** rewrite Hreq. reflexivity.
      * cbn [ifTruthy]. unfold bind at 1. unfold setError at 1, setState.
        rewrite IH. cbn [successes]. f_equal.
        -- unfold afterError, afterRequest. cbn [world sent]. rewrite <- Hreq.
           now rewrite attempts_next.
        -- apply afterBatch_cons.
           ++ rewrite Hattempt. reflexivity.
           ++ rewrite Hreq. reflexivity.
    + rewrite (generateImage_not_ready service s _ _ Hready).
      assert (Hattempt : attempt service s (List.length (sent (world σ))) a = None).
      { unfold attempt. now rewrite Hready. }
      assert (Hreq : requestsFor s [a] = []).
      { unfold requestsFor. now rewrite Hready. }
      cbn [ifTruthy]. unfold bind at 1. unfold setError at 1, setState.
      rewrite IH. cbn [attempts]. rewrite Hattempt. cbn [successes]. f_equal.
      * do 3 f_equal. now apply attempts_not_ready.
      * apply afterBatch_cons.
        -- rewrite Hattempt. reflexivity.
        -- rewrite Hreq. cbn [afterError world]. rewrite app_nil_r.
           now destruct σ as [a0 [? ?]].
Qed.

Lemma generateVariants_spec actions σ :
  exec (generateVariants service s actions) σ
  = let σ0 := {| page := with_variants []
                          (with_isLoading true (with_error None (page σ)));
                 world := world σ |} in
    let σ1 := afterBatch service s actions σ0 in
    {| page :=
         with_isLoading false
           (with_appStep variants_generated
              (with_variants
                 (numberFrom 0
                    (successes
                       (attempts service s (List.length (sent (world σ)))
                                 actions)))
                 (page σ1)));
       world := world σ1 |}.
Proof.
  unfold generateVariants, exec, bind, setError, setIsLoading, setVariants,
    setAppStep, setState.
  rewrite variantsLoop_spec. reflexivity.
Qed.

Lemma attempts_captions n actions :
  map fst (attempts service s n actions) = actions.
Proof.
  revert n. induction actions as [|a rest IH]; intros n; simpl; [reflexivity|].
  now rewrite IH.
Qed.

End BatchFacts.

Lemma numberFrom_contents k l :
  map (fun v => (label v, uri v)) (numberFrom k l) = l.
Proof.
  revert k. induction l as [|[a u] l IH]; intros k; simpl; [reflexivity|].
  now rewrite IH.
Qed.

Lemma successes_failures_length tries :
  (List.length (successes tries) + List.length (failures tries))%nat
  = List.length tries.
Proof.
  induction tries as [|[a [u|]] rest IH]; simpl; lia.
Qed.

Lemma lastFailure_none_iff tries : lastFailure tries = None <-> failures tries = [].
Proof.
  induction tries as [|[a [u|]] rest IH]; simpl.
  - tauto.
  - destruct (lastFailure rest); [|tauto].
    split; [discriminate|]. intros H. apply IH in H. discriminate.
  - destruct (lastFailure rest); split; discriminate.
Qed.

(** C1. [generateVariants] calls the generation client once per caption, in
    list order (with a client and an image: one request per caption reaches
    the service, in that order).  A caption whose call fails leaves its
    error message and the loop goes on; in the end the variants are
    exactly the successful outputs, in request order and numbered from
    [v1], the failed captions being left out, and the error is the message
    of the last failed caption, or none when no caption failed.  With three
    captions of which one fails, two variants are stored and an error is
    set. *)
Theorem C1_variants_are_the_successful_outputs :
  forall service s actions σ,
    let σ' := exec (generateVariants service s actions) σ in
    let tries := attempts service s (List.length (sent (world σ))) actions in
    map fst tries = actions
    /\ sent (world σ') = sent (world σ) ++ requestsFor s actions
    /\ (forall image,
          ready s = Some image ->
          sent (world σ')
          = sent (world σ)
            ++ map (fun a => mkRequest image (variantPrompt s a)) actions)
    /\ variants (page σ') = numberFrom 0 (successes tries)
    /\ map (fun v => (label v, uri v)) (variants (page σ')) = successes tries
    /\ (List.length (variants (page σ')) + List.length (failures tries))%nat
       = List.length actions
    /\ error (page σ') = option_map variantFailed (lastFailure tries)
    /\ (error (page σ') = None <-> failures tries = [])
    /\ (List.length actions = 3%nat ->
        List.length (failures tries) = 1%nat ->
        List.length (variants (page σ')) = 2%nat /\ error (page σ') <> None).
Proof.
  intros service s actions σ σ' tries.
  assert (Hsent : sent (world σ') = sent (world σ) ++ requestsFor s actions).
  { subst σ'. rewrite generateVariants_spec. reflexivity. }
  assert (Hvars : variants (page σ') = numberFrom 0 (successes tries)).
  { subst σ'. rewrite generateVariants_spec. reflexivity. }
  assert (Herr : error (page σ') = option_map variantFailed (lastFailure tries)).
  { subst σ'. rewrite generateVariants_spec. cbn.
    fold tries. now destruct (lastFailure tries). }
  assert (Hlen : (List.length (variants (page σ')) + List.length (failures tries))%nat
                 = List.length actions).
  { rewrite Hvars.
    rewrite <- (length_map (fun v => (label v, uri v))), numberFrom_contents.
    rewrite successes_failures_length. unfold tries.
    rewrite <- (length_map fst). now rewrite attempts_captions. }
  assert (Hnone : error (page σ') = None <-> failures tries = []).
  { rewrite Herr, <- lastFailure_none_iff.
    destruct (lastFailure tries); simpl; split; congruence. }
  split; [apply attempts_captions|].
  split; [exact Hsent|].
  split; [intros image Hready; rewrite Hsent; unfold requestsFor; now rewrite Hready|].
  split; [exact Hvars|].
  split; [rewrite Hvars; apply numberFrom_contents|].
  split; [exact Hlen|].
  split; [exact Herr|].
  split; [exact Hnone|].
  intros H3 H1. split; [lia|].
  intros Hn. apply Hnone in Hn. rewrite Hn in H1. discriminate.
Qed.

(* ===================================================================== *)
(** ** Prompts *)
(* ===================================================================== *)

Section PromptFacts.

Lemma startsWith_app x r : startsWith (x ++ r) x = true.
Proof.
  induction x as [|c x IH]; simpl; [reflexivity|].
  now rewrite N.eqb_refl, IH.
Qed.

Lemma includes_middle a x b : includes (a ++ x ++ b) x = true.
Proof.
  induction a as [|c a IH].
  - cbn [List.app]. destruct (x ++ b) eqn:E; simpl.
    + destruct x; [reflexivity | discriminate].
    + rewrite <- E. now rewrite startsWith_app.
  - simpl. rewrite IH. apply orb_true_r.
Qed.

Lemma startsWith_app_l s x b :
  startsWith s x = true -> startsWith (s ++ b) x = true.
Proof.
  revert s. induction x as [|c x IH]; intros s; simpl; [reflexivity|].
  destruct s as [|d s]; simpl; [discriminate|].
  intros H. apply andb_true_iff in H as [-> H]. simpl. now apply IH.
Qed.

Lemma includes_app_l a b x : includes a x = true -> includes (a ++ b) x = true.
Proof.
  induction a as [|c a IH]; simpl.
  - rewrite orb_false_r. destruct x; [|discriminate]. intros _.
    destruct b; reflexivity.
  - intros H. apply orb_true_iff in H as [H|H].
    + change (c :: a ++ b) with ((c :: a) ++ b).
      now rewrite (startsWith_app_l _ _ b H).
    + rewrite (IH H). apply orb_true_r.
Qed.

Lemma includes_app_r a b x : includes b x = true -> includes (a ++ b) x = true.
Proof.
  intros H. induction a as [|c a IH]; simpl; [exact H|].
  rewrite IH. apply orb_true_r.
Qed.

Lemma includes_self_app x b : includes (x ++ b) x = true.
Proof. apply (includes_middle [] x b). Qed.

(** C4 (amended). The two prompts are built from the same parts: the quoted
    style label (the custom text when the style is [custom], the label of
    the preset otherwise), a description clause that is there only when the
    description is not empty, and the two flag clauses at the end.  The
    base prompt also has the sentence with the strength percentage; the
    variant prompt has the quoted action instead and does not depend on the
    strength. *)
Theorem C4_prompt_templates :
  forall s action,
    basePrompt s
    = baseOpening (stylePrompt s)
      ++ descriptionClause (lit "Incorporate this description: ") (userPrompt s)
      ++ strengthSentence (styleStrength s)
      ++ flagClauses s
    /\ variantPrompt s action
       = variantOpening action (stylePrompt s)
         ++ descriptionClause (lit "Incorporate this general theme: ")
                              (userPrompt s)
         ++ lit " " ++ flagClauses s
    /\ stylePrompt s
       = (if Style_eqb (style s) custom then customStyle s else STYLES (style s))
    /\ includes (basePrompt s) (quoted (stylePrompt s)) = true
    /\ includes (variantPrompt s action) (quoted (stylePrompt s)) = true
    /\ includes (variantPrompt s action) (quoted action) = true
    /\ includes (basePrompt s) (of_number (styleStrength s) ++ lit "%") = true
    /\ (forall strength,
          variantPrompt (with_styleStrength strength s) action
          = variantPrompt s action)
    /\ descriptionClause (lit "Incorporate this description: ") (lit "") = lit ""
    /\ descriptionClause (lit "Incorporate this general theme: ") (lit "") = lit "".
Proof.
  intros s action.
  assert (Hbase : basePrompt s
    = baseOpening (stylePrompt s)
      ++ descriptionClause (lit "Incorporate this description: ") (userPrompt s)
      ++ strengthSentence (styleStrength s)
      ++ flagClauses s).
  { unfold basePrompt, baseOpening, descriptionClause, strengthSentence,
      flagClauses.
    destruct (truthy (userPrompt s)); now rewrite <- !app_assoc. }
  assert (Hvar : variantPrompt s action
    = variantOpening action (stylePrompt s)
      ++ descriptionClause (lit "Incorporate this general theme: ") (userPrompt s)
      ++ lit " " ++ flagClauses s).
  { unfold variantPrompt, variantOpening, descriptionClause, flagClauses.
    destruct (truthy (userPrompt s)); now rewrite <- !app_assoc. }
  split; [exact Hbase|]. split; [exact Hvar|]. split; [reflexivity|].
  split.
  { rewrite Hbase. apply includes_app_l. unfold baseOpening.
    apply includes_app_r, includes_self_app. }
  split.
  { rewrite Hvar. apply includes_app_l. unfold variantOpening.
    do 3 apply includes_app_r. apply includes_self_app. }
  split.
  { rewrite Hvar. apply includes_app_l. unfold variantOpening.
    apply includes_app_r, includes_self_app. }
  split.
  { rewrite Hbase. do 2 apply includes_app_r. apply includes_app_l.
    unfold strengthSentence. apply includes_app_r.
    change (lit "%. ") with (lit "%" ++ lit ". ").
    rewrite app_assoc. apply includes_self_app. }
  split.
  { intros strength.
    unfold variantPrompt, stylePrompt, lockClause, faceClause.
    cbn [style customStyle userPrompt lockCharacter faceConsistency
         with_styleStrength].
    reflexivity. }
  split; vm_compute; reflexivity.
Qed.

End PromptFacts.

(* ===================================================================== *)
(** ** Reading back what the serializer writes *)
(* ===================================================================== *)

Section ReadFacts.

Import JsonText.

(** A check on every number below a bound gives the property for each. *)
Lemma checked_below (P : N -> bool) (n : nat) :
  forallb P (map N.of_nat (seq 0 n)) = true ->
  forall c, (c < N.of_nat n)%N -> P c = true.
Proof.
  intros H c Hc. rewrite forallb_forall in H. apply H.
  apply in_map_iff. exists (N.to_nat c). split; [apply N2Nat.id|].
  apply in_seq. lia.
Qed.

Lemma hexValue_hexDigit x : (x < 16)%N -> hexValue (Json.hexDigit x) = Some x.
Proof.
  intros H.
  assert (Hb : (match hexValue (Json.hexDigit x) with
                | Some y => y =? x
                | None => false
                end) = true).
  { revert x H.
    apply (checked_below
             (fun x => match hexValue (Json.hexDigit x) with
                       | Some y => y =? x
                       | None => false
                       end) 16).
    vm_compute. reflexivity. }
  destruct (hexValue (Json.hexDigit x)); [|discriminate].
  apply N.eqb_eq in Hb. now subst.
Qed.

Lemma hex_digits_sum c :
  (c < 65536)%N ->
  (4096 * (N.shiftr c 12 mod 16) + 256 * (N.shiftr c 8 mod 16)
   + 16 * (N.shiftr c 4 mod 16) + c mod 16 = c)%N.
Proof.
  intros H. rewrite !N.shiftr_div_pow2.
  change (2 ^ 12) with 4096. change (2 ^ 8) with 256. change (2 ^ 4) with 16.
  zify. Z.to_euclidean_division_equations. lia.
Qed.

Lemma readBody_unicodeEscape c X :
  (c < 65536)%N ->
  readBody (Json.unicodeEscape c ++ X) = option_map (prepend c) (readBody X).
Proof.
  intros H. unfold Json.unicodeEscape.
  cbn [List.app readBody N.eqb Pos.eqb].
  rewrite !hexValue_hexDigit by (apply N.mod_lt; discriminate).
  now rewrite hex_digits_sum.
Qed.

Lemma readBody_plain c X :
  (32 <= c)%N -> c <> 34 -> c <> 92 ->
  readBody (c :: X) = option_map (prepend c) (readBody X).
Proof.
  intros H32 H34 H92. cbn [readBody].
  apply N.eqb_neq in H34, H92. rewrite H34, H92.
  apply N.ltb_ge in H32. now rewrite H32.
Qed.

Lemma readBody_escapeUnit c X :
  readBody (Json.escapeUnit c ++ X) = option_map (prepend c) (readBody X).
Proof.
  unfold Json.escapeUnit.
  destruct (N.eqb_spec c 8) as [->|H8]; [reflexivity|].
  destruct (N.eqb_spec c 9) as [->|H9]; [reflexivity|].
  destruct (N.eqb_spec c 10) as [->|H10]; [reflexivity|].
  destruct (N.eqb_spec c 12) as [->|H12]; [reflexivity|].
  destruct (N.eqb_spec c 13) as [->|H13]; [reflexivity|].
  destruct (N.eqb_spec c 34) as [->|H34]; [reflexivity|].
  destruct (N.eqb_spec c 92) as [->|H92]; [reflexivity|].
  destruct ((c <? 32) || Json.isLeadSurrogate c || Json.isTrailSurrogate c)
    eqn:Hesc.
  - apply readBody_unicodeEscape.
    unfold Json.isLeadSurrogate, Json.isTrailSurrogate in Hesc.
    apply orb_true_iff in Hesc as [Hesc|Hesc];
      [apply orb_true_iff in Hesc as [Hesc|Hesc]|].
    + apply N.ltb_lt in Hesc. lia.
    + apply andb_true_iff in Hesc as [_ Hesc]. apply N.leb_le in Hesc. lia.
    + apply andb_true_iff in Hesc as [_ Hesc]. apply N.leb_le in Hesc. lia.
  - apply orb_false_iff in Hesc as [Hesc _].
    apply orb_false_iff in Hesc as [Hesc _].
    apply N.ltb_ge in Hesc. now apply readBody_plain.
Qed.

Lemma quoteBody_two c d r :
  Json.quoteBody (c :: d :: r)
  = if Json.isLeadSurrogate c && Json.isTrailSurrogate d
    then c :: d :: Json.quoteBody r
    else Json.escapeUnit c ++ Json.quoteBody (d :: r).
Proof. reflexivity. Qed.

Lemma readBody_quoteBody_bounded n :
  forall s rest,
    (List.length s <= n)%nat ->
    readBody (Json.quoteBody s ++ 34 :: rest) = Some (s, rest).
Proof.
  induction n as [|n IH]; intros s rest Hlen.
  - destruct s; [reflexivity | simpl in Hlen; lia].
  - destruct s as [|c [|d r]]; [reflexivity | |].
    + cbn [Json.quoteBody]. rewrite readBody_escapeUnit. reflexivity.
    + rewrite quoteBody_two.
      destruct (Json.isLeadSurrogate c && Json.isTrailSurrogate d) eqn:Hpair.
      * apply andb_true_iff in Hpair as [Hc Hd].
        unfold Json.isLeadSurrogate in Hc. unfold Json.isTrailSurrogate in Hd.
        apply andb_true_iff in Hc as [Hc _]. apply N.leb_le in Hc.
        apply andb_true_iff in Hd as [Hd _]. apply N.leb_le in Hd.
        cbn [List.app].
        rewrite readBody_plain by lia. rewrite readBody_plain by lia.
        rewrite IH by (simpl in *; lia). reflexivity.
      * rewrite <- app_assoc, readBody_escapeUnit.
        rewrite IH by (simpl in *; lia). reflexivity.
Qed.

(** A quoted string is read back as it was. *)
Lemma readString_quoteJSONString s rest :
  readString (Json.quoteJSONString s ++ rest) = Some (s, rest).
Proof.
  unfold Json.quoteJSONString, readString, dquote. cbn [List.app].
  rewrite <- app_assoc. cbn [List.app N.eqb Pos.eqb].
  now apply (readBody_quoteBody_bounded (List.length s)).
Qed.

Lemma takeDigits_units u rest :
  noDigitAhead rest -> takeDigits (units_of_uint u ++ rest) = (u, rest).
Proof.
  intros Hrest. induction u; cbn [units_of_uint List.app];
    try (cbn [takeDigits digit_unit N.add Pos.add digitOf N.eqb Pos.eqb];
         rewrite IHu; reflexivity).
  destruct rest as [|c r]; [reflexivity|].
  cbn [takeDigits]. cbn in Hrest. now rewrite Hrest.
Qed.

Lemma to_uint_not_nil n : N.to_uint n <> Decimal.Nil.
Proof.
  destruct n as [|p]; [discriminate|].
  apply DecimalPos.Unsigned.to_uint_nonnil.
Qed.

(** A written number is read back as it was. *)
Lemma readNumber_of_number n rest :
  noDigitAhead rest -> readNumber (of_number n ++ rest) = Some (n, rest).
Proof.
  intros Hrest. unfold readNumber, of_number.
  rewrite takeDigits_units by assumption.
  pose proof (to_uint_not_nil n) as Hnn.
  pose proof (DecimalN.Unsigned.of_to n) as Hof.
  destruct (N.to_uint n); [congruence| | | | | | | | | |]; now rewrite Hof.
Qed.

(** The first unit of a written number is a digit. *)
Lemma of_number_head n :
  exists c t, of_number n = c :: t /\ (48 <= c <= 57)%N.
Proof.
  unfold of_number. pose proof (to_uint_not_nil n) as Hnn.
  destruct (N.to_uint n); [congruence| | | | | | | | | |];
    cbn [units_of_uint]; eexists; eexists; (split; [reflexivity|]);
    vm_compute; split; discriminate.
Qed.

(** A serialized value is read back as it was, when no digit follows. *)
Lemma readValue_serialized v text rest :
  Json.serializeValue v = Some text -> noDigitAhead rest ->
  readValue (text ++ rest) = Some (v, rest).
Proof.
  destruct v as [|str|n|[|]]; cbn [Json.serializeValue]; intros [= <-] Hrest.
  - pose proof (readString_quoteJSONString str rest) as H.
    unfold readString, Json.quoteJSONString, dquote in H.
    unfold Json.quoteJSONString, dquote, readValue.
    cbn [List.app N.eqb Pos.eqb] in *. now rewrite H.
  - destruct (of_number_head n) as (c & t & Heq & Hc).
    pose proof (readNumber_of_number n rest Hrest) as H.
    rewrite Heq in *. cbn [List.app] in *. unfold readValue.
    assert (H34 : (c =? 34) = false) by (apply N.eqb_neq; lia).
    assert (H116 : (116 =? c) = false) by (apply N.eqb_neq; lia).
    assert (H102 : (102 =? c) = false) by (apply N.eqb_neq; lia).
    rewrite H34.
    change (lit "true") with [116; 114; 117; 101].
    change (lit "false") with [102; 97; 108; 115; 101].
    cbn [startsWith]. rewrite H116, H102. cbn [andb]. now rewrite H.
  - reflexivity.
  - reflexivity.
Qed.

(** A serialized value does not start with white space. *)
Lemma serialized_head v text :
  Json.serializeValue v = Some text ->
  exists c t, text = c :: t /\ isSpace c = false.
Proof.
  destruct v as [|str|n|[|]]; cbn [Json.serializeValue]; intros [= <-].
  - eexists; eexists. split; [reflexivity|]. reflexivity.
  - destruct (of_number_head n) as (c & t & Heq & Hc).
    exists c, t. split; [exact Heq|]. unfold isSpace.
    repeat (apply orb_false_iff; split); apply N.eqb_neq; lia.
  - eexists; eexists. split; [reflexivity|]. reflexivity.
  - eexists; eexists. split; [reflexivity|]. reflexivity.
Qed.

(** One member: key, colon, value, and then a comma or the closing
    brace. *)
Lemma readMembers_step fuel k text v Y :
  Json.serializeValue v = Some text -> noDigitAhead Y ->
  readMembers (S fuel) (Json.quoteJSONString k ++ lit ": " ++ text ++ Y)
  = match skipSpace Y with
    | 44 :: s4 =>
      match readMembers fuel (skipSpace s4) with
      | Some more => Some ((k, v) :: more)
      | None => None
      end
    | 125 :: s4 =>
      match skipSpace s4 with
      | [] => Some [(k, v)]
      | _ :: _ => None
      end
    | _ => None
    end.
Proof.
  intros Htext HY. cbn [readMembers].
  rewrite readString_quoteJSONString.
  change (lit ": ") with [58; 32]. cbn [List.app skipSpace].
  change (isSpace 58) with false. change (isSpace 32) with true. cbv iota.
  destruct (serialized_head v text Htext) as (c & t & Heq & Hc).
  assert (Hskip : skipSpace (text ++ Y) = text ++ Y).
  { rewrite Heq. cbn [List.app skipSpace]. now rewrite Hc. }
  change (skipSpace (32 :: text ++ Y)) with (skipSpace (text ++ Y)).
  rewrite Hskip, (readValue_serialized v text Y Htext HY). reflexivity.
Qed.

Lemma members_defined o :
  Forall2 (fun m kv => fst m = fst kv
                       /\ Json.serializeValue (snd kv) = Some (snd m))
          (Json.members o) (defined o).
Proof.
  induction o as [|[k v] o IH]; [constructor|].
  destruct v as [|str|n|[|]]; cbn [Json.members Json.serializeValue defined];
    try exact IH; (constructor; [split; reflexivity | exact IH]).
Qed.

Lemma joinLines_two l l' ls :
  Json.joinLines (l :: l' :: ls)
  = l ++ lit "," ++ [10] ++ Json.joinLines (l' :: ls).
Proof. reflexivity. Qed.

Lemma skipSpace_line k text Y :
  skipSpace (Json.memberLine (lit "  ") (k, text) ++ Y)
  = Json.quoteJSONString k ++ lit ": " ++ text ++ Y.
Proof.
  unfold Json.memberLine. cbn [fst snd]. rewrite <- !app_assoc. reflexivity.
Qed.

(** The lines of an object are read back as its members. *)
Lemma readMembers_lines ms kvs :
  Forall2 (fun m kv => fst m = fst kv
                       /\ Json.serializeValue (snd kv) = Some (snd m)) ms kvs ->
  ms <> [] ->
  forall fuel,
    (List.length kvs <= fuel)%nat ->
    readMembers fuel
      (skipSpace (Json.joinLines (map (Json.memberLine (lit "  ")) ms)
                  ++ [10] ++ lit "}"))
    = Some kvs.
Proof.
  induction 1 as [|[k text] [k' v] ms kvs [Hk Htext] Hrest IH]; [congruence|].
  intros _ fuel Hfuel. cbn [fst snd] in Hk, Htext. subst k'.
  destruct fuel as [|fuel]; [simpl in Hfuel; lia|].
  destruct ms as [|m' ms'].
  - inversion Hrest; subst.
    cbn [map Json.joinLines]. rewrite skipSpace_line.
    rewrite (readMembers_step fuel k text v ([10] ++ lit "}") Htext);
      [reflexivity | reflexivity].
  - cbn [map]. rewrite joinLines_two. rewrite <- !app_assoc.
    rewrite skipSpace_line.
    rewrite (readMembers_step fuel k text v _ Htext); [|reflexivity].
    change (skipSpace (lit "," ++ [10] ++ ?X)) with (44 :: 10 :: X).
    change (lit ",") with [44]. cbn [List.app].
    change (skipSpace (44 :: ?X)) with (44 :: X).
    cbv iota.
    change (Json.memberLine (lit "  ") m' :: map (Json.memberLine (lit "  ")) ms')
      with (map (Json.memberLine (lit "  ")) (m' :: ms')).
    match goal with
    | |- context [skipSpace (10 :: ?X)] =>
      change (skipSpace (10 :: X)) with (skipSpace X)
    end.
    rewrite IH; [reflexivity | discriminate | simpl in Hfuel; lia].
Qed.

Lemma skipSpace_length s : (List.length (skipSpace s) <= List.length s)%nat.
Proof.
  induction s as [|c r IH]; simpl; [lia|].
  destruct (isSpace c); simpl; lia.
Qed.

(** The text of the lines starts, after the indentation, with the quote of
    the first key, and is at least as long as the number of members. *)
Lemma lines_shape ms tail :
  ms <> [] ->
  (exists X,
      skipSpace (Json.joinLines (map (Json.memberLine (lit "  ")) ms) ++ tail)
      = 34 :: X)
  /\ (List.length ms
      <= List.length
           (skipSpace (Json.joinLines (map (Json.memberLine (lit "  ")) ms)
                       ++ tail)))%nat.
Proof.
  induction ms as [|[k text] ms IH]; [congruence|]. intros _.
  destruct ms as [|m' ms'].
  - cbn [map Json.joinLines]. rewrite skipSpace_line. split.
    + eexists. unfold Json.quoteJSONString, dquote. reflexivity.
    + unfold Json.quoteJSONString. simpl. lia.
  - cbn [map]. rewrite joinLines_two. rewrite <- !app_assoc.
    rewrite skipSpace_line. split.
    + eexists. unfold Json.quoteJSONString, dquote. reflexivity.
    + destruct IH as [_ IH]; [discriminate|].
      cbn [map] in IH.
      pose proof (skipSpace_length
                    (Json.joinLines (Json.memberLine (lit "  ") m'
                                     :: map (Json.memberLine (lit "  ")) ms')
                     ++ tail)) as Hskip.
      rewrite !length_app. unfold Json.quoteJSONString.
      rewrite !length_app in *. simpl in *. lia.
Qed.

(** Reading a serialized object gives back its defined properties, in
    order. *)
Lemma parse_stringify2 o : parse (Json.stringify2 o) = Some (defined o).
Proof.
  unfold Json.stringify2, Json.render.
  pose proof (members_defined o) as H.
  destruct (Json.members o) as [|m ms] eqn:E.
  - inversion H. reflexivity.
  - unfold parse. change (lit "{") with [123]. cbn [List.app].
    change (skipSpace (123 :: ?X)) with (123 :: X). cbv iota.
    match goal with
    | |- context [skipSpace (10 :: ?X)] =>
      change (skipSpace (10 :: X)) with (skipSpace X)
    end.
    destruct (lines_shape (m :: ms) ([10] ++ lit "}")) as [(X & HX) Hlen];
      [discriminate|].
    pose proof (readMembers_lines (m :: ms) (defined o) H) as Hread.
    rewrite (Forall2_length H) in Hlen.
    specialize (Hread ltac:(discriminate) _ Hlen).
    cbn [List.app] in *. rewrite HX in *. exact Hread.
Qed.

(** The field of a serialized object is its defined property with that
    key. *)
Lemma field_stringify2 o key :
  field (Json.stringify2 o) key = lookup key (defined o).
Proof. unfold field. now rewrite parse_stringify2. Qed.

End ReadFacts.

(* ===================================================================== *)
(** ** Metadata export *)
(* ===================================================================== *)

Section ExportFacts.

Lemma quoteJSONString_ink_wash :
  Json.quoteJSONString (lit "ink wash") = quoted (lit "ink wash").
Proof. reflexivity. Qed.

Lemma quoteJSONString_styleKey k :
  Json.quoteJSONString (styleKey k) = quoted (styleKey k).
Proof. destruct k; reflexivity. Qed.

(** The members of the exported document: every property of [metadata] but
    an undefined [customStyle]. *)
Lemma members_metadata s timestamp :
  Json.members (metadata s timestamp)
  = (lit "style", quoted (styleKey (style s)))
    :: (if Style_eqb (style s) custom
        then [(lit "customStyle", Json.quoteJSONString (customStyle s))]
        else [])
    ++ [ (lit "styleStrength", of_number (styleStrength s));
         (lit "userPrompt", Json.quoteJSONString (userPrompt s));
         (lit "lockCharacter",
          if lockCharacter s then lit "true" else lit "false");
         (lit "faceConsistency",
          if faceConsistency s then lit "true" else lit "false");
         (lit "textIntent", Json.quoteJSONString (textIntent s));
         (lit "textMode", quoted (textModeKey (textMode s)));
         (lit "timestamp", Json.quoteJSONString timestamp);
         (lit "model", quoted API_MODEL) ].
Proof.
  unfold metadata. cbn [Json.members Json.serializeValue].
  rewrite quoteJSONString_styleKey.
  replace (Json.quoteJSONString (textModeKey (textMode s)))
    with (quoted (textModeKey (textMode s)))
    by (destruct (textMode s); reflexivity).
  replace (Json.quoteJSONString API_MODEL) with (quoted API_MODEL)
    by reflexivity.
  destruct (Style_eqb (style s) custom), (lockCharacter s), (faceConsistency s);
    reflexivity.
Qed.

Lemma Style_eqb_custom k : Style_eqb k custom = true <-> k = custom.
Proof. destruct k; simpl; split; congruence. Qed.

(** The properties of [metadata] that are written: all but an undefined
    [customStyle]. *)
Lemma defined_metadata s timestamp :
  defined (metadata s timestamp)
  = (lit "style", Json.Str (styleKey (style s)))
    :: (if Style_eqb (style s) custom
        then [(lit "customStyle", Json.Str (customStyle s))]
        else [])
    ++ [ (lit "styleStrength", Json.Num (styleStrength s));
         (lit "userPrompt", Json.Str (userPrompt s));
         (lit "lockCharacter", Json.Boolean (lockCharacter s));
         (lit "faceConsistency", Json.Boolean (faceConsistency s));
         (lit "textIntent", Json.Str (textIntent s));
         (lit "textMode", Json.Str (textModeKey (textMode s)));
         (lit "timestamp", Json.Str timestamp);
         (lit "model", Json.Str API_MODEL) ].
Proof.
  unfold metadata. cbn [defined].
  destruct (Style_eqb (style s) custom); reflexivity.
Qed.

(** Reading a field back from the text of the exported document. *)
Lemma exported_field s timestamp key :
  JsonText.field (Json.stringify2 (metadata s timestamp)) key
  = JsonText.lookup key (defined (metadata s timestamp)).
Proof. apply field_stringify2. Qed.

(** C8. The export serializes the settings, the timestamp and the model
    identifier to a JSON document and starts its download as
    [metadata.json]; the state is not changed and nothing is sent.  Reading
    the downloaded text back as JSON gives the settings: every field of the
    text has the value of the corresponding state cell, and with the style
    [custom] the field [customStyle] is the custom style text, whatever it
    is.  In particular, with the style [custom] and the custom style
    [ink wash], the [customStyle] field of the downloaded document is the
    string [ink wash] and its [style] field is the string [custom]. *)
Theorem C8_export_metadata :
  forall s timestamp σ,
    let σ' := exec (handleExportMetadata s timestamp) σ in
    exists document,
      downloads (world σ')
      = downloads (world σ)
        ++ [{| filename := lit "metadata.json"; payload := document |}]
      /\ page σ' = page σ
      /\ sent (world σ') = sent (world σ)
      /\ document = Json.stringify2 (metadata s timestamp)
      /\ JsonText.parse document = Some (defined (metadata s timestamp))
      /\ JsonText.field document (lit "style")
         = Some (Json.Str (styleKey (style s)))
      /\ JsonText.field document (lit "styleStrength")
         = Some (Json.Num (styleStrength s))
      /\ JsonText.field document (lit "userPrompt")
         = Some (Json.Str (userPrompt s))
      /\ JsonText.field document (lit "lockCharacter")
         = Some (Json.Boolean (lockCharacter s))
      /\ JsonText.field document (lit "faceConsistency")
         = Some (Json.Boolean (faceConsistency s))
      /\ JsonText.field document (lit "textIntent")
         = Some (Json.Str (textIntent s))
      /\ JsonText.field document (lit "textMode")
         = Some (Json.Str (textModeKey (textMode s)))
      /\ JsonText.field document (lit "timestamp")
         = Some (Json.Str timestamp)
      /\ JsonText.field document (lit "model") = Some (Json.Str API_MODEL)
      /\ (style s = custom ->
          JsonText.field document (lit "customStyle")
          = Some (Json.Str (customStyle s))
          /\ JsonText.field document (lit "style")
             = Some (Json.Str (lit "custom")))
      /\ (style s = custom ->
          customStyle s = lit "ink wash" ->
          JsonText.field document (lit "customStyle")
          = Some (Json.Str (lit "ink wash"))
          /\ JsonText.field document (lit "style")
             = Some (Json.Str (lit "custom"))).
Proof.
  intros s timestamp σ σ'.
  exists (Json.stringify2 (metadata s timestamp)).
  do 4 (split; [reflexivity|]).
  split; [apply parse_stringify2|].
  rewrite !exported_field, defined_metadata.
  do 9 (split; [destruct (Style_eqb (style s) custom); reflexivity|]).
  split.
  - intros Hstyle. rewrite Hstyle. split; reflexivity.
  - intros Hstyle Hcustom. rewrite Hstyle, Hcustom. split; reflexivity.
Qed.

(** C9. With any preset other than [custom] selected, the exported document
    has no [customStyle] field, whatever text the custom-style cell holds:
    the document does not depend on that cell. *)
Theorem C9_no_customStyle_for_presets :
  forall s timestamp,
    style s <> custom ->
    exportedField s timestamp (lit "customStyle") = None
    /\ map fst (Json.members (metadata s timestamp))
       = [ lit "style"; lit "styleStrength"; lit "userPrompt";
           lit "lockCharacter"; lit "faceConsistency"; lit "textIntent";
           lit "textMode"; lit "timestamp"; lit "model" ]
    /\ forall typed,
         Json.stringify2 (metadata (with_customStyle typed s) timestamp)
         = Json.stringify2 (metadata s timestamp).
Proof.
  intros s timestamp Hpreset.
  assert (Hb : Style_eqb (style s) custom = false).
  { destruct (Style_eqb (style s) custom) eqn:E; [|reflexivity].
    apply Style_eqb_custom in E. contradiction. }
  unfold exportedField. rewrite members_metadata, Hb.
  repeat split.
  intros typed. unfold Json.stringify2. rewrite !members_metadata.
  cbn [style with_customStyle]. rewrite Hb. reflexivity.
Qed.

End ExportFacts.

(* ===================================================================== *)
(** ** The workflow state *)
(* ===================================================================== *)

Section WorkflowFacts.

Variable service : nat -> Genai.Request -> Genai.Outcome.

Lemma imageOf_truthy o u : imageOf o = Some u -> ifTruthy (Some u) = Some u.
Proof.
  destruct o as [response|err]; simpl; [|discriminate].
  apply firstInlineImage_truthy.
Qed.

(** What [generateImage] returns, through [if (result)]. *)
Lemma generateImage_result s promptText σ :
  ifTruthy (fst (generateImage service s promptText σ))
  = match ready s with
    | Some image =>
      imageOf (service (List.length (sent (world σ)))
                       (mkRequest image promptText))
    | None => None
    end.
Proof.
  destruct (ready s) as [image|] eqn:Hready.
  - destruct (ready_inv _ _ Hready) as (client & Hai & Himg).
    rewrite (generateImage_ready service s _ _ _ _ Hai Himg). cbv zeta.
    unfold imageOf. destruct (service _ _) as [response|err]; [|reflexivity].
    destruct (firstInlineImage _) as [u|] eqn:Hu; [|reflexivity].
    cbn [fst]. now apply firstInlineImage_truthy in Hu.
  - now rewrite generateImage_not_ready.
Qed.

(** [generateImage] writes nothing but the error. *)
Lemma generateImage_state s promptText σ :
  exists e,
    page (snd (generateImage service s promptText σ)) = with_error e (page σ)
    /\ (ifTruthy (fst (generateImage service s promptText σ)) = None ->
        e <> None)
    /\ (forall u,
          ifTruthy (fst (generateImage service s promptText σ)) = Some u ->
          e = error (page σ)).
Proof.
  assert (Heta : page σ = with_error (error (page σ)) (page σ))
    by (now destruct (page σ)).
  destruct (ready s) as [image|] eqn:Hready.
  - destruct (ready_inv _ _ Hready) as (client & Hai & Himg).
    rewrite (generateImage_ready service s _ _ _ _ Hai Himg). cbv zeta.
    destruct (service _ _) as [response|err].
    + destruct (firstInlineImage _) as [u|] eqn:Hu.
      * exists (error (page σ)). cbn [fst snd afterRequest page].
        rewrite (firstInlineImage_truthy _ _ Hu).
        repeat split; [exact Heta | discriminate].
      * eexists. cbn [fst snd afterError afterRequest page ifTruthy].
        repeat split; [discriminate | discriminate].
    + eexists. cbn [fst snd afterError afterRequest page ifTruthy].
      repeat split; [discriminate | discriminate].
  - rewrite generateImage_not_ready by assumption.
    eexists. cbn [fst snd afterError page ifTruthy].
    repeat split; [discriminate | discriminate].
Qed.

Lemma handleGenerateBase_exec s σ :
  exec (handleGenerateBase service s) σ
  = let σ0 := {| page := with_loadingMessage (lit "正在生成您的主體貼圖...")
                          (with_isLoading true (with_error None (page σ)));
                 world := world σ |} in
    let r := generateImage service s (basePrompt s) σ0 in
    match ifTruthy (fst r) with
    | Some u =>
      {| page := with_isLoading false
                  (with_appStep base_generated
                     (with_baseSticker (Some u) (page (snd r))));
         world := world (snd r) |}
    | None =>
      {| page := with_isLoading false (page (snd r)); world := world (snd r) |}
    end.
Proof.
  unfold handleGenerateBase, exec, bind, setError, setIsLoading,
    setLoadingMessage, setBaseSticker, setAppStep, setState, ret.
  cbn [page world]. cbv zeta.
  destruct (generateImage service s (basePrompt s) _) as [result σ1].
  cbn [fst snd]. destruct (ifTruthy result); reflexivity.
Qed.

(** The base generation: on success the sticker is stored and the state
    becomes [base_generated]; on failure both stay and an error is set. *)
Lemma handleGenerateBase_spec s σ :
  let σ' := exec (handleGenerateBase service s) σ in
  isLoading (page σ') = false
  /\ uploadedImage (page σ') = uploadedImage (page σ)
  /\ ai (page σ') = ai (page σ)
  /\ variants (page σ') = variants (page σ)
  /\ consentChecked (page σ') = consentChecked (page σ)
  /\ match baseOutcome service s σ with
     | Some u =>
       appStep (page σ') = base_generated /\ baseSticker (page σ') = Some u
       /\ error (page σ') = None
     | None =>
       appStep (page σ') = appStep (page σ)
       /\ baseSticker (page σ') = baseSticker (page σ)
       /\ error (page σ') <> None
     end.
Proof.
  intros σ'. subst σ'. rewrite handleGenerateBase_exec. cbv zeta.
  set (σ0 := {| page := with_loadingMessage _ _; world := _ |}).
  pose proof (generateImage_result s (basePrompt s) σ0) as Hres.
  destruct (generateImage_state s (basePrompt s) σ0) as (e & Happ & Hfail & Hok).
  change (sent (world σ0)) with (sent (world σ)) in Hres.
  fold (baseOutcome service s σ) in Hres.
  destruct (generateImage service s (basePrompt s) σ0) as [result σ1].
  cbn [fst snd] in *. rewrite Hres.
  destruct (baseOutcome service s σ) as [u|].
  - cbn [page]. rewrite Happ. rewrite (Hok u Hres). repeat split.
  - cbn [page]. rewrite Happ. repeat split. cbn. now apply Hfail.
Qed.

Lemma generateVariants_appStep s actions σ :
  appStep (page (exec (generateVariants service s actions) σ)) = variants_generated.
Proof. rewrite generateVariants_spec. reflexivity. Qed.

(** C2 (amended). The workflow state is one of [upload], [base_generated],
    [variants_generated].  A base generation, from the main button or from
    the regenerate button, sets it to [base_generated] when an image comes
    back, whatever it was before, and leaves it as it was otherwise.  A
    variant batch (random or custom with at least one request) sets it to
    [variants_generated], whether or not the captions succeed.  A file that
    is read successfully sets it to [upload], and no other action of the
    page changes it; so it becomes [upload] only through an upload. *)
Theorem C2_workflow_state_transitions :
  forall e σ,
    let before := appStep (page σ) in
    let after := appStep (page (step service e σ)) in
    (after = upload \/ after = base_generated \/ after = variants_generated)
    /\ match e with
       | ChooseFile (Some f) =>
         match read f with
         | ReadOk _ _ => after = upload
         | ReadError => after = before
         end
       | ClickGenerateBase | ClickRegenerate =>
         match baseOutcome service (page σ) σ with
         | Some _ => after = base_generated
         | None => after = before
         end
       | ClickConfirmVariants _ | ClickResample _ => after = variants_generated
       | ClickCustomVariants =>
         match parseCustomVariants (customVariantsPrompt (page σ)) with
         | [] => after = before
         | _ :: _ => after = variants_generated
         end
       | _ => after = before
       end
    /\ (after = upload ->
        before = upload
        \/ exists f data mime, e = ChooseFile (Some f) /\ read f = ReadOk data mime).
Proof.
  intros e σ before after.
  assert (Hcases :
    match e with
    | ChooseFile (Some f) =>
      match read f with
      | ReadOk _ _ => after = upload
      | ReadError => after = before
      end
    | ClickGenerateBase | ClickRegenerate =>
      match baseOutcome service (page σ) σ with
      | Some _ => after = base_generated
      | None => after = before
      end
    | ClickConfirmVariants _ | ClickResample _ => after = variants_generated
    | ClickCustomVariants =>
      match parseCustomVariants (customVariantsPrompt (page σ)) with
      | [] => after = before
      | _ :: _ => after = variants_generated
      end
    | _ => after = before
    end).
  { subst before after. unfold step.
    destruct e as [file| | | | | | | | | | | | | | | | |];
      cbn [dispatch]; try reflexivity.
    - destruct file as [f|]; [|reflexivity].
      unfold handleFileChange. destruct (read f); reflexivity.
    - pose proof (handleGenerateBase_spec (page σ) σ) as H. cbv zeta in H.
      destruct H as (_ & _ & _ & _ & _ & H).
      destruct (baseOutcome service (page σ) σ); tauto.
    - destruct (baseSticker (page σ)); reflexivity.
    - pose proof (handleGenerateBase_spec (page σ) σ) as H. cbv zeta in H.
      destruct H as (_ & _ & _ & _ & _ & H).
      destruct (baseOutcome service (page σ) σ); tauto.
    - unfold handleGenerateVariants, exec, bind, setLoadingMessage, setState.
      apply generateVariants_appStep.
    - unfold handleGenerateVariants, exec, bind, setLoadingMessage, setState.
      apply generateVariants_appStep.
    - unfold handleGenerateCustomVariants.
      destruct (parseCustomVariants _) as [|a rest]; [reflexivity|].
      unfold exec, bind, setLoadingMessage, setState.
      apply generateVariants_appStep. }
  split; [destruct after; tauto|].
  split; [exact Hcases|].
  intros Hup.
  destruct e as [file| | | | | | | | | | | | | | | | |];
    try (left; congruence).
  - destruct file as [f|]; [|left; congruence].
    destruct (read f) as [data mime|] eqn:Hread; [|left; congruence].
    right. now exists f, data, mime.
  - destruct (baseOutcome service (page σ) σ); [congruence | left; congruence].
  - destruct (baseOutcome service (page σ) σ); [congruence | left; congruence].
  - destruct (parseCustomVariants _); [left; congruence | congruence].
Qed.

End WorkflowFacts.

(* ===================================================================== *)
(** ** The controls that start a base generation *)
(* ===================================================================== *)

Section ButtonFacts.

Variable service : nat -> Genai.Request -> Genai.Outcome.

(** The main button is disabled exactly when there is no image, or the
    consent box is not ticked, or a generation is running. *)
Lemma isGenerateButtonDisabled_iff s :
  isGenerateButtonDisabled s = true
  <-> uploadedImage s = None \/ consentChecked s = false \/ isLoading s = true.
Proof.
  unfold isGenerateButtonDisabled.
  destruct (uploadedImage s), (consentChecked s), (isLoading s); simpl;
    split; intros H; try reflexivity; try discriminate; auto;
    destruct H as [H|[H|H]]; discriminate.
Qed.

Lemma main_button_guarded s :
  uploadedImage s = None \/ consentChecked s = false \/ isLoading s = true ->
  ~ available s ClickGenerateBase.
Proof.
  intros H Havail. apply isGenerateButtonDisabled_iff in H.
  cbn in Havail. congruence.
Qed.

(** While a generation is running the results panel shows the loader, so
    the regenerate button is not there. *)
Lemma regenerate_hidden_while_loading s :
  isLoading s = true -> ~ available s ClickRegenerate.
Proof.
  intros Hl [Hshown _]. unfold galleryShown in Hshown.
  rewrite Hl in Hshown. discriminate.
Qed.

Lemma generateVariants_frame s actions σ :
  let σ' := exec (generateVariants service s actions) σ in
  baseSticker (page σ') = baseSticker (page σ)
  /\ uploadedImage (page σ') = uploadedImage (page σ).
Proof. cbv zeta. rewrite generateVariants_spec. split; reflexivity. Qed.

Lemma baseOutcome_ready s σ u :
  baseOutcome service s σ = Some u -> uploadedImage s <> None.
Proof.
  unfold baseOutcome, ready.
  destruct (ai s); [|discriminate]. destruct (uploadedImage s); discriminate.
Qed.

(** A stored base sticker comes with an uploaded image: this is kept by
    every action. *)
Lemma step_keeps_image e σ :
  (hasBaseSticker (page σ) = true -> uploadedImage (page σ) <> None) ->
  hasBaseSticker (page (step service e σ)) = true ->
  uploadedImage (page (step service e σ)) <> None.
Proof.
  intros Inv. unfold step, hasBaseSticker in *.
  assert (Hbase :
    match baseSticker (page (exec (handleGenerateBase service (page σ)) σ)) with
    | Some b => truthy b
    | None => false
    end = true ->
    uploadedImage (page (exec (handleGenerateBase service (page σ)) σ)) <> None).
  { pose proof (handleGenerateBase_spec service (page σ) σ) as H.
    cbv zeta in H. destruct H as (_ & Himg & _ & _ & _ & H).
    rewrite Himg.
    destruct (baseOutcome service (page σ) σ) as [u|] eqn:Hout.
    - intros _. exact (baseOutcome_ready _ _ _ Hout).
    - destruct H as (_ & Hsame & _). rewrite Hsame. exact Inv. }
  assert (Hbatch : forall actions σ0,
    baseSticker (page σ0) = baseSticker (page σ) ->
    uploadedImage (page σ0) = uploadedImage (page σ) ->
    match baseSticker (page (exec (generateVariants service (page σ) actions) σ0))
    with
    | Some b => truthy b
    | None => false
    end = true ->
    uploadedImage (page (exec (generateVariants service (page σ) actions) σ0))
    <> None).
  { intros actions σ0 Hb Hu.
    destruct (generateVariants_frame (page σ) actions σ0) as [-> ->].
    rewrite Hb, Hu. exact Inv. }
  destruct e as [file| | | | | | | | | | | | | | | | |]; cbn [dispatch];
    try exact Inv; try exact Hbase.
  - destruct file as [f|]; [|exact Inv].
    unfold handleFileChange. destruct (read f); [discriminate | exact Inv].
  - destruct (baseSticker (page σ)) eqn:Hb; cbn; rewrite ?Hb; exact Inv.
  - unfold handleGenerateVariants, exec, bind, setLoadingMessage, setState.
    now apply Hbatch.
  - unfold handleGenerateVariants, exec, bind, setLoadingMessage, setState.
    now apply Hbatch.
  - unfold handleGenerateCustomVariants.
    destruct (parseCustomVariants _); [exact Inv|].
    unfold exec, bind, setLoadingMessage, setState. now apply Hbatch.
Qed.

Lemma run_keeps_image es :
  forall σ,
    (hasBaseSticker (page σ) = true -> uploadedImage (page σ) <> None) ->
    hasBaseSticker (page (run service es σ)) = true ->
    uploadedImage (page (run service es σ)) <> None.
Proof.
  induction es as [|e rest IH]; intros σ Inv; [exact Inv|].
  cbn [run]. apply IH. now apply step_keeps_image.
Qed.

(** Wherever the regenerate button is shown, an image is uploaded and no
    generation is running. *)
Lemma regenerate_shown_with_image apiKey es :
  let σ := run service es (start apiKey) in
  available (page σ) ClickRegenerate ->
  uploadedImage (page σ) <> None /\ isLoading (page σ) = false.
Proof.
  intros σ [Hshown _]. unfold galleryShown in Hshown.
  apply andb_true_iff in Hshown as [Hl Hb]. split.
  - apply run_keeps_image; [discriminate | exact Hb].
  - now destruct (isLoading (page σ)).
Qed.

End ButtonFacts.

(** C7. The guard of the main button is not on the regenerate button.
    After a photo, the consent, a base sticker, and the consent box cleared
    again, the main button is disabled, but the regenerate button is shown
    and enabled, it calls [handleGenerateBase], and a request is sent. *)
Theorem C7_regenerate_ignores_consent :
  let σ := run alwaysPng consentWithdrawn (start apiKey0) in
  allowed alwaysPng consentWithdrawn (start apiKey0)
  /\ consentChecked (page σ) = false
  /\ isGenerateButtonDisabled (page σ) = true
  /\ available (page σ) ClickRegenerate
  /\ dispatch alwaysPng (page σ) ClickRegenerate
     = handleGenerateBase alwaysPng (page σ)
  /\ List.length (sent (world (step alwaysPng ClickRegenerate σ)))
     = S (List.length (sent (world σ))).
Proof.
  split.
  { repeat split; vm_compute; reflexivity. }
  repeat split; vm_compute; reflexivity.
Qed.

(* ===================================================================== *)
(** ** Runs on sample inputs *)
(* ===================================================================== *)

Example lit_ascii : lit "ok, 1" = [111; 107; 44; 32; 49].
Proof. reflexivity. Qed.

Example lit_cjk : lit "可愛" = [21487; 24859].
Proof. reflexivity. Qed.

(** More than 12 entries: the first 12 are kept. *)
Example parse_fourteen :
  parseCustomVariants (lit "a,b,c,d,e,f,g,h,i,j,k,l,m,n")
  = [lit "a"; lit "b"; lit "c"; lit "d"; lit "e"; lit "f";
     lit "g"; lit "h"; lit "i"; lit "j"; lit "k"; lit "l"].
Proof. vm_compute. reflexivity. Qed.

(** Empty entries do not count; the ideographic space is white space, the
    full-width comma is not a separator. *)
Example parse_blank_entries :
  parseCustomVariants (lit " 生氣 ,, 　,不要，不可以 ")
  = [lit "生氣"; lit "不要，不可以"].
Proof. vm_compute. reflexivity. Qed.

Lemma C5_witness :
  parseCustomVariants (lit "yes, no, ok")
  = firstn 12 (filter truthy [lit "yes"; lit "no"; lit "ok"])
  /\ List.length (parseCustomVariants (lit "yes, no, ok"))
     = Nat.min 12 (List.length (filter truthy [lit "yes"; lit "no"; lit "ok"])).
Proof.
  destruct C5_parse_custom_variants as (_ & _ & H).
  apply (H (lit "yes, no, ok") [lit "yes"; lit " no"; lit " ok"]).
  - repeat split; [discriminate|].
    repeat constructor; vm_compute; intuition discriminate.
  - repeat constructor.
    + exists [], []. vm_compute. repeat split; constructor.
    + exists [32], []. vm_compute. repeat split; repeat constructor.
    + exists [32], []. vm_compute. repeat split; repeat constructor.
Defined.

(** Of the three captions sent after the base sticker, the second is
    rejected: two variants are kept, in order, and the error names it. *)
Example batch_with_one_failure :
  let σ' := exec (generateVariants thirdCallRejected (page baseDone) yesNoOk)
                 baseDone in
  map (fun v => (id v, label v)) (variants (page σ'))
  = [(lit "v1", lit "yes"); (lit "v2", lit "ok")]
  /\ error (page σ') = Some (variantFailed (lit "no"))
  /\ List.length (sent (world σ')) = 4%nat
  /\ appStep (page σ') = variants_generated.
Proof. vm_compute. repeat split. Qed.

Lemma C1_witness :
  let σ' := exec (generateVariants thirdCallRejected (page baseDone) yesNoOk)
                 baseDone in
  List.length (variants (page σ')) = 2%nat /\ error (page σ') <> None.
Proof.
  destruct (C1_variants_are_the_successful_outputs
              thirdCallRejected (page baseDone) yesNoOk baseDone)
    as (_ & _ & _ & _ & _ & _ & _ & _ & H).
  apply H; vm_compute; reflexivity.
Defined.

(** C2, as stated, fails: with a service that always answers, the main
    button takes the page from [variants_generated] back to
    [base_generated]; and with a service that rejects every call after the
    first, confirming the base sticker moves the page on to
    [variants_generated] although no variant was produced. *)
Lemma C2_counterexample :
  (allowed alwaysPng (upToVariants ++ [ClickGenerateBase]) (start apiKey0)
   /\ appStep (page (run alwaysPng upToVariants (start apiKey0)))
      = variants_generated
   /\ appStep (page (run alwaysPng (upToVariants ++ [ClickGenerateBase])
                        (start apiKey0)))
      = base_generated)
  /\ (allowed onlyFirstCall upToVariants (start apiKey0)
      /\ appStep (page (run onlyFirstCall (prepared ++ [ClickGenerateBase])
                           (start apiKey0)))
         = base_generated
      /\ appStep (page (run onlyFirstCall upToVariants (start apiKey0)))
         = variants_generated
      /\ variants (page (run onlyFirstCall upToVariants (start apiKey0))) = []
      /\ error (page (run onlyFirstCall upToVariants (start apiKey0))) <> None).
Proof.
  split.
  - split; [|split; vm_compute; reflexivity].
    cbv beta iota delta [allowed available upToVariants prepared page].
    repeat split; try (vm_compute; reflexivity); apply Permutation_refl.
  - split; [|repeat split; vm_compute; try reflexivity; discriminate].
    cbv beta iota delta [allowed available upToVariants prepared page].
    repeat split; try (vm_compute; reflexivity); apply Permutation_refl.
Qed.

Lemma C2_witness :
  let σ := run alwaysPng upToVariants (start apiKey0) in
  appStep (page σ) = upload
  \/ exists f data mime,
       ChooseFile (Some photo) = ChooseFile (Some f) /\ read f = ReadOk data mime.
Proof.
  destruct (C2_workflow_state_transitions
              alwaysPng (ChooseFile (Some photo))
              (run alwaysPng upToVariants (start apiKey0)))
    as (_ & _ & H).
  apply H. vm_compute. reflexivity.
Defined.

Lemma pngResponse_first : FirstImage (responseParts pngResponse) pngBlob.
Proof.
  exists [textPart (lit "Here is your sticker")],
         (imagePart (lit "image/png") (lit "iVBORw0KGgo=")),
         [imagePart (lit "image/webp") (lit "UklGRg==")].
  repeat split. repeat constructor.
Qed.

Lemma textOnlyResponse_noImage : NoImage (responseParts textOnlyResponse).
Proof. vm_compute. repeat constructor. Qed.

Lemma C3_witness :
  (fst (generateImage alwaysPng (page baseDone) somePrompt baseDone)
   = Some (lit "data:" ++ Genai.mimeType pngBlob ++ lit ";base64,"
           ++ Genai.data pngBlob)
   /\ page (snd (generateImage alwaysPng (page baseDone) somePrompt baseDone))
      = page baseDone)
  /\ (fst (generateImage alwaysTextOnly (page baseDone) somePrompt baseDone)
      = None
      /\ error (page (snd (generateImage alwaysTextOnly (page baseDone)
                                         somePrompt baseDone)))
         = Some (lit "圖片生成失敗: API 未返回圖片。"))
  /\ (error (page (snd (generateImage onlyFirstCall (page baseDone)
                                      somePrompt baseDone)))
      = Some (lit "圖片生成失敗: " ++ lit "quota exceeded")
      /\ error (page (snd (generateImage onlyFirstCall (page baseDone)
                                         somePrompt baseDone)))
         <> Some (lit "圖片生成失敗: API 未返回圖片。")).
Proof.
  split; [|split].
  - destruct (C3_generateImage_outcomes
                alwaysPng (page baseDone) (NewGoogleGenAI apiKey0) photoImage
                somePrompt baseDone)
      as (_ & H & _); [vm_compute; reflexivity | vm_compute; reflexivity |].
    apply (H pngResponse pngBlob); [reflexivity | exact pngResponse_first].
  - destruct (C3_generateImage_outcomes
                alwaysTextOnly (page baseDone) (NewGoogleGenAI apiKey0)
                photoImage somePrompt baseDone)
      as (_ & _ & H & _); [vm_compute; reflexivity | vm_compute; reflexivity |].
    apply (H textOnlyResponse); [reflexivity | exact textOnlyResponse_noImage].
  - destruct (C3_generateImage_outcomes
                onlyFirstCall (page baseDone) (NewGoogleGenAI apiKey0)
                photoImage somePrompt baseDone)
      as (_ & _ & _ & H & _); [vm_compute; reflexivity | vm_compute; reflexivity |].
    destruct (H (lit "quota exceeded")) as (_ & Herr & Hdistinct);
      [vm_compute; reflexivity|].
    split; [exact Herr|].
    apply Hdistinct. vm_compute. discriminate.
Defined.

(** The failures of [generateImage] share one [catch]: a call rejected with
    the text the client itself throws for a response without image leaves
    the same result and state as such a response, and a thrown value that
    is not an [Error] is reported with a fixed text. *)
Example generateImage_one_catch :
  generateImage alwaysRejectedNoImage (page baseDone) somePrompt baseDone
  = generateImage alwaysTextOnly (page baseDone) somePrompt baseDone
  /\ error (page (snd (generateImage alwaysThrowsValue (page baseDone)
                                     somePrompt baseDone)))
     = Some (lit "圖片生成失敗: 未知錯誤").
Proof. vm_compute. repeat split. Qed.

(** C4, as stated, fails: the variant prompt is not built with the strength
    percentage.  With the initial settings (strength 70) the base prompt
    contains [70%] and the variant prompt does not, and changing the
    strength to 30 changes the base prompt only. *)
Lemma C4_counterexample :
  let s := initialState apiKey0 in
  includes (basePrompt s) (lit "70%") = true
  /\ includes (variantPrompt s (lit "yes")) (lit "70%") = false
  /\ includes (variantPrompt s (lit "yes")) (lit "%") = false
  /\ variantPrompt (with_styleStrength 30 s) (lit "yes")
     = variantPrompt s (lit "yes")
  /\ Js.eqb (basePrompt (with_styleStrength 30 s)) (basePrompt s) = false.
Proof. vm_compute. repeat split. Qed.

(** The prompts for the initial settings. *)
Example prompts_initial :
  basePrompt (initialState apiKey0)
  = lit "Generate a sticker with a transparent background. The subject should be based on the provided image, but rendered in a "
    ++ quoted (lit "可愛")
    ++ lit " style.  Style strength should be around 70%. Maintain character consistency. "
  /\ variantPrompt (initialState apiKey0) (lit "yes")
     = lit "Based on the character in the image, create a sticker of them showing the emotion or action: "
       ++ quoted (lit "yes") ++ lit ". The style should be "
       ++ quoted (lit "可愛")
       ++ lit " with a transparent background.  Maintain character consistency. ".
Proof. vm_compute. split; reflexivity. Qed.

Lemma C8_witness :
  exists document,
    downloads (world (exec (handleExportMetadata inkWash noon) (start apiKey0)))
    = [{| filename := lit "metadata.json"; payload := document |}]
    /\ JsonText.field document (lit "customStyle")
       = Some (Json.Str (lit "ink wash"))
    /\ JsonText.field document (lit "style") = Some (Json.Str (lit "custom")).
Proof.
  destruct (C8_export_metadata inkWash noon (start apiKey0))
    as (document & Hd & _ & _ & _ & _ & _ & _ & _ & _ & _ & _ & _ & _ & _
        & _ & H).
  exists document. split; [exact Hd|].
  apply H; vm_compute; reflexivity.
Defined.

(** The exported document for the custom style [ink wash], read back. *)
Example export_ink_wash_read :
  JsonText.parse (exportedDocument inkWash noon)
  = Some [ (lit "style", Json.Str (lit "custom"));
           (lit "customStyle", Json.Str (lit "ink wash"));
           (lit "styleStrength", Json.Num 70);
           (lit "userPrompt", Json.Str (lit ""));
           (lit "lockCharacter", Json.Boolean true);
           (lit "faceConsistency", Json.Boolean false);
           (lit "textIntent", Json.Str (lit ""));
           (lit "textMode", Json.Str (lit "guide_only"));
           (lit "timestamp", Json.Str noon);
           (lit "model", Json.Str (lit "gemini-2.5-flash-image-preview")) ].
Proof. vm_compute. reflexivity. Qed.

(** The reader refuses a text that is cut short, and one whose member has
    no value. *)
Example reader_refuses :
  JsonText.parse (firstn 40 (exportedDocument inkWash noon)) = None
  /\ JsonText.parse [123; 34; 97; 34; 58; 125] = None
  /\ JsonText.field (exportedDocument inkWashThenMosaic noon)
                    (lit "customStyle") = None.
Proof. vm_compute. repeat split. Qed.

(** The exported text for the initial settings with the custom style
    [ink wash]. *)
Example export_ink_wash_text :
  Json.stringify2 (metadata inkWash noon)
  = lit "{" ++ [10]
    ++ docLine (lit "style") (quoted (lit "custom")) ++ lit "," ++ [10]
    ++ docLine (lit "customStyle") (quoted (lit "ink wash")) ++ lit "," ++ [10]
    ++ docLine (lit "styleStrength") (lit "70") ++ lit "," ++ [10]
    ++ docLine (lit "userPrompt") (quoted (lit "")) ++ lit "," ++ [10]
    ++ docLine (lit "lockCharacter") (lit "true") ++ lit "," ++ [10]
    ++ docLine (lit "faceConsistency") (lit "false") ++ lit "," ++ [10]
    ++ docLine (lit "textIntent") (quoted (lit "")) ++ lit "," ++ [10]
    ++ docLine (lit "textMode") (quoted (lit "guide_only")) ++ lit "," ++ [10]
    ++ docLine (lit "timestamp") (quoted noon) ++ lit "," ++ [10]
    ++ docLine (lit "model") (quoted (lit "gemini-2.5-flash-image-preview"))
    ++ [10] ++ lit "}".
Proof. vm_compute. reflexivity. Qed.

Lemma C9_witness :
  customStyle inkWashThenMosaic = lit "ink wash"
  /\ exportedField inkWashThenMosaic noon (lit "customStyle") = None.
Proof.
  split; [vm_compute; reflexivity|].
  apply (C9_no_customStyle_for_presets inkWashThenMosaic noon).
  vm_compute. discriminate.
Defined.

Lemma C10_witness :
  error (page (exec (handleGenerateCustomVariants alwaysPng onlySeparators)
                    baseDone))
  = Some (lit "請輸入至少一個有效的情境。")
  /\ sent (world (exec (handleGenerateCustomVariants alwaysPng onlySeparators)
                       baseDone))
     = sent (world baseDone).
Proof.
  destruct (C10_empty_custom_list_is_rejected alwaysPng onlySeparators baseDone)
    as (_ & Herror & Hsent & _).
  - vm_compute.
    repeat (constructor; [first [left; reflexivity | right; reflexivity]|]).
    constructor.
  - split; [exact Herror | exact Hsent].
Defined.

(* ===================================================================== *)
(** ** Reading the chosen file *)
(* ===================================================================== *)

Section ReaderFacts.

Lemma lazyToSemicolon_stops g rest :
  without semicolon g ->
  Forall (fun c => isLineTerminator c = false) g ->
  lazyToSemicolon (g ++ semicolon :: rest) = Some g.
Proof.
  unfold without. induction g as [|c g IH]; intros Hno Hlt; simpl.
  - reflexivity.
  - destruct (N.eqb_spec c semicolon) as [->|_]; [exfalso; apply Hno; now left|].
    inversion Hlt as [|? ? Hc Hg]; subst. rewrite Hc.
    rewrite IH; [reflexivity | | assumption].
    intros H. apply Hno. now right.
Qed.

Lemma lazyToSemicolon_group s g :
  lazyToSemicolon s = Some g ->
  without semicolon g /\ Forall (fun c => isLineTerminator c = false) g.
Proof.
  unfold without. revert g. induction s as [|c r IH]; intros g; simpl; [discriminate|].
  destruct (N.eqb_spec c semicolon) as [->|Hne].
  - intros [= <-]. split; [intros [] | constructor].
  - destruct (isLineTerminator c) eqn:Hlt; [discriminate|].
    destruct (lazyToSemicolon r) as [g'|]; [|discriminate].
    intros [= <-]. destruct (IH g' eq_refl) as [Hno Hall]. split.
    + intros [H|H]; [congruence | contradiction].
    + now constructor.
Qed.

Lemma matchColonGroup_group header g :
  matchColonGroup header = Some g ->
  without semicolon g /\ Forall (fun c => isLineTerminator c = false) g.
Proof.
  induction header as [|c r IH]; simpl; [discriminate|].
  destruct (c =? colon); [|exact IH].
  destruct (lazyToSemicolon r) as [g'|] eqn:Hlazy; [|exact IH].
  intros [= <-]. now apply lazyToSemicolon_group in Hlazy.
Qed.

Lemma split_single sep s p : split sep s = [p] -> ~ In sep s.
Proof.
  revert p. induction s as [|c r IH]; intros p; simpl; [intros _ []|].
  destruct (N.eqb_spec c sep) as [->|Hne].
  - intros [= _ H]. now apply split_not_nil in H.
  - destruct (split sep r) as [|q qs] eqn:Hr; [intros _|intros [= _ ->]].
    + now apply split_not_nil in Hr.
    + intros [H|H]; [congruence|]. now apply (IH q).
Qed.

Lemma fileToBase64_data_url :
  forall mime params payload,
    plainType mime -> without comma params -> without comma payload ->
    fileToBase64
      (Reader.Loaded (lit "data:" ++ mime ++ semicolon :: params
                      ++ comma :: payload))
    = Some {| Reader.data := Some payload; Reader.mimeType := mime |}.
Proof.
  intros mime params payload (Hne & Hcomma & Hsemi & Hlt) Hparams Hpayload.
  unfold fileToBase64.
  assert (Hheader : without comma (lit "data:" ++ mime ++ semicolon :: params)).
  { unfold without in *. rewrite !in_app_iff. cbn [In].
    intros [H|[H|[H|H]]]; try contradiction; try discriminate.
    vm_compute in H. intuition discriminate. }
  replace (lit "data:" ++ mime ++ semicolon :: params ++ comma :: payload)
    with ((lit "data:" ++ mime ++ semicolon :: params) ++ comma :: payload)
    by (now rewrite <- !app_assoc).
  rewrite split_app_sep by exact Hheader.
  rewrite split_without_sep by exact Hpayload.
  cbn [hd nth_error]. cbv zeta.
  change (lit "data:") with [100; 97; 116; 97; colon].
  cbn [matchColonGroup List.app N.eqb Pos.eqb colon].
  rewrite lazyToSemicolon_stops by assumption.
  destruct mime; [congruence | reflexivity].
Qed.


(** X1. A data URL is taken apart again: for a media type that is not
    empty and has no comma, semicolon or line terminator, parameters and a
    payload without comma, [fileToBase64] resolves with the payload as
    data and the media type as MIME type. *)
Theorem X1_fileToBase64_reads_data_url :
  forall mime params payload,
    plainType mime -> without comma params -> without comma payload ->
    fileToBase64
      (Reader.Loaded (lit "data:" ++ mime ++ semicolon :: params
                      ++ comma :: payload))
    = Some {| Reader.data := Some payload; Reader.mimeType := mime |}.
Proof. exact fileToBase64_data_url. Qed.

(** X2. Whatever the reader loads, [fileToBase64] resolves, and with a
    MIME type that is never empty and has no semicolon and no line
    terminator: a header without a usable type gives
    [application/octet-stream].  The data has no comma, and it is
    [undefined] exactly when the loaded text has no comma. *)
Theorem X2_fileToBase64_always_has_a_type :
  forall result,
    exists e,
      fileToBase64 (Reader.Loaded result) = Some e
      /\ truthy (Reader.mimeType e) = true
      /\ without semicolon (Reader.mimeType e)
      /\ Forall (fun c => isLineTerminator c = false) (Reader.mimeType e)
      /\ (matchColonGroup (hd [] (split comma result)) = None
          \/ matchColonGroup (hd [] (split comma result)) = Some [] ->
          Reader.mimeType e = lit "application/octet-stream")
      /\ (forall d, Reader.data e = Some d -> without comma d)
      /\ (Reader.data e = None <-> without comma result).
Proof.
  intros result. unfold fileToBase64. cbv zeta. eexists. split; [reflexivity|].
  cbn [Reader.mimeType Reader.data].
  assert (Hdefault :
    truthy (lit "application/octet-stream") = true
    /\ without semicolon (lit "application/octet-stream")
    /\ Forall (fun c => isLineTerminator c = false)
              (lit "application/octet-stream")).
  { split; [reflexivity|]. split.
    - unfold without. vm_compute. intuition discriminate.
    - vm_compute. repeat constructor. }
  destruct Hdefault as (Hd1 & Hd2 & Hd3).
  split; [|split; [|split; [|split; [|split]]]].
  - destruct (matchColonGroup _) as [[|c g]|]; assumption || reflexivity.
  - destruct (matchColonGroup _) as [[|c g]|] eqn:Hm; try assumption.
    now apply matchColonGroup_group in Hm.
  - destruct (matchColonGroup _) as [[|c g]|] eqn:Hm; try assumption.
    now apply matchColonGroup_group in Hm.
  - intros [-> | ->]; reflexivity.
  - intros d Hd. apply nth_error_In in Hd.
    pose proof (split_no_sep comma result) as Hall.
    rewrite Forall_forall in Hall. now apply Hall.
  - rewrite nth_error_None. split.
    + intros Hlen. pose proof (split_not_nil comma result) as Hnn.
      destruct (split comma result) as [|p [|q qs]] eqn:Hs;
        [congruence | | simpl in Hlen; lia].
      now apply split_single in Hs.
    + intros Hno. rewrite split_without_sep by exact Hno. simpl. lia.
Qed.

End ReaderFacts.

Section UploadFacts.

Variable service : nat -> Genai.Request -> Genai.Outcome.

(** X3. Upload and request compose: when the reader loads the data URL of
    an image [b] (media type not empty and without comma, semicolon or
    line terminator, payload without comma), the file is accepted, the
    stored upload holds the payload and the media type of [b], and the
    next call of the generation client sends [b] itself as the inline
    image, followed by the prompt. *)
Theorem X3_uploaded_image_is_what_is_sent :
  forall b fileUrl promptText client σ,
    plainType (Genai.mimeType b) -> without comma (Genai.data b) ->
    ai (page σ) = Some client ->
    exists f,
      chosenFile fileUrl (Reader.Loaded (dataUri b)) = Usable f
      /\ let σ1 := exec (handleFileChange (Some f)) σ in
         uploadedImage (page σ1)
         = Some {| url := fileUrl; base64 := Genai.data b;
                   mimeType := Genai.mimeType b |}
         /\ exists request,
              sent (world (snd (generateImage service (page σ1) promptText σ1)))
              = sent (world σ) ++ [request]
              /\ Genai.contents request
                 = [ {| Genai.inlineData := Some b; Genai.text := None |};
                     {| Genai.inlineData := None;
                        Genai.text := Some promptText |} ]
              /\ Genai.model request = API_MODEL.
Proof.
  intros b fileUrl promptText client σ Hmime Hdata Hai.
  assert (Hread :
    fileToBase64 (Reader.Loaded (dataUri b))
    = Some {| Reader.data := Some (Genai.data b);
              Reader.mimeType := Genai.mimeType b |}).
  { unfold dataUri.
    change (lit ";base64,") with (semicolon :: lit "base64" ++ [comma]).
    replace (lit "data:" ++ Genai.mimeType b
             ++ (semicolon :: lit "base64" ++ [comma]) ++ Genai.data b)
      with (lit "data:" ++ Genai.mimeType b ++ semicolon :: lit "base64"
            ++ comma :: Genai.data b)
      by (cbn [List.app]; now rewrite <- app_assoc).
    apply fileToBase64_data_url; try assumption.
    unfold without. vm_compute. intuition discriminate. }
  unfold chosenFile. rewrite Hread. cbn [Reader.data Reader.mimeType].
  eexists. split; [reflexivity|]. cbv zeta. split; [reflexivity|].
  set (σ1 := exec (handleFileChange _) σ).
  set (image := {| url := fileUrl; base64 := Genai.data b;
                   mimeType := Genai.mimeType b |}).
  assert (Hai1 : ai (page σ1) = Some client) by exact Hai.
  assert (Himg1 : uploadedImage (page σ1) = Some image) by reflexivity.
  exists (mkRequest image promptText).
  rewrite (generateImage_ready service _ _ _ _ _ Hai1 Himg1). cbv zeta.
  split; [|split; [|reflexivity]].
  - destruct (service _ _) as [response|err];
      [destruct (firstInlineImage _)|]; reflexivity.
  - destruct b; reflexivity.
Qed.

End UploadFacts.

(* ===================================================================== *)
(** ** More on the custom-variants text *)
(* ===================================================================== *)

Section ParseFacts.

Lemma In_firstn {A} n (l : list A) x : In x (firstn n l) -> In x l.
Proof.
  intros H. rewrite <- (firstn_skipn n l). apply in_or_app. now left.
Qed.

Lemma trim_sublist p c : In c (trim p) -> In c p.
Proof.
  destruct (trim_Trimmed p) as (l & r & Hp & _). intros H.
  rewrite Hp. apply in_or_app. right. apply in_or_app. now left.
Qed.

Lemma trim_clean a : startsClean a -> startsClean (rev a) -> trim a = a.
Proof.
  intros Hs He. unfold trim, trimEnd.
  rewrite (trimStart_clean a Hs), (trimStart_clean _ He).
  apply rev_involutive.
Qed.

Lemma parseCustomVariants_entries text :
  Forall goodEntry (parseCustomVariants text).
Proof.
  unfold parseCustomVariants. apply Forall_forall. intros a Ha.
  apply In_firstn, filter_In in Ha. destruct Ha as [Ha Htruthy].
  apply in_map_iff in Ha as (p & <- & Hp).
  destruct (trim_Trimmed p) as (l & r & _ & _ & _ & Hs & He).
  repeat split; trivial.
  - intros E. now rewrite E in Htruthy.
  - intros Hc. apply trim_sublist in Hc.
    pose proof (split_no_sep comma text) as Hall.
    rewrite Forall_forall in Hall. exact (Hall p Hp Hc).
Qed.

Lemma filter_all {A} (f : A -> bool) l :
  Forall (fun x => f x = true) l -> filter f l = l.
Proof.
  induction 1 as [|x l Hx _ IH]; simpl; [reflexivity|]. now rewrite Hx, IH.
Qed.

Lemma map_fixed {A} (f : A -> A) l :
  Forall (fun x => f x = x) l -> map f l = l.
Proof.
  induction 1 as [|x l Hx _ IH]; simpl; [reflexivity|]. now rewrite Hx, IH.
Qed.

Lemma parse_join entries :
  Forall goodEntry entries ->
  (List.length entries <= MAX_CUSTOM_VARIANTS)%nat ->
  parseCustomVariants (join comma entries) = entries.
Proof.
  intros Hgood Hlen. destruct entries as [|a rest]; [reflexivity|].
  unfold parseCustomVariants.
  rewrite split_join.
  - rewrite map_fixed, filter_all.
    + now apply firstn_all2.
    + eapply Forall_impl; [|exact Hgood].
      intros e (Hne & _). now destruct e.
    + eapply Forall_impl; [|exact Hgood].
      intros e (_ & _ & Hs & He). now apply trim_clean.
  - discriminate.
  - eapply Forall_impl; [|exact Hgood]. now intros e (_ & Hc & _).
Qed.

(** X4. Every caption delivered by the parser is well formed: it is not
    empty, has no comma, and neither starts nor ends with white space;
    trimming it again changes nothing. *)
Theorem X4_parsed_captions_are_well_formed :
  forall text,
    Forall (fun a => goodEntry a /\ trim a = a) (parseCustomVariants text).
Proof.
  intros text. pose proof (parseCustomVariants_entries text) as H.
  eapply Forall_impl; [|exact H].
  intros a Ha. split; [exact Ha|].
  destruct Ha as (_ & _ & Hs & He). now apply trim_clean.
Qed.

(** X5. Writing a caption list with commas and parsing it gives the list
    back, for up to 12 well-formed captions; so parsing is idempotent:
    the parsed list, written with commas and parsed again, is itself. *)
Theorem X5_join_then_parse :
  (forall entries,
      Forall goodEntry entries ->
      (List.length entries <= 12)%nat ->
      parseCustomVariants (join comma entries) = entries)
  /\ (forall text,
        parseCustomVariants (join comma (parseCustomVariants text))
        = parseCustomVariants text).
Proof.
  split; [exact parse_join|].
  intros text. apply parse_join; [apply parseCustomVariants_entries|].
  unfold parseCustomVariants. apply firstn_le_length.
Qed.

(** X6. The guard of the custom-variants button never hides a usable text:
    when the text has at least one caption, its trimmed form is not empty,
    so the button is enabled whenever the confirmation area is shown and
    nothing is loading. *)
Theorem X6_custom_button_enabled_for_usable_text :
  forall s,
    parseCustomVariants (customVariantsPrompt s) <> [] ->
    truthy (trim (customVariantsPrompt s)) = true
    /\ (galleryShown s = true -> appStep s = variants_generated ->
        available s ClickCustomVariants).
Proof.
  intros s Hparse.
  assert (Htrim : truthy (trim (customVariantsPrompt s)) = true).
  { destruct (truthy (trim (customVariantsPrompt s))) eqn:E; [reflexivity|].
    exfalso. apply Hparse. apply parseCustomVariants_nil_iff.
    apply truthy_false_iff, trim_nil_iff in E.
    eapply Forall_impl; [|exact E]. intros; now right. }
  split; [exact Htrim|].
  intros Hshown Hstep. cbn. repeat split; trivial.
  rewrite Htrim. unfold galleryShown in Hshown.
  apply andb_true_iff in Hshown as [Hl _].
  now destruct (isLoading s).
Qed.

End ParseFacts.

(* ===================================================================== *)
(** ** The handlers, one action at a time *)
(* ===================================================================== *)

Ltac fields :=
  cbn [page world sent downloads fst snd
       ai uploadedImage consentChecked style customStyle styleStrength
       userPrompt lockCharacter faceConsistency textIntent textMode
       customVariantsPrompt isLoading loadingMessage error appStep
       baseSticker variants
       with_uploadedImage with_consentChecked with_style with_customStyle
       with_styleStrength with_userPrompt with_lockCharacter
       with_faceConsistency with_customVariantsPrompt with_isLoading
       with_loadingMessage with_error with_appStep with_baseSticker
       with_variants afterBatch afterRequest afterError].

Section StepFacts.

Variable service : nat -> Genai.Request -> Genai.Outcome.

(** The base generation as one update of the page and of the world. *)
Lemma handleGenerateBase_step s σ :
  exec (handleGenerateBase service s) σ
  = let p0 := with_loadingMessage (lit "正在生成您的主體貼圖...")
                (with_isLoading true (with_error None (page σ))) in
    {| page :=
         match baseOutcome service s σ with
         | Some u =>
           with_isLoading false
             (with_appStep base_generated (with_baseSticker (Some u) p0))
         | None =>
           with_isLoading false
             (with_error (Some (baseFailure service s σ)) p0)
         end;
       world := {| sent := sent (world σ) ++ baseRequests s;
                   downloads := downloads (world σ) |} |}.
Proof.
  rewrite handleGenerateBase_exec. cbv zeta.
  unfold baseOutcome, baseFailure, baseRequests.
  destruct (ready s) as [image|] eqn:Hready.
  - destruct (ready_inv _ _ Hready) as (client & Hai & Himg).
    rewrite (generateImage_ready service s _ _ _ _ Hai Himg). cbv zeta.
    fields. unfold imageOf.
    destruct (service _ _) as [response|err].
    + destruct (firstInlineImage _) as [u|] eqn:Hu.
      * cbn [fst snd]. rewrite (firstInlineImage_truthy _ _ Hu). reflexivity.
      * reflexivity.
    + reflexivity.
  - rewrite generateImage_not_ready by assumption. fields. cbn [ifTruthy].
    rewrite app_nil_r. now destruct (world σ).
Qed.

Lemma handleGenerateVariants_exec s shuffled σ :
  exec (handleGenerateVariants service s shuffled) σ
  = exec (generateVariants service s (firstn 3 shuffled))
         {| page := with_loadingMessage (lit "正在生成三款隨機變化貼圖...") (page σ);
            world := world σ |}.
Proof. reflexivity. Qed.

Lemma handleGenerateCustomVariants_exec s σ :
  exec (handleGenerateCustomVariants service s) σ
  = match parseCustomVariants (customVariantsPrompt s) with
    | [] => afterError (lit "請輸入至少一個有效的情境。") σ
    | a :: rest =>
      exec (generateVariants service s (a :: rest))
           {| page := with_loadingMessage (lit "正在生成自訂變化貼圖...") (page σ);
              world := world σ |}
    end.
Proof.
  unfold handleGenerateCustomVariants.
  destruct (parseCustomVariants _); reflexivity.
Qed.

(** X7. Only the first candidate of a response is looked at: when it has
    no part with inline data, the call fails with the no-image message
    whatever the later candidates hold, and so does a response without
    candidates. *)
Theorem X7_only_the_first_candidate_counts :
  forall s client image promptText σ response,
    ai s = Some client -> uploadedImage s = Some image ->
    service (List.length (sent (world σ))) (mkRequest image promptText)
    = Genai.Resolved response ->
    (Genai.candidates response = None
     \/ Genai.candidates response = Some []
     \/ exists c more,
          Genai.candidates response = Some (c :: more)
          /\ firstInlineImage
               (responseParts {| Genai.candidates := Some [c] |}) = None) ->
    fst (generateImage service s promptText σ) = None
    /\ error (page (snd (generateImage service s promptText σ)))
       = Some (lit "圖片生成失敗: API 未返回圖片。").
Proof.
  intros s client image promptText σ response Hai Himg Hresp Hcases.
  rewrite (generateImage_ready service s _ _ _ _ Hai Himg). cbv zeta.
  rewrite Hresp.
  assert (Hnone : firstInlineImage (responseParts response) = None).
  { unfold responseParts in *.
    destruct Hcases as [-> | [-> | (c & more & -> & H)]];
      [reflexivity | reflexivity | exact H]. }
  rewrite Hnone. fields. now rewrite generationFailed_noImage.
Qed.

(** X8. A base generation sends at most one request and always ends with
    the loading flag cleared.  When an image comes back it replaces the
    base sticker and the error is cleared; otherwise the previous base
    sticker and workflow state are kept and an error message is set.
    Either way the variants, the uploaded image and the settings are not
    touched. *)
Theorem X8_base_generation :
  forall s σ,
    let σ' := exec (handleGenerateBase service s) σ in
    isLoading (page σ') = false
    /\ variants (page σ') = variants (page σ)
    /\ uploadedImage (page σ') = uploadedImage (page σ)
    /\ settingsOf (page σ') = settingsOf (page σ)
    /\ sent (world σ') = sent (world σ) ++ baseRequests s
    /\ (List.length (baseRequests s) <= 1)%nat
    /\ downloads (world σ') = downloads (world σ)
    /\ match baseOutcome service s σ with
       | Some u =>
         baseSticker (page σ') = Some u /\ appStep (page σ') = base_generated
         /\ error (page σ') = None
       | None =>
         baseSticker (page σ') = baseSticker (page σ)
         /\ appStep (page σ') = appStep (page σ)
         /\ error (page σ') = Some (baseFailure service s σ)
       end.
Proof.
  intros s σ σ'. subst σ'. rewrite handleGenerateBase_step. cbv zeta.
  unfold settingsOf.
  destruct (baseOutcome service s σ); fields; repeat split;
    unfold baseRequests; destruct (ready s); simpl; lia.
Qed.

End StepFacts.

(* ===================================================================== *)
(** ** What every run keeps *)
(* ===================================================================== *)

(** Case analysis on an action: each handler is replaced by the update it
    makes. *)
Ltac step_cases service e σ :=
  destruct e as [[[fileUrl [data mime|]]|]| | | | | | | | | | | | | | | | |];
  unfold step; cbn [dispatch];
  rewrite ?(handleGenerateBase_step service),
    ?(handleGenerateVariants_exec service);
  try (rewrite (handleGenerateCustomVariants_exec service);
       destruct (parseCustomVariants (customVariantsPrompt (page σ)))
         as [|caption captions] eqn:Hparse);
  try match goal with
      | |- context [downloadDataUrl _ (lit "base_sticker.png")] =>
        destruct (baseSticker (page σ)) as [sticker|] eqn:Hsticker
      end;
  rewrite ?(generateVariants_spec service);
  unfold exec, handleFileChange, resetGeneration, handleExportMetadata,
    downloadJson, downloadDataUrl, bind, ret, setUploadedImage,
    setConsentChecked, setStyle, setCustomStyle, setStyleStrength,
    setUserPrompt, setLockCharacter, setFaceConsistency,
    setCustomVariantsPrompt, setError, setAppStep, setBaseSticker,
    setVariants, setState;
  cbv zeta; cbn [read objectURL]; fields.

Section RunFacts.

Variable service : nat -> Genai.Request -> Genai.Outcome.

Lemma step_not_loading e σ :
  isLoading (page σ) = false -> isLoading (page (step service e σ)) = false.
Proof.
  intros H. step_cases service e σ; try assumption; try reflexivity.
  all: destruct (baseOutcome service (page σ) σ); reflexivity.
Qed.

(** X9. No action leaves the page loading: every path through the
    generation handlers clears the loading flag, so after any sequence of
    actions the flag is off. *)
Theorem X9_loading_is_always_cleared :
  (forall s actions σ,
      isLoading (page (exec (generateVariants service s actions) σ)) = false)
  /\ (forall s σ,
        isLoading (page (exec (handleGenerateBase service s) σ)) = false)
  /\ (forall es apiKey,
        isLoading (page (run service es (start apiKey))) = false).
Proof.
  split; [|split].
  - intros. rewrite generateVariants_spec. reflexivity.
  - intros. rewrite handleGenerateBase_step. cbv zeta. fields.
    destruct (baseOutcome service s σ); reflexivity.
  - intros es apiKey.
    assert (H : forall σ, isLoading (page σ) = false ->
                          isLoading (page (run service es σ)) = false).
    { induction es as [|e rest IH]; intros σ Hσ; [exact Hσ|].
      cbn [run]. apply IH. now apply step_not_loading. }
    apply H. reflexivity.
Qed.

Lemma not_ready_no_success s n actions :
  ready s = None -> successes (attempts service s n actions) = [].
Proof.
  intros H. revert n. induction actions as [|a rest IH]; intros n; simpl.
  - reflexivity.
  - unfold attempt. rewrite H. apply IH.
Qed.

Lemma no_client_not_ready s : ai s = None -> ready s = None.
Proof. unfold ready. now intros ->. Qed.

Lemma step_without_client e σ :
  ai (page σ) = None /\ sent (world σ) = [] /\ baseSticker (page σ) = None
  /\ variants (page σ) = [] ->
  ai (page (step service e σ)) = None
  /\ sent (world (step service e σ)) = []
  /\ baseSticker (page (step service e σ)) = None
  /\ variants (page (step service e σ)) = [].
Proof.
  intros (Hai & Hsent & Hbase & Hvars).
  pose proof (no_client_not_ready _ Hai) as Hready.
  step_cases service e σ; rewrite ?Hsent;
    unfold baseOutcome, baseRequests, requestsFor;
    rewrite ?Hready, ?not_ready_no_success by assumption;
    fields; repeat split; try assumption; try reflexivity; congruence.
Qed.

(** X10. Without an API key the page starts with the start-up error, and
    whatever the user does afterwards, no request is ever sent and no
    base sticker or variant is ever stored. *)
Theorem X10_no_key_no_generation :
  error (page (start (lit "")))
  = Some (lit "無法初始化 AI 服務：缺少 API 金鑰。")
  /\ forall es,
       let σ := run service es (start (lit "")) in
       ai (page σ) = None /\ sent (world σ) = []
       /\ baseSticker (page σ) = None /\ variants (page σ) = [].
Proof.
  split; [reflexivity|]. intros es.
  assert (H : forall σ,
    ai (page σ) = None /\ sent (world σ) = [] /\ baseSticker (page σ) = None
    /\ variants (page σ) = [] ->
    ai (page (run service es σ)) = None /\ sent (world (run service es σ)) = []
    /\ baseSticker (page (run service es σ)) = None
    /\ variants (page (run service es σ)) = []).
  { induction es as [|e rest IH]; intros σ Hσ; [exact Hσ|].
    cbn [run]. apply IH. now apply step_without_client. }
  apply H. repeat split.
Qed.

Lemma baseOutcome_truthy s σ u :
  baseOutcome service s σ = Some u -> truthy u = true.
Proof.
  unfold baseOutcome. destruct (ready s); [|discriminate].
  intros H. apply imageOf_truthy in H. simpl in H.
  now destruct (truthy u).
Qed.

Lemma baseOutcome_is_ready s σ u :
  baseOutcome service s σ = Some u -> ready s <> None.
Proof. unfold baseOutcome. destruct (ready s); [discriminate|discriminate]. Qed.

(** When every action is handled to completion before the next one, the
    workflow state and the stored results stay in step. *)
Lemma step_consistent e σ :
  consistent (page σ) -> available (page σ) e ->
  consistent (page (step service e σ)).
Proof.
  unfold consistent, hasBaseSticker, ready, galleryShown.
  intros (Hup & Hnot & Hready) Havail.
  step_cases service e σ; try exact (conj Hup (conj Hnot Hready));
    try (rewrite Hsticker; exact (conj Hup (conj Hnot Hready))).
  - (* a file that was read *)
    split; [intros _; split; reflexivity|].
    split; [intros H; now contradiction H | intros H; discriminate H].
  - (* the main button *)
    destruct (baseOutcome service (page σ) σ) as [u|] eqn:Hout; fields;
      [|exact (conj Hup (conj Hnot Hready))].
    split; [intros H; discriminate H|].
    split; [intros _; exact (baseOutcome_truthy _ _ _ Hout)|].
    intros _. exact (baseOutcome_is_ready _ _ _ Hout).
  - (* the regenerate button *)
    destruct (baseOutcome service (page σ) σ) as [u|] eqn:Hout; fields;
      [|exact (conj Hup (conj Hnot Hready))].
    split; [intros H; discriminate H|].
    split; [intros _; exact (baseOutcome_truthy _ _ _ Hout)|].
    intros _. exact (baseOutcome_is_ready _ _ _ Hout).
  - (* confirm: random variants *)
    destruct Havail as (Hshown & _).
    apply andb_true_iff in Hshown as [_ Hb].
    split; [intros H; discriminate H|].
    split; [intros _; exact Hb | exact Hready].
  - (* resample *)
    destruct Havail as (Hshown & _).
    apply andb_true_iff in Hshown as [_ Hb].
    split; [intros H; discriminate H|].
    split; [intros _; exact Hb | exact Hready].
  - (* custom variants *)
    destruct Havail as (Hshown & _).
    apply andb_true_iff in Hshown as [_ Hb].
    split; [intros H; discriminate H|].
    split; [intros _; exact Hb | exact Hready].
Qed.

Lemma run_consistent es :
  forall σ,
    consistent (page σ) -> allowed service es σ ->
    consistent (page (run service es σ)).
Proof.
  induction es as [|e rest IH]; intros σ Hσ Hallowed; [exact Hσ|].
  cbn [run]. destruct Hallowed as [Havail Hrest].
  apply IH; [now apply step_consistent | exact Hrest].
Qed.

End RunFacts.

(* ===================================================================== *)
(** ** Numbers in texts, identifiers, prompts *)
(* ===================================================================== *)

Section NumberFacts.

Lemma units_of_uint_inj u v : units_of_uint u = units_of_uint v -> u = v.
Proof.
  revert v. induction u; destruct v; cbn; intros H;
    try reflexivity; try discriminate H;
    injection H as H; f_equal; auto.
Qed.

Lemma of_number_inj n m : of_number n = of_number m -> n = m.
Proof.
  unfold of_number. intros H. apply units_of_uint_inj in H.
  now apply DecimalN.Unsigned.to_uint_inj.
Qed.

Lemma numberFrom_ids k l :
  map id (numberFrom k l)
  = map (fun i => lit "v" ++ of_number (N.of_nat i + 1)) (seq k (List.length l)).
Proof.
  revert k. induction l as [|[a u] l IH]; intros k; simpl; [reflexivity|].
  now rewrite IH.
Qed.

Lemma idsUpTo_NoDup n : NoDup (idsUpTo n).
Proof.
  unfold idsUpTo. generalize 0%nat as k.
  induction n as [|n IH]; intros k; simpl; constructor.
  - rewrite in_map_iff. intros (i & Heq & Hin).
    injection Heq as Heq. apply of_number_inj in Heq.
    apply in_seq in Hin. lia.
  - apply IH.
Qed.

Lemma variantPrompt_shape s a :
  variantPrompt s a
  = lit "Based on the character in the image, create a sticker of them showing the emotion or action: "
    ++ quoted a ++ afterCaption s.
Proof. unfold variantPrompt, afterCaption. reflexivity. Qed.

Lemma basePrompt_shape n s :
  basePrompt (with_styleStrength n s)
  = beforeStrength s ++ of_number n ++ afterStrength s.
Proof.
  unfold basePrompt, beforeStrength, afterStrength, baseOpening,
    descriptionClause, flagClauses, stylePrompt, lockClause, faceClause.
  cbn [style customStyle userPrompt lockCharacter faceConsistency
       styleStrength with_styleStrength].
  destruct (truthy (userPrompt s)); now rewrite <- !app_assoc.
Qed.

Lemma quoted_inj a b t : quoted a ++ t = quoted b ++ t -> a = b.
Proof.
  unfold quoted. intros H. injection H as H.
  rewrite <- !app_assoc in H. now apply app_inv_tail in H.
Qed.

(** X17. The prompts tell their inputs apart: two captions with the same
    variant prompt are the same caption, and two strengths with the same
    base prompt are the same strength. *)
Theorem X17_prompts_determine_caption_and_strength :
  (forall s a b, variantPrompt s a = variantPrompt s b -> a = b)
  /\ (forall s n m,
        basePrompt (with_styleStrength n s) = basePrompt (with_styleStrength m s) ->
        n = m).
Proof.
  split.
  - intros s a b H. rewrite !variantPrompt_shape in H.
    apply app_inv_head in H. now apply quoted_inj in H.
  - intros s n m H. rewrite !basePrompt_shape in H.
    apply app_inv_head, app_inv_tail in H. now apply of_number_inj.
Qed.

End NumberFacts.

(* ===================================================================== *)
(** ** Bounds and frames *)
(* ===================================================================== *)

Section BoundFacts.

Variable service : nat -> Genai.Request -> Genai.Outcome.

Lemma successes_length s n actions :
  (List.length (successes (attempts service s n actions))
   <= List.length actions)%nat.
Proof.
  revert n. induction actions as [|a rest IH]; intros n; simpl; [lia|].
  destruct (attempt service s n a); simpl; specialize (IH (S n)); lia.
Qed.

Lemma successes_labels s n actions :
  Forall (fun t => In (fst t) actions) (successes (attempts service s n actions)).
Proof.
  revert n. induction actions as [|a rest IH]; intros n; simpl; [constructor|].
  assert (H : Forall (fun t => In (fst t) (a :: rest))
                     (successes (attempts service s (S n) rest))).
  { eapply Forall_impl; [|apply IH]. intros t Ht. now right. }
  destruct (attempt service s n a); [constructor; [now left|]|]; exact H.
Qed.

Lemma numbered_successes s n actions :
  (List.length actions <= 12)%nat ->
  numbered (numberFrom 0 (successes (attempts service s n actions))).
Proof.
  intros H. eexists. split; [reflexivity|].
  pose proof (successes_length s n actions). lia.
Qed.

Lemma step_numbered e σ :
  numbered (variants (page σ)) -> numbered (variants (page (step service e σ))).
Proof.
  intros H.
  assert (Hnil : numbered []) by (exists []; split; [reflexivity | simpl; lia]).
  step_cases service e σ; try exact H; try exact Hnil.
  - destruct (baseOutcome service (page σ) σ); exact H.
  - destruct (baseOutcome service (page σ) σ); exact H.
  - apply numbered_successes.
    pose proof (firstn_le_length 3 shuffled). lia.
  - apply numbered_successes.
    pose proof (firstn_le_length 3 shuffled). lia.
  - apply numbered_successes. rewrite <- Hparse.
    unfold parseCustomVariants. apply firstn_le_length.
Qed.

(** X12. After any sequence of actions there are at most 12 variants, and
    their identifiers are [v1], [v2], ... in order, hence all different. *)
Theorem X12_variants_are_numbered_and_bounded :
  forall es apiKey,
    let vs := variants (page (run service es (start apiKey))) in
    (List.length vs <= 12)%nat
    /\ map id vs = idsUpTo (List.length vs)
    /\ NoDup (map id vs).
Proof.
  intros es apiKey vs.
  assert (H : numbered vs).
  { subst vs. generalize (start apiKey),
      (ex_intro (fun l => [] = numberFrom 0 l /\ (List.length l <= 12)%nat) []
                (conj eq_refl (Nat.le_0_l 12))
       : numbered (variants (page (start apiKey)))).
    induction es as [|e rest IH]; intros σ Hσ; [exact Hσ|].
    cbn [run]. apply IH. now apply step_numbered. }
  destruct H as (l & Hl & Hlen).
  assert (Hsize : List.length vs = List.length l).
  { rewrite Hl, <- (length_map (fun v => (label v, uri v))).
    now rewrite numberFrom_contents. }
  assert (Hids : map id vs = idsUpTo (List.length vs)).
  { rewrite Hsize, Hl. apply numberFrom_ids. }
  split; [lia|]. split; [exact Hids|].
  rewrite Hids. apply idsUpTo_NoDup.
Qed.

Lemma NoDup_firstn {A} n (l : list A) : NoDup l -> NoDup (firstn n l).
Proof.
  intros H. rewrite <- (firstn_skipn n l) in H.
  now apply NoDup_app_remove_r in H.
Qed.

Lemma RANDOM_ACTIONS_NoDup : NoDup RANDOM_ACTIONS.
Proof.
  unfold RANDOM_ACTIONS.
  repeat (constructor; [vm_compute; intuition discriminate|]). constructor.
Qed.

Lemma numberFrom_labels (P : jsstring -> Prop) k l :
  Forall (fun t => P (fst t)) l -> Forall (fun v => P (label v)) (numberFrom k l).
Proof.
  intros H. revert k. induction H as [|[a u] l Ha _ IH]; intros k; simpl;
    constructor; [exact Ha | apply IH].
Qed.

(** X14. A random batch takes three different captions from
    [RANDOM_ACTIONS]: with a client and an image it sends exactly three
    requests, one per caption in order, and it stores at most three
    variants, each labelled with one of the three captions. *)
Theorem X14_random_batch_has_three_captions :
  forall s shuffled σ image,
    Permutation shuffled RANDOM_ACTIONS -> ready s = Some image ->
    let actions := firstn 3 shuffled in
    let σ' := exec (handleGenerateVariants service s shuffled) σ in
    List.length actions = 3%nat
    /\ NoDup actions
    /\ incl actions RANDOM_ACTIONS
    /\ sent (world σ')
       = sent (world σ)
         ++ map (fun a => mkRequest image (variantPrompt s a)) actions
    /\ (List.length (variants (page σ')) <= 3)%nat
    /\ Forall (fun v => In (label v) actions) (variants (page σ')).
Proof.
  intros s shuffled σ image Hperm Hready actions σ'.
  assert (Hlen : List.length actions = 3%nat).
  { unfold actions. rewrite length_firstn, (Permutation_length Hperm).
    reflexivity. }
  split; [exact Hlen|]. split.
  { apply NoDup_firstn.
    apply (Permutation_NoDup (Permutation_sym Hperm)), RANDOM_ACTIONS_NoDup. }
  split.
  { intros a Ha. apply In_firstn in Ha.
    exact (Permutation_in a Hperm Ha). }
  subst σ'. rewrite handleGenerateVariants_exec, generateVariants_spec.
  cbv zeta. fields. fold actions.
  split; [unfold requestsFor; now rewrite Hready|]. split.
  - rewrite <- (length_map (fun v => (label v, uri v))), numberFrom_contents.
    rewrite <- Hlen. apply successes_length.
  - apply (numberFrom_labels (fun a => In a actions)), successes_labels.
Qed.

Lemma requestsFor_length s actions :
  (List.length (requestsFor s actions) <= List.length actions)%nat.
Proof.
  unfold requestsFor. destruct (ready s); [rewrite length_map|simpl]; lia.
Qed.

Lemma baseRequests_length s : (List.length (baseRequests s) <= 1)%nat.
Proof. unfold baseRequests. destruct (ready s); simpl; lia. Qed.

(** X15. Requests are only ever added, and only by the generation
    actions: one action sends at most 12 requests, a base generation at
    most one, and every other action none. *)
Theorem X15_requests_per_action :
  forall e σ,
    exists new,
      sent (world (step service e σ)) = sent (world σ) ++ new
      /\ (List.length new <= 12)%nat
      /\ (isGeneration e = false -> new = [])
      /\ (e = ClickGenerateBase \/ e = ClickRegenerate ->
          (List.length new <= 1)%nat).
Proof.
  intros e σ.
  assert (Hnone : forall (l : list Genai.Request) (b : bool) (Q : Prop),
    exists new, l = l ++ new /\ (List.length new <= 12)%nat
                /\ (b = false -> new = [])
                /\ (Q -> (List.length new <= 1)%nat)).
  { intros l b Q. exists []. rewrite app_nil_r. simpl.
    repeat split; try reflexivity; lia. }
  step_cases service e σ; try apply Hnone.
  - exists (baseRequests (page σ)). pose proof (baseRequests_length (page σ)).
    split; [reflexivity|]. split; [lia|].
    split; [intros H0; discriminate H0 | intros _; assumption].
  - exists (baseRequests (page σ)). pose proof (baseRequests_length (page σ)).
    split; [reflexivity|]. split; [lia|].
    split; [intros H0; discriminate H0 | intros _; assumption].
  - exists (requestsFor (page σ) (firstn 3 shuffled)).
    pose proof (requestsFor_length (page σ) (firstn 3 shuffled)).
    pose proof (firstn_le_length 3 shuffled).
    split; [reflexivity|]. split; [lia|].
    split; [intros H1; discriminate H1 | intros [H1|H1]; discriminate H1].
  - exists (requestsFor (page σ) (firstn 3 shuffled)).
    pose proof (requestsFor_length (page σ) (firstn 3 shuffled)).
    pose proof (firstn_le_length 3 shuffled).
    split; [reflexivity|]. split; [lia|].
    split; [intros H1; discriminate H1 | intros [H1|H1]; discriminate H1].
  - exists (requestsFor (page σ) (caption :: captions)).
    pose proof (requestsFor_length (page σ) (caption :: captions)) as Hr.
    assert (Hp : (List.length (caption :: captions) <= 12)%nat).
    { rewrite <- Hparse. unfold parseCustomVariants. apply firstn_le_length. }
    split; [reflexivity|]. split; [lia|].
    split; [intros H1; discriminate H1 | intros [H1|H1]; discriminate H1].
Qed.

(** X16. The buttons never change what the user entered: after a click
    the settings, the consent, the custom-variants text and the uploaded
    image are as before.  Choosing a file changes none of the settings
    either; in particular the consent stays as it was. *)
Theorem X16_clicks_keep_the_settings :
  (forall e σ,
      isClick e = true ->
      settingsOf (page (step service e σ)) = settingsOf (page σ)
      /\ uploadedImage (page (step service e σ)) = uploadedImage (page σ))
  /\ (forall file σ,
        settingsOf (page (step service (ChooseFile file) σ))
        = settingsOf (page σ)).
Proof.
  split.
  - intros e σ Hclick. unfold settingsOf.
    step_cases service e σ; try discriminate Hclick;
      try (split; reflexivity);
      destruct (baseOutcome service (page σ) σ); split; reflexivity.
  - intros [[fileUrl [data mime|]]|] σ; reflexivity.
Qed.

Lemma step_strength e σ :
  (styleStrength (page σ) <= 100)%N -> available (page σ) e ->
  (styleStrength (page (step service e σ)) <= 100)%N.
Proof.
  intros H Havail.
  step_cases service e σ; try exact H; try exact Havail;
    destruct (baseOutcome service (page σ) σ); exact H.
Qed.

(** X18. On every page reached through the controls the style strength is
    at most 100. *)
Theorem X18_strength_stays_in_range :
  forall es apiKey,
    allowed service es (start apiKey) ->
    (styleStrength (page (run service es (start apiKey))) <= 100)%N.
Proof.
  intros es apiKey.
  assert (H : forall σ,
    (styleStrength (page σ) <= 100)%N -> allowed service es σ ->
    (styleStrength (page (run service es σ)) <= 100)%N).
  { induction es as [|e rest IH]; intros σ Hσ Hallowed; [exact Hσ|].
    cbn [run]. destruct Hallowed as [Havail Hrest].
    apply IH; [now apply step_strength | exact Hrest]. }
  apply H. vm_compute. discriminate.
Qed.

(** X13. When the reader fails, [fileToBase64] rejects and the upload
    handler only sets its error message: the uploaded image, the base
    sticker, the variants, the workflow state and the world are kept. *)
Theorem X13_failed_read_keeps_everything :
  forall fileUrl σ,
    fileToBase64 Reader.Failed = None
    /\ exists f,
         chosenFile fileUrl Reader.Failed = Usable f
         /\ let σ' := exec (handleFileChange (Some f)) σ in
            error (page σ') = Some (lit "讀取檔案失敗，請再試一次。")
            /\ uploadedImage (page σ') = uploadedImage (page σ)
            /\ baseSticker (page σ') = baseSticker (page σ)
            /\ variants (page σ') = variants (page σ)
            /\ appStep (page σ') = appStep (page σ)
            /\ settingsOf (page σ') = settingsOf (page σ)
            /\ world σ' = world σ.
Proof.
  intros fileUrl σ. split; [reflexivity|].
  eexists. split; [reflexivity|]. cbv zeta. repeat split.
Qed.

(** X19. Downloads stay apart from the workflow: an action starts at most
    one download, only the export and download buttons start one, and
    such an action neither changes the page nor sends a request. *)
Theorem X19_downloads_change_nothing_else :
  forall e σ,
    exists started,
      downloads (world (step service e σ)) = downloads (world σ) ++ started
      /\ (List.length started <= 1)%nat
      /\ (isDownload e = false -> started = [])
      /\ (isDownload e = true ->
          page (step service e σ) = page σ
          /\ sent (world (step service e σ)) = sent (world σ)).
Proof.
  intros e σ.
  assert (Hnone : forall (l : list Download) (Q : Prop),
    exists started, l = l ++ started /\ (List.length started <= 1)%nat
                    /\ (false = false -> started = [])
                    /\ (false = true -> Q)).
  { intros l Q. exists []. rewrite app_nil_r. simpl.
    split; [reflexivity|]. split; [lia|].
    split; [reflexivity | intros H; discriminate H]. }
  assert (Hone : forall (l : list Download) d (p : AppState) (r : list Genai.Request),
    exists started, l ++ [d] = l ++ started /\ (List.length started <= 1)%nat
                    /\ (true = false -> started = [])
                    /\ (true = true -> p = p /\ r = r)).
  { intros l d p r. exists [d]. simpl.
    split; [reflexivity|]. split; [lia|].
    split; [intros H; discriminate H | intros _; split; reflexivity]. }
  step_cases service e σ; cbn [isDownload]; try apply Hnone; try apply Hone.
  - (* no base sticker to download *)
    exists []. rewrite app_nil_r. simpl.
    split; [reflexivity|]. split; [lia|].
    split; [intros H; discriminate H | intros _; split; reflexivity].
Qed.

End BoundFacts.
(* ===================================================================== *)
(** ** Handlers that overlap *)
(* ===================================================================== *)

Lemma bind_pair {A B} (c : M A) (k : A -> M B) σ :
  bind c k σ = k (fst (c σ)) (snd (c σ)).
Proof. unfold bind. now destruct (c σ). Qed.

Ltac setters :=
  unfold bind, ret, setUploadedImage, setConsentChecked, setStyle,
    setCustomStyle, setStyleStrength, setUserPrompt, setLockCharacter,
    setFaceConsistency, setCustomVariantsPrompt, setIsLoading,
    setLoadingMessage, setError, setAppStep, setBaseSticker, setVariants,
    setState, generateContent, downloadDataUrl;
  fields.

Section OverlapFacts.

Variable service : nat -> Genai.Request -> Genai.Outcome.

(** [generateImage] is the call of the service followed by [received]. *)
Lemma generateImage_received s promptText :
  generateImage service s promptText
  = match ai s, uploadedImage s with
    | Some _, Some image =>
      outcome <- generateContent service (mkRequest image promptText) ;;
      received outcome
    | _, _ =>
      setError (Some (lit "AI 服務未就緒或未上傳圖片。")) ;;
      ret None
    end.
Proof. reflexivity. Qed.

Lemma settleAll_one fuel t σ :
  settleAll service (S fuel) {| now := σ; inflight := [t] |}
  = settleAll service fuel (landed (resume service t σ)).
Proof. reflexivity. Qed.

Lemma variantsFrom_settles s actions :
  forall generated σ,
  exists fuel,
    settleAll service fuel (landed (variantsFrom service s actions generated σ))
    = idle (endOfBatch (variantsLoop service s actions generated σ)).
Proof.
  induction actions as [|a rest IH]; intros generated σ.
  - exists O. reflexivity.
  - cbn [variantsFrom variantsLoop]. rewrite generateImage_received.
    rewrite !bind_pair.
    destruct (ai s) as [client|]; [destruct (uploadedImage s) as [image|]|].
    + rewrite !bind_pair.
      unfold ret at 1. unfold landed at 1. cbn [fst snd pending].
      set (σ1 := snd (generateContent service _ _)).
      set (outcome := fst (generateContent service _ _)).
      destruct (ifTruthy (fst (received outcome σ1))) as [r|] eqn:E.
      * destruct (IH (generated
                      ++ [{| id := lit "v"
                                   ++ of_number
                                        (N.of_nat (List.length generated) + 1);
                             uri := r; label := a |}])
                     (snd (received outcome σ1))) as [fuel H].
        exists (S fuel). rewrite settleAll_one. cbn [resume].
        unfold resumeVariants. rewrite bind_pair, E. exact H.
      * rewrite bind_pair.
        destruct (IH generated
                     (snd (setError
                             (Some (lit "生成 " ++ quoted a
                                    ++ lit " 變化款失敗。"))
                             (snd (received outcome σ1))))) as [fuel H].
        exists (S fuel). rewrite settleAll_one. cbn [resume].
        unfold resumeVariants. rewrite bind_pair, E, bind_pair. exact H.
    + rewrite !bind_pair. unfold ret at 1. cbn [fst ifTruthy].
      rewrite bind_pair. apply IH.
    + rewrite !bind_pair. unfold ret at 1. cbn [fst ifTruthy].
      rewrite bind_pair. apply IH.
Qed.

(** [generateVariants] is its three setters, the loop and the end. *)
Lemma generateVariants_endOfBatch s actions σ :
  exec (generateVariants service s actions) σ
  = endOfBatch
      (variantsLoop service s actions []
         (snd (setVariants [] (snd (setIsLoading true
                                      (snd (setError None σ))))))).
Proof.
  unfold generateVariants, exec, endOfBatch, exec.
  rewrite !bind_pair. reflexivity.
Qed.

Lemma startVariants_settles s actions σ :
  exists fuel,
    settleAll service fuel (landed (startVariants service s actions σ))
    = idle (exec (generateVariants service s actions) σ).
Proof.
  rewrite generateVariants_endOfBatch. unfold startVariants.
  rewrite !bind_pair. apply variantsFrom_settles.
Qed.

Lemma startBase_settles s σ :
  exists fuel,
    settleAll service fuel (landed (startBase service s σ))
    = idle (exec (handleGenerateBase service s) σ).
Proof.
  unfold startBase, handleGenerateBase, exec.
  rewrite generateImage_received, !bind_pair.
  destruct (ai s) as [client|]; [destruct (uploadedImage s) as [image|]|].
  - exists 1%nat. rewrite !bind_pair. unfold ret at 1.
    unfold landed at 1. cbn [fst snd pending].
    rewrite settleAll_one. cbn [resume]. unfold finishBase.
    rewrite !bind_pair. reflexivity.
  - exists O. rewrite !bind_pair. reflexivity.
  - exists O. rewrite !bind_pair. reflexivity.
Qed.

Lemma move_act e σ :
  move service (Act e) (idle σ) = landed (launch service (page σ) e σ).
Proof. reflexivity. Qed.

(** Handling an action to completion is letting its handler start and
    everything it waits for arrive before anything else happens. *)
Lemma step_settles e σ :
  exists fuel,
    settleAll service fuel (move service (Act e) (idle σ))
    = idle (step service e σ).
Proof.
  rewrite move_act. unfold step.
  destruct e as [[f|]| | | | | | | | | | | | | | | | |]; cbn [launch dispatch];
    try (exists O; unfold landed, idle; rewrite bind_pair; reflexivity).
  - (* a file *)
    exists 1%nat. unfold landed, ret. cbn [fst snd pending].
    rewrite settleAll_one. cbn [resume]. unfold landed, idle.
    rewrite bind_pair. reflexivity.
  - (* the main button *)
    apply startBase_settles.
  - apply startBase_settles.
  - (* confirm *)
    unfold handleGenerateVariants, exec. rewrite !bind_pair.
    apply startVariants_settles.
  - unfold handleGenerateVariants, exec. rewrite !bind_pair.
    apply startVariants_settles.
  - unfold handleGenerateCustomVariants.
    destruct (parseCustomVariants _) as [|c cs].
    + exists O. unfold landed, idle. rewrite bind_pair. reflexivity.
    + unfold exec. rewrite !bind_pair. apply startVariants_settles.
Qed.

Lemma received_keeps outcome σ :
  ai (page (snd (received outcome σ))) = ai (page σ)
  /\ uploadedImage (page (snd (received outcome σ))) = uploadedImage (page σ)
  /\ baseSticker (page (snd (received outcome σ))) = baseSticker (page σ).
Proof.
  unfold received.
  destruct outcome as [response|err];
    [destruct (firstInlineImage _)|]; setters; repeat split.
Qed.

Lemma variantsFrom_quiet s actions :
  forall generated, quiet (variantsFrom service s actions generated).
Proof.
  induction actions as [|a rest IH]; intros generated σ.
  - cbn [variantsFrom]. setters. repeat split.
  - cbn [variantsFrom]. rewrite bind_pair.
    destruct (ai s) as [client|]; [destruct (uploadedImage s) as [image|]|].
    + setters. repeat split.
    + rewrite !bind_pair.
      match goal with
      | |- context [variantsFrom service s rest generated ?σ'] =>
        destruct (IH generated σ') as (H1 & H2 & H3 & H4)
      end.
      rewrite H1, H2, H3, H4. setters. repeat split.
    + rewrite !bind_pair.
      match goal with
      | |- context [variantsFrom service s rest generated ?σ'] =>
        destruct (IH generated σ') as (H1 & H2 & H3 & H4)
      end.
      rewrite H1, H2, H3, H4. setters. repeat split.
Qed.

Lemma startVariants_quiet s actions : quiet (startVariants service s actions).
Proof.
  intros σ. unfold startVariants. rewrite !bind_pair.
  match goal with
  | |- context [variantsFrom service s actions [] ?σ'] =>
    destruct (variantsFrom_quiet s actions [] σ') as (H1 & H2 & H3 & H4)
  end.
  rewrite H1, H2, H3, H4. setters. repeat split.
Qed.

Lemma resumeVariants_quiet s action rest generated outcome :
  quiet (resumeVariants service s action rest generated outcome).
Proof.
  intros σ. unfold resumeVariants. rewrite bind_pair.
  destruct (received_keeps outcome σ) as (R1 & R2 & R3).
  destruct (ifTruthy _) as [r|].
  - match goal with
    | |- context [variantsFrom service s rest ?g ?σ'] =>
      destruct (variantsFrom_quiet s rest g σ') as (H1 & H2 & H3 & H4)
    end.
    rewrite H1, H2, H3, H4, R1, R2, R3. repeat split.
  - rewrite bind_pair.
    match goal with
    | |- context [variantsFrom service s rest ?g ?σ'] =>
      destruct (variantsFrom_quiet s rest g σ') as (H1 & H2 & H3 & H4)
    end.
    rewrite H1, H2, H3, H4. setters. rewrite R1, R2, R3. repeat split.
Qed.

Lemma baseInFlight_app xs ys :
  baseInFlight (xs ++ ys) = baseInFlight xs || baseInFlight ys.
Proof. apply existsb_app. Qed.

Lemma baseInFlight_without i xs :
  baseInFlight (firstn i xs ++ skipn (S i) xs) = true ->
  baseInFlight xs = true.
Proof.
  unfold baseInFlight. rewrite !existsb_exists.
  intros (t & Hin & Ht). exists t. split; [|exact Ht].
  apply in_app_or in Hin as [Hin|Hin].
  - rewrite <- (firstn_skipn i xs). apply in_or_app. now left.
  - rewrite <- (firstn_skipn (S i) xs). apply in_or_app. now right.
Qed.

Lemma baseInFlight_nth i xs t :
  nth_error xs i = Some t -> isBase t = true -> baseInFlight xs = true.
Proof.
  intros Hnth Ht. unfold baseInFlight. rewrite existsb_exists.
  exists t. split; [now apply nth_error_In in Hnth | exact Ht].
Qed.

(** A handler that leaves the client, the image and the base sticker
    alone and does not wait for a base sticker keeps the link. *)
Lemma quiet_act e l :
  quiet (launch service (page (now l)) e) ->
  backed l -> backed (move service (Act e) l).
Proof.
  intros Hq Hb. destruct (Hq (now l)) as (H1 & H2 & H3 & H4).
  unfold backed, move. cbv zeta. cbn [now inflight].
  rewrite H1, H2, H3, baseInFlight_app, H4, orb_false_r. exact Hb.
Qed.

Lemma quiet_settle i t l :
  nth_error (inflight l) i = Some t ->
  quiet (resume service t) ->
  backed l -> backed (move service (Settle i) l).
Proof.
  intros Hnth Hq Hb. destruct (Hq (now l)) as (H1 & H2 & H3 & H4).
  unfold backed, move. rewrite Hnth. cbv zeta. cbn [now inflight].
  rewrite H1, H2, H3, app_assoc, baseInFlight_app, H4, orb_false_r.
  intros [H|H]; apply Hb; [now left | right].
  now apply baseInFlight_without in H.
Qed.

Lemma startBase_backed l :
  backed l -> backed (move service (Act ClickGenerateBase) l)
              /\ backed (move service (Act ClickRegenerate) l).
Proof.
  intros Hb.
  assert (H : backed {| now := snd (startBase service (page (now l)) (now l));
                        inflight := inflight l
                          ++ pending (fst (startBase service (page (now l))
                                                     (now l))) |}).
  { unfold backed, startBase. cbn [now inflight]. rewrite !bind_pair.
    destruct (ai (page (now l))) as [client|] eqn:Hai;
      [destruct (uploadedImage (page (now l))) as [image|] eqn:Himg|].
    - setters. rewrite Hai, Himg. intros _. split; discriminate.
    - setters. cbn [pending]. rewrite app_nil_r, Hai, Himg.
      intros H. apply Hb in H. rewrite Hai, Himg in H. exact H.
    - setters. cbn [pending]. rewrite app_nil_r, Hai.
      intros H. apply Hb in H. rewrite Hai in H. exact H. }
  split; exact H.
Qed.

Lemma launch_quiet s e :
  e <> ClickGenerateBase -> e <> ClickRegenerate ->
  quiet (launch service s e).
Proof.
  intros Hb Hr.
  destruct e as [[f|]| | | | | | | | | | | | | | | | |];
    try congruence; cbn [launch dispatch];
    try (intros σ; unfold handleFileChange, handleExportMetadata, downloadJson;
         setters; repeat split; fail).
  - intros σ. destruct (baseSticker s); setters; repeat split.
  - intros σ. rewrite bind_pair.
    destruct (startVariants_quiet s (firstn 3 shuffled)
                (snd (setLoadingMessage (lit "正在生成三款隨機變化貼圖...") σ)))
      as (H1 & H2 & H3 & H4).
    rewrite H1, H2, H3, H4. setters. repeat split.
  - intros σ. rewrite bind_pair.
    destruct (startVariants_quiet s (firstn 3 shuffled)
                (snd (setLoadingMessage (lit "正在生成三款隨機變化貼圖...") σ)))
      as (H1 & H2 & H3 & H4).
    rewrite H1, H2, H3, H4. setters. repeat split.
  - intros σ. destruct (parseCustomVariants _) as [|c cs].
    + setters. repeat split.
    + rewrite bind_pair.
      match goal with
      | |- context [startVariants service s ?acts ?σ'] =>
        destruct (startVariants_quiet s acts σ') as (H1 & H2 & H3 & H4)
      end.
      rewrite H1, H2, H3, H4. setters. repeat split.
Qed.

Lemma Event_is_base e :
  {e = ClickGenerateBase} + {e = ClickRegenerate}
  + {e <> ClickGenerateBase /\ e <> ClickRegenerate}.
Proof.
  destruct e; try (right; split; discriminate);
    [left; left | left; right]; reflexivity.
Qed.

Lemma move_backed m l : backed l -> backed (move service m l).
Proof.
  intros Hb. destruct m as [e|i].
  - destruct (Event_is_base e) as [[->| ->]|[H1 H2]].
    + apply startBase_backed; exact Hb.
    + apply startBase_backed; exact Hb.
    + apply quiet_act; [now apply launch_quiet | exact Hb].
  - destruct (nth_error (inflight l) i) as [t|] eqn:Hnth;
      [|unfold move; now rewrite Hnth].
    destruct t as [f|outcome|s action rest generated outcome].
    + (* a file was read *)
      unfold backed, move. rewrite Hnth. cbv zeta. cbn [now inflight resume].
      rewrite bind_pair. unfold handleFileChange, resetGeneration.
      destruct (read f) as [data mime|]; setters; cbn [pending];
        rewrite app_nil_r.
      * intros [H|H]; [now contradiction H|].
        apply baseInFlight_without in H.
        split; [apply Hb; now right | discriminate].
      * intros [H|H]; apply Hb; [now left | right].
        now apply baseInFlight_without in H.
    + (* the outcome of a base sticker *)
      assert (Hhas : ai (page (now l)) <> None
                     /\ uploadedImage (page (now l)) <> None).
      { apply Hb. right. now apply (baseInFlight_nth i _ _ Hnth). }
      unfold backed, move. rewrite Hnth. cbv zeta. cbn [now inflight resume].
      intros _. unfold finishBase. rewrite !bind_pair.
      destruct (received_keeps outcome (now l)) as (R1 & R2 & _).
      destruct (ifTruthy _); setters; rewrite R1, R2; exact Hhas.
    + apply (quiet_settle _ _ _ Hnth); [|exact Hb].
      apply resumeVariants_quiet.
Qed.

Lemma interleave_backed ms :
  forall l, backed l -> backed (interleave service ms l).
Proof.
  induction ms as [|m rest IH]; intros l Hb; [exact Hb|].
  cbn [interleave]. apply IH. now apply move_backed.
Qed.

Lemma idle_start_backed apiKey : backed (idle (start apiKey)).
Proof. intros [H|H]; [now contradiction H | discriminate H]. Qed.

(** Letting the suspended handlers complete is a sequence of
    completions. *)
Lemma settleAll_interleave fuel :
  forall l, exists k,
    settleAll service fuel l = interleave service (repeat (Settle 0) k) l.
Proof.
  induction fuel as [|fuel IH]; intros l; [exists O; reflexivity|].
  cbn [settleAll]. destruct (inflight l) as [|t ts] eqn:E;
    [exists O; reflexivity|].
  destruct (IH (move service (Settle 0) l)) as [k Hk].
  exists (S k). exact Hk.
Qed.

Lemma interleave_app ms ms' l :
  interleave service (ms ++ ms') l
  = interleave service ms' (interleave service ms l).
Proof. revert l. induction ms as [|m rest IH]; intros l; [reflexivity|apply IH]. Qed.

Lemma actsOf_settles k ms : actsOf (repeat (Settle 0) k ++ ms) = actsOf ms.
Proof. induction k as [|k IH]; [reflexivity | exact IH]. Qed.

(** A run in which every action is handled to completion is one of the
    interleavings: each action followed by the completions it waits for. *)
Lemma run_interleaved es :
  forall σ, exists ms,
    actsOf ms = es
    /\ interleave service ms (idle σ) = idle (run service es σ).
Proof.
  induction es as [|e rest IH]; intros σ; [exists []; split; reflexivity|].
  destruct (step_settles e σ) as [fuel Hfuel].
  destruct (settleAll_interleave fuel (move service (Act e) (idle σ)))
    as [k Hk].
  destruct (IH (step service e σ)) as (ms & Hacts & Hms).
  exists (Act e :: repeat (Settle 0) k ++ ms). split.
  - cbn [actsOf]. now rewrite actsOf_settles, Hacts.
  - cbn [interleave run]. rewrite interleave_app, <- Hk, Hfuel. exact Hms.
Qed.

End OverlapFacts.

Lemma uploadDuringBatch_offered :
  offered onlyFirstCall uploadDuringBatch (idle (start apiKey0)).
Proof.
  cbv beta iota delta [offered uploadDuringBatch].
  repeat split; try (vm_compute; reflexivity);
    try (vm_compute; repeat constructor; fail).
Qed.

Lemma uploadDuringBatch_not_consistent :
  ~ consistent
      (page (now (interleave onlyFirstCall uploadDuringBatch
                             (idle (start apiKey0))))).
Proof.
  intros (_ & H & _).
  assert (Hstep : appStep (page (now (interleave onlyFirstCall uploadDuringBatch
                                                 (idle (start apiKey0)))))
                  <> upload) by (vm_compute; discriminate).
  apply H in Hstep. vm_compute in Hstep. discriminate Hstep.
Qed.

(** X11. Handlers overlap: the file input stays usable while a generation
    waits for the service.  Whatever the user does and in whatever order
    the file reads and the calls of the service complete, a stored base
    sticker comes with a client and an uploaded image: no handler clears
    the upload, and a base sticker is stored only by a
    [handleGenerateBase] whose [generateImage] had both.  The runs of
    [run], where every action is handled to completion before the next,
    are among these interleavings.  The workflow state and the results do
    not stay in step: when a file is chosen and read while the variants
    are awaited, the results are reset and the batch then ends in the state
    [variants_generated] with no base sticker stored; with every variant
    failing, the export card is shown with neither base sticker nor
    variants, the second condition that disables the ZIP button. *)
Theorem X11_overlapping_handlers :
  (forall service ms apiKey,
      let p := page (now (interleave service ms (idle (start apiKey)))) in
      baseSticker p <> None -> ai p <> None /\ uploadedImage p <> None)
  /\ (forall service es σ,
        exists ms,
          actsOf ms = es
          /\ interleave service ms (idle σ) = idle (run service es σ))
  /\ (let before := interleave onlyFirstCall (firstn 7 uploadDuringBatch)
                               (idle (start apiKey0)) in
      let l := interleave onlyFirstCall uploadDuringBatch
                          (idle (start apiKey0)) in
      offered onlyFirstCall uploadDuringBatch (idle (start apiKey0))
      /\ isLoading (page (now before)) = true
      /\ List.length (inflight before) = 2%nat
      /\ inflight l = []
      /\ isLoading (page (now l)) = false
      /\ appStep (page (now l)) = variants_generated
      /\ baseSticker (page (now l)) = None
      /\ variants (page (now l)) = []
      /\ Nat.eqb (List.length (variants (page (now l)))) 0
         && negb (hasBaseSticker (page (now l))) = true
      /\ ~ consistent (page (now l))).
Proof.
  split; [|split].
  - intros service ms apiKey p Hsticker.
    apply (interleave_backed service ms (idle (start apiKey))
             (idle_start_backed apiKey)).
    now left.
  - intros service es σ. apply run_interleaved.
  - cbv zeta.
    split; [exact uploadDuringBatch_offered|].
    do 8 (split; [vm_compute; reflexivity|]).
    exact uploadDuringBatch_not_consistent.
Qed.

(* ===================================================================== *)
(** ** More runs on sample inputs *)
(* ===================================================================== *)

(** A colon whose group would cross a line break is passed over, and
    parameters after the type are left out. *)
Example matchColonGroup_samples :
  matchColonGroup (lit "data:image/png;base64") = Some (lit "image/png")
  /\ matchColonGroup (lit "data:text/plain;charset=utf-8;base64")
     = Some (lit "text/plain")
  /\ matchColonGroup ([97; colon; 10; colon; 98; semicolon; 99]) = Some [98]
  /\ matchColonGroup (lit "data:image/png") = None.
Proof. vm_compute. repeat split. Qed.

Lemma plainType_png : plainType (lit "image/png").
Proof.
  unfold plainType, without. vm_compute.
  repeat split; try discriminate; try (intuition discriminate).
  repeat constructor.
Qed.

Lemma X1_witness :
  fileToBase64 (Reader.Loaded pngDataUrl)
  = Some {| Reader.data := Some (lit "iVBORw0KGgo=");
            Reader.mimeType := lit "image/png" |}.
Proof.
  apply (X1_fileToBase64_reads_data_url
           (lit "image/png") (lit "base64") (lit "iVBORw0KGgo=")).
  - exact plainType_png.
  - unfold without. vm_compute. intuition discriminate.
  - unfold without. vm_compute. intuition discriminate.
Defined.

Lemma X2_witness :
  exists e,
    fileToBase64 (Reader.Loaded (lit "hello")) = Some e
    /\ Reader.mimeType e = lit "application/octet-stream".
Proof.
  destruct (X2_fileToBase64_always_has_a_type (lit "hello"))
    as (e & He & _ & _ & _ & Hdefault & _ & _).
  exists e. split; [exact He|]. apply Hdefault. left. vm_compute. reflexivity.
Defined.

(** A reader result without comma: [data] is [undefined] and the media
    type the default. *)
Example chosenFile_without_comma :
  chosenFile (lit "blob:sticker") (Reader.Loaded (lit "hello"))
  = DataUndefined (lit "blob:sticker") (lit "application/octet-stream").
Proof. vm_compute. reflexivity. Qed.

Lemma X3_witness :
  exists f, chosenFile (lit "blob:sticker") (Reader.Loaded (dataUri pngBlob)) = Usable f.
Proof.
  destruct (X3_uploaded_image_is_what_is_sent
              alwaysPng pngBlob (lit "blob:sticker") somePrompt
              (NewGoogleGenAI apiKey0) (start apiKey0))
    as (f & Hf & _).
  - exact plainType_png.
  - unfold without. vm_compute. intuition discriminate.
  - vm_compute. reflexivity.
  - exists f. exact Hf.
Defined.

Lemma goodEntry_yes_no : Forall goodEntry [lit "yes"; lit "no"].
Proof.
  repeat constructor; unfold without; vm_compute;
    try discriminate; intuition discriminate.
Qed.

Lemma X5_witness :
  parseCustomVariants (join comma [lit "yes"; lit "no"]) = [lit "yes"; lit "no"].
Proof.
  destruct X5_join_then_parse as (H & _).
  apply H; [exact goodEntry_yes_no | simpl; lia].
Defined.

Lemma X6_witness :
  truthy (trim (customVariantsPrompt (initialState apiKey0))) = true.
Proof.
  apply (X6_custom_button_enabled_for_usable_text (initialState apiKey0)).
  vm_compute. discriminate.
Defined.

Lemma X7_witness :
  fst (generateImage secondCandidateOnly (page baseDone) somePrompt baseDone)
  = None
  /\ error (page (snd (generateImage secondCandidateOnly (page baseDone)
                                     somePrompt baseDone)))
     = Some (lit "圖片生成失敗: API 未返回圖片。").
Proof.
  apply (X7_only_the_first_candidate_counts
           secondCandidateOnly (page baseDone) (NewGoogleGenAI apiKey0)
           photoImage somePrompt baseDone imageInSecondCandidate).
  - vm_compute. reflexivity.
  - vm_compute. reflexivity.
  - reflexivity.
  - right. right. eexists. eexists. split; reflexivity.
Defined.

(** Every action of the sample run is offered when it is made. *)
Lemma upToVariants_allowed : allowed alwaysPng upToVariants (start apiKey0).
Proof.
  cbv beta iota delta [allowed available upToVariants prepared page].
  repeat split; try (vm_compute; reflexivity); apply Permutation_refl.
Qed.

Lemma X11_witness :
  let p := page (now (interleave alwaysPng (firstn 5 uploadDuringBatch)
                                 (idle (start apiKey0)))) in
  baseSticker p <> None /\ ai p <> None /\ uploadedImage p <> None.
Proof.
  cbv zeta.
  assert (Hsticker :
            baseSticker
              (page (now (interleave alwaysPng (firstn 5 uploadDuringBatch)
                                     (idle (start apiKey0)))))
            <> None) by (vm_compute; discriminate).
  split; [exact Hsticker|].
  destruct X11_overlapping_handlers as (H & _).
  exact (H alwaysPng (firstn 5 uploadDuringBatch) apiKey0 Hsticker).
Defined.

Lemma X14_witness :
  List.length (firstn 3 RANDOM_ACTIONS) = 3%nat
  /\ NoDup (firstn 3 RANDOM_ACTIONS).
Proof.
  destruct (X14_random_batch_has_three_captions
              alwaysPng (page baseDone) RANDOM_ACTIONS baseDone photoImage)
    as (H1 & H2 & _).
  - apply Permutation_refl.
  - vm_compute. reflexivity.
  - split; [exact H1 | exact H2].
Defined.

Lemma X15_witness :
  exists new,
    sent (world (step alwaysPng (ToggleConsent true) (start apiKey0)))
    = sent (world (start apiKey0)) ++ new
    /\ new = [].
Proof.
  destruct (X15_requests_per_action alwaysPng (ToggleConsent true) (start apiKey0))
    as (new & H1 & _ & H3 & _).
  exists new. split; [exact H1 | apply H3; reflexivity].
Defined.

Lemma X16_witness :
  settingsOf (page (step alwaysPng ClickGenerateBase
                         (run alwaysPng prepared (start apiKey0))))
  = settingsOf (page (run alwaysPng prepared (start apiKey0))).
Proof.
  destruct X16_clicks_keep_the_settings with (service := alwaysPng) as (H & _).
  apply (H ClickGenerateBase (run alwaysPng prepared (start apiKey0))).
  reflexivity.
Defined.

Lemma X17_witness : lit "yes" = lit "yes".
Proof.
  destruct X17_prompts_determine_caption_and_strength as (H & _).
  apply (H (initialState apiKey0) (lit "yes") (lit "yes")). reflexivity.
Defined.

Lemma X18_witness :
  (styleStrength (page (run alwaysPng strengthMoved (start apiKey0))) <= 100)%N.
Proof.
  apply (X18_strength_stays_in_range alwaysPng strengthMoved apiKey0).
  cbv beta iota delta [allowed available strengthMoved prepared page].
  repeat split; vm_compute; discriminate.
Defined.

Lemma X19_witness :
  page (step alwaysPng (ClickExportMetadata noon) baseDone) = page baseDone
  /\ sent (world (step alwaysPng (ClickExportMetadata noon) baseDone))
     = sent (world baseDone).
Proof.
  destruct (X19_downloads_change_nothing_else
              alwaysPng (ClickExportMetadata noon) baseDone)
    as (started & _ & _ & _ & H).
  apply H. reflexivity.
Defined.
